(** * DLV for Obsidian: the execution pipeline of [main.ts]

    A shallow embedding of the plugin's solver pipeline: the output
    sanitizer ([cleanOutput], [cleanErrors]), the extension predicate
    ([isSupportedLanguage]), the process runner ([executeDlv]) and the
    two result sinks ([updateOutputUI], [saveExecutionResult]).

    JavaScript strings are modelled as lists of code units below 256
    ([list ascii], read as Latin-1); the character classes below are the
    ECMAScript ones restricted to that range. *)

From Stdlib Require Import List Ascii String ZArith Lia Bool Arith.
From Stdlib Require Import DecimalString DecimalZ.
From Stdlib Require Import Sorted.
Import ListNotations.

(** ** JavaScript strings *)

Module JsString.

Definition str := list ascii.

Definition js (s : string) : str := list_ascii_of_string s.

Definition LF : ascii := "010"%char.
Definition DQUOTE : ascii := "034"%char.

Definition code (c : ascii) : nat := nat_of_ascii c.

(** [\s] and the characters removed by [trim()]: TAB, LF, VT, FF, CR,
    SPACE and NO-BREAK SPACE are the ones below 256. *)
Definition is_space (c : ascii) : bool :=
  let n := code c in
  ((9 <=? n) && (n <=? 13)) || (n =? 32) || (n =? 160).

Definition non_space (c : ascii) : bool := negb (is_space c).

(** [.] matches everything but a line terminator (LF, CR below 256). *)
Definition is_line_term (c : ascii) : bool :=
  let n := code c in (n =? 10) || (n =? 13).

Definition dot (c : ascii) : bool := negb (is_line_term c).

(** [\d] *)
Definition is_digit (c : ascii) : bool :=
  let n := code c in (48 <=? n) && (n <=? 57).

(** [[A-Za-z]] *)
Definition is_alpha (c : ascii) : bool :=
  let n := code c in
  ((65 <=? n) && (n <=? 90)) || ((97 <=? n) && (n <=? 122)).

(** [String.prototype.toLowerCase] on one code unit: A-Z and the
    Latin-1 capitals (all of 192..222 but the multiplication sign). *)
Definition lower_char (c : ascii) : ascii :=
  let n := code c in
  if ((65 <=? n) && (n <=? 90))
     || ((192 <=? n) && (n <=? 222) && negb (n =? 215))
  then ascii_of_nat (n + 32) else c.

Definition toLowerCase (s : str) : str := map lower_char s.

(** Case folding of a regular expression with the [i] flag against an
    ASCII pattern character: only the ASCII letters fold. *)
Definition fold_ascii (c : ascii) : ascii :=
  let n := code c in
  if (97 <=? n) && (n <=? 122) then ascii_of_nat (n - 32) else c.

Definition eqb_ci (p c : ascii) : bool :=
  Ascii.eqb (fold_ascii p) (fold_ascii c).

Fixpoint takeWhile (p : ascii -> bool) (s : str) : str :=
  match s with
  | c :: t => if p c then c :: takeWhile p t else []
  | [] => []
  end.

Fixpoint dropWhile (p : ascii -> bool) (s : str) : str :=
  match s with
  | c :: t => if p c then dropWhile p t else s
  | [] => []
  end.

(** [s.trim()] *)
Definition trimStart (s : str) : str := dropWhile is_space s.
Definition trimEnd (s : str) : str := rev (dropWhile is_space (rev s)).
Definition trim (s : str) : str := trimEnd (trimStart s).

(** [s.startsWith(p)], returning what follows the prefix. *)
Fixpoint strip_prefix_by (eq : ascii -> ascii -> bool) (p s : str)
  : option str :=
  match p with
  | [] => Some s
  | a :: p' =>
      match s with
      | c :: s' => if eq a c then strip_prefix_by eq p' s' else None
      | [] => None
      end
  end.

Definition strip_prefix := strip_prefix_by Ascii.eqb.
Definition strip_prefix_ci := strip_prefix_by eqb_ci.

Definition startsWith (s p : str) : bool :=
  match strip_prefix p s with Some _ => true | None => false end.

(** [s.includes(p)] *)
Fixpoint includes (s p : str) : bool :=
  startsWith s p ||
  match s with
  | [] => false
  | _ :: t => includes t p
  end.

Fixpoint str_eqb (a b : str) : bool :=
  match a, b with
  | [], [] => true
  | x :: a', y :: b' => Ascii.eqb x y && str_eqb a' b'
  | _, _ => false
  end.

(** [s.split(sep)] for a one-character separator: never empty, a
    trailing separator yields a final empty piece. *)
Fixpoint split (sep : ascii) (s : str) : list str :=
  match s with
  | [] => [[]]
  | c :: t =>
      if Ascii.eqb c sep then [] :: split sep t
      else match split sep t with
           | h :: r => (c :: h) :: r
           | [] => [[c]]
           end
  end.

(** [pieces.join(sep)] *)
Fixpoint join (sep : str) (l : list str) : str :=
  match l with
  | [] => []
  | [x] => x
  | x :: r => x ++ sep ++ join sep r
  end.

(** Global replacement [s.replace(/re/g, ...)].  The pattern is given
    by [m], the length of its match at the head of a suffix (the
    patterns of this program look neither behind nor match the empty
    string); [rep] builds the replacement from the matched text.  The
    scan is left to right and resumes after each match; [skip] counts
    the matched characters still to be dropped. *)
Section Replace.
Variable m : str -> option nat.
Variable rep : str -> str.

Fixpoint replace_from (skip : nat) (s : str) : str :=
  match s with
  | [] => []
  | c :: t =>
      match skip with
      | S k => replace_from k t
      | O =>
          match m s with
          | Some (S k) => rep (firstn (S k) s) ++ replace_from k t
          | _ => c :: replace_from 0 t
          end
      end
  end.

Definition replace_all (s : str) : str := replace_from 0 s.

(** [/re/.test(s)]: the pattern matches somewhere in [s]. *)
Fixpoint test (s : str) : bool :=
  match m s with
  | Some _ => true
  | None =>
      match s with
      | [] => false
      | _ :: t => test t
      end
  end.

(** A match at the head of a text is still one when the text goes on:
    the pattern does not look at what follows its match to reject it. *)
Definition extends : Prop :=
  forall a b n, m a = Some n -> exists n', m (a ++ b) = Some n'.
End Replace.

End JsString.
Import JsString.

(** ** Output sanitizer *)

Module Sanitizer.

(** [\d+] at the head of [s]: the digits and what follows them. *)
Definition digits1 (s : str) : option (str * str) :=
  match takeWhile is_digit s with
  | [] => None
  | ds => Some (ds, dropWhile is_digit s)
  end.

Definition lit (p : string) (s : str) : option str := strip_prefix (js p) s.
Definition lit_ci (p : string) (s : str) : option str :=
  strip_prefix_ci (js p) s.

(** The part of a whitespace run after its last line feed, if it has
    one: where the greedy [\s*] of [\s*\n] ends up after backtracking. *)
Definition after_last_LF (ws : str) : option str :=
  if existsb (Ascii.eqb LF) ws
  then Some (rev (takeWhile (fun c => negb (Ascii.eqb c LF)) (rev ws)))
  else None.

(** [/^DLV \d+\.\d+\.\d+\s*\n/] at the start of the output: what is
    left of the output after the banner. *)
Definition match_banner (s : str) : option str :=
  match lit "DLV " s with
  | None => None
  | Some s1 =>
  match digits1 s1 with
  | None => None
  | Some (_, s2) =>
  match lit "." s2 with
  | None => None
  | Some s3 =>
  match digits1 s3 with
  | None => None
  | Some (_, s4) =>
  match lit "." s4 with
  | None => None
  | Some s5 =>
  match digits1 s5 with
  | None => None
  | Some (_, s6) =>
  match after_last_LF (takeWhile is_space s6) with
  | None => None
  | Some ws => Some (ws ++ dropWhile is_space s6)
  end end end end end end end.

Definition strip_banner (s : str) : str :=
  match match_banner s with
  | Some r => r
  | None => s
  end.

(** [/Generic warning: .*\n?/]: length of the match at the head. *)
Definition m_generic_warning (s : str) : option nat :=
  match lit "Generic warning: " s with
  | None => None
  | Some r =>
      Some (17 + List.length (takeWhile dot r)
            + match dropWhile dot r with
              | c :: _ => if Ascii.eqb c LF then 1 else 0
              | [] => 0
              end)
  end.

Definition erase (_ : str) : str := [].

Definition cleanOutput (output : str) : str :=
  trim (replace_all m_generic_warning erase (strip_banner output)).

(** [[^\s]+] after a prefix of [k] characters: the length of both. *)
Definition nonspace_run (k : nat) (r : str) : option nat :=
  match List.length (takeWhile non_space r) with
  | O => None
  | n => Some (k + n)
  end.

(** [[A-Za-z]:\\[^\s]+]: a drive letter, a colon, a backslash and the
    path up to the next whitespace. *)
Definition m_drive_path (s : str) : option nat :=
  match s with
  | d :: r0 =>
      if is_alpha d then
        match lit ":\" r0 with
        | Some r => nonspace_run 3 r
        | None => None
        end
      else None
  | [] => None
  end.

(** [\/[^\s]+]: a rooted path up to the next whitespace. *)
Definition m_rooted_path (s : str) : option nat :=
  match lit "/" s with
  | Some r => nonspace_run 1 r
  | None => None
  end.

(** [/([A-Za-z]:\\[^\s]+|\/[^\s]+)/], the first alternative first. *)
Definition m_path (s : str) : option nat :=
  match m_drive_path s with
  | Some n => Some n
  | None => m_rooted_path s
  end.

(** [/(dlv-temp-\d+\.asp)/i] *)
Definition m_temp (s : str) : option nat :=
  match lit_ci "dlv-temp-" s with
  | None => None
  | Some s1 =>
  match digits1 s1 with
  | None => None
  | Some (ds, s2) =>
  match lit_ci ".asp" s2 with
  | None => None
  | Some _ => Some (9 + List.length ds + 4)
  end end end.

Definition placeholder (_ : str) : str := js "Input".

(** [(line \d+):] with the [i] flag: the length of group 1 when the
    pattern matches at the head. *)
Definition m_line (s : str) : option nat :=
  match lit_ci "line " s with
  | None => None
  | Some s1 =>
  match digits1 s1 with
  | None => None
  | Some (ds, s2) =>
  match lit ":" s2 with
  | Some _ => Some (5 + List.length ds)
  | None => None
  end end end.

(** [line.match(...)] with the case-insensitive pattern made of group
    1 [(line \d+)], a colon, [\s*] and group 2, a greedy star of [.]:
    groups 1 and 2 of the leftmost match. *)
Fixpoint errorMatch (line : str) : option (str * str) :=
  match m_line line with
  | Some n =>
      Some (firstn n line,
            takeWhile dot (dropWhile is_space (skipn (S n) line)))
  | None =>
      match line with
      | [] => None
      | _ :: t => errorMatch t
      end
  end.

(** [/^.*?:/]: what follows the first colon, provided no line
    terminator precedes it. *)
Fixpoint after_first_colon (s : str) : option str :=
  match s with
  | [] => None
  | c :: t =>
      if Ascii.eqb c ":"%char then Some t
      else if is_line_term c then None
      else after_first_colon t
  end.

(** [msg.replace(/^.*?:\s*/, '')] *)
Definition drop_label (msg : str) : str :=
  match after_first_colon msg with
  | Some t => dropWhile is_space t
  | None => msg
  end.

(** The callback of [.map(line => ...)] in [cleanErrors]. *)
Definition clean_line (line : str) : str :=
  let line := replace_all m_temp placeholder
                (replace_all m_path erase line) in
  match errorMatch line with
  | Some (g1, g2) => g1 ++ js ": " ++ drop_label g2
  | None =>
      if includes line (js "Command failed:")
         || includes line (js "Aborting due to")
      then [] else line
  end.

Definition nonblank (line : str) : bool := 0 <? List.length (trim line).

(** [/(line \d+):/gi] replaced by ['Errore:\n$1']. *)
Definition m_line_colon (s : str) : option nat := option_map S (m_line s).
Definition errore (matched : str) : str :=
  js "Errore:" ++ [LF] ++ removelast matched.

Definition is_dot_or_colon (c : ascii) : bool :=
  Ascii.eqb c "."%char || Ascii.eqb c ":"%char.

(** [s.replace(/[.:]+$/, '')]: without the [m] flag [$] is the end of
    the input, so the match is the trailing run of dots and colons. *)
Definition strip_final_punct (s : str) : str :=
  rev (dropWhile is_dot_or_colon (rev s)).

Definition cleanErrors (errorOutput : str) : str :=
  let lines := filter nonblank (map clean_line (split LF errorOutput)) in
  trim (strip_final_punct
          (replace_all m_line_colon errore (join [LF] lines))).

(** Texts that the rules of the sanitizer leave alone. *)

Definition ends_with_punct (s : str) : bool :=
  match rev s with
  | c :: _ => is_dot_or_colon c
  | [] => false
  end.

Definition no_blank_line (s : str) : bool :=
  match s with
  | [] => true
  | _ => forallb nonblank (split LF s)
  end.

(** No banner at the start and no generic warning anywhere. *)
Definition settled_output (t : str) : bool :=
  match match_banner t with
  | Some _ => false
  | None => negb (includes t (js "Generic warning: "))
  end.

(** No path, no temporary file name, no [line N:], no noise line, no
    blank line and no final dot or colon. *)
Definition settled_errors (t : str) : bool :=
  negb (test m_path t)
  && negb (test m_temp t)
  && negb (test m_line t)
  && negb (includes t (js "Command failed:"))
  && negb (includes t (js "Aborting due to"))
  && no_blank_line t
  && negb (ends_with_punct t).

End Sanitizer.
Import Sanitizer.

(** ** Configuration *)

Inductive LocationType := absolute | relative.

Record DlvPluginSettings := {
  dlvLocationType : LocationType;
  absolutePath : str;
  relativeExecutable : str;
  availableExecutables : list str;
  executionTimeout : Z;           (* milliseconds *)
  customExtensions : str;
  showErrors : bool;
  showAllModels : bool;
  hideFacts : bool;
  cacheResults : bool
}.

Definition DEFAULT_SETTINGS : DlvPluginSettings := {|
  dlvLocationType := relative;
  absolutePath := [];
  relativeExecutable := js "executables/dlv.exe";
  availableExecutables := [];
  executionTimeout := 0;
  customExtensions := js "asp";
  showErrors := false;
  showAllModels := false;
  hideFacts := false;
  cacheResults := true
|}.

(** ** Fragment locator: the extension predicate *)

Module Locator.

(** [customExtensions.split(",").map(e => e.trim().toLowerCase())] *)
Definition extension_tokens (settings : DlvPluginSettings) : list str :=
  map (fun e => toLowerCase (trim e))
      (split ","%char (customExtensions settings)).

(** The callback of [.some(e => ...)]. *)
Definition matches_token (lang e : str) : bool :=
  str_eqb (toLowerCase lang) e
  || startsWith (toLowerCase lang) (e ++ js ".").

Definition isSupportedLanguage (settings : DlvPluginSettings) (lang : str)
  : bool :=
  existsb (matches_token lang) (extension_tokens settings).

Definition isSupportedExtension := isSupportedLanguage.

End Locator.
Import Locator.
(** ** Execution engine *)

Module Engine.

(** A thrown JavaScript value: an [Error] instance with its
    [message], or a value that is not an [Error]. *)
Inductive Thrown :=
| ErrorObj (message : str)
| NotAnError.

(** The object [{ stdout, stderr }], both what [exec] resolves with
    and what [executeDlv] returns. *)
Record ExecResult := { stdout : str; stderr : str }.

Inductive JsValue :=
| JsString (s : str)
| JsBoolean (b : bool).

(** Property lookup on a returned object; [None] is [undefined]. *)
Definition get_property (r : ExecResult) (key : string) : option JsValue :=
  if String.eqb key "stdout" then Some (JsString (stdout r))
  else if String.eqb key "stderr" then Some (JsString (stderr r))
  else None.

(** The caller's [AbortSignal]: when it is aborted, if ever, in
    milliseconds after the spawn (the steps before the spawn take no
    time).  A negative time is a signal that is already aborted when
    [executeDlv] is called. *)
Record AbortSignal := { abort_at : option Z }.

(** What the child process does when left alone: how long it runs and
    what [exec]'s promise then settles with (a rejection for a spawn
    error or a non-zero exit).  Every child exits at a finite time. *)
Record Child := {
  duration : Z;
  outcome : Thrown + ExecResult
}.

(** The host: Node's [path], [os], [fs], [Date] and [child_process]
    as seen by one run.  An [fs] promise rejects with [Some e].
    [exec] starts the solver through a shell and, when its signal is
    aborted, kills that shell only: [kill_ends_solver] tells whether
    the solver ends with it (it does where the shell has replaced
    itself by the solver, not where the solver is the shell's own
    child). *)
Record Host := {
  pluginPath : str;
  path_join : str -> str -> str;
  os_tmpdir : str;
  date_now : Z;
  fs_access : str -> option Thrown;
  fs_mkdir : str -> option Thrown;
  fs_writeFile : str -> str -> option Thrown;
  fs_unlink : str -> option Thrown;
  exec : str -> Child;
  kill_ends_solver : bool
}.

Inductive Event :=
| EvAccess (path : str)
| EvMkdir (path : str)
| EvWriteFile (path content : str)
| EvExec (command : str)
| EvSetTimeout (ms : Z)
| EvUnlink (path : str).

(** The plugin instance and the processes it started: the effects so
    far (oldest first), the registry [activeAbortControllers], the
    controllers whose signal is aborted and the controllers whose
    solver process is still running. *)
Record State := {
  trace : list Event;
  fresh : nat;
  activeAbortControllers : list nat;
  abortedControllers : list nat;
  runningChildren : list nat
}.

Definition initial : State := {|
  trace := []; fresh := 0; activeAbortControllers := [];
  abortedControllers := []; runningChildren := []
|}.

Definition log (e : Event) (st : State) : State := {|
  trace := trace st ++ [e]; fresh := fresh st;
  activeAbortControllers := activeAbortControllers st;
  abortedControllers := abortedControllers st;
  runningChildren := runningChildren st
|}.

Definition remove_id (c : nat) (l : list nat) : list nat :=
  filter (fun x => negb (x =? c)) l.

(** [new AbortController()] followed by [activeAbortControllers.add]. *)
Definition register (st : State) : nat * State :=
  (fresh st,
   {| trace := trace st; fresh := S (fresh st);
      activeAbortControllers := activeAbortControllers st ++ [fresh st];
      abortedControllers := abortedControllers st;
      runningChildren := runningChildren st |}).

(** [activeAbortControllers.delete(controller)] *)
Definition unregister (c : nat) (st : State) : State := {|
  trace := trace st; fresh := fresh st;
  activeAbortControllers := remove_id c (activeAbortControllers st);
  abortedControllers := abortedControllers st;
  runningChildren := runningChildren st
|}.

Definition spawn (c : nat) (st : State) : State := {|
  trace := trace st; fresh := fresh st;
  activeAbortControllers := activeAbortControllers st;
  abortedControllers := abortedControllers st;
  runningChildren := runningChildren st ++ [c]
|}.

(** The solver process has ended. *)
Definition reap (c : nat) (st : State) : State := {|
  trace := trace st; fresh := fresh st;
  activeAbortControllers := activeAbortControllers st;
  abortedControllers := abortedControllers st;
  runningChildren := remove_id c (runningChildren st)
|}.

(** [controller.abort()]: the signal is aborted.  [exec] then kills
    the shell it was given the signal for; the solver ends only when
    [ends_solver] says so. *)
Definition abort (ends_solver : bool) (c : nat) (st : State) : State :=
  let st' := {|
    trace := trace st; fresh := fresh st;
    activeAbortControllers := activeAbortControllers st;
    abortedControllers := abortedControllers st ++ [c];
    runningChildren := runningChildren st
  |} in
  if ends_solver then reap c st' else st'.

Definition signal_aborted (c : nat) (st : State) : bool :=
  existsb (Nat.eqb c) (abortedControllers st).

Definition child_running (c : nat) (st : State) : bool :=
  existsb (Nat.eqb c) (runningChildren st).

(** Computations that change the state and return or throw. *)
Definition M (A : Type) : Type := State -> (Thrown + A) * State.

Definition ret {A} (a : A) : M A := fun st => (inr a, st).

Definition throw {A} (e : Thrown) : M A := fun st => (inl e, st).

Definition bind {A B} (c : M A) (k : A -> M B) : M B :=
  fun st =>
    match c st with
    | (inr a, st') => k a st'
    | (inl e, st') => (inl e, st')
    end.

Notation "x <- c ;; k" := (bind c (fun x => k))
  (at level 61, c at next level, right associativity).
Notation "c ;; k" := (bind c (fun _ => k))
  (at level 61, right associativity).

(** [try { body } catch (error) { handler } finally { cleanup }] *)
Definition try_catch_finally {A}
  (body : M A) (handler : Thrown -> M A) (cleanup : State -> State) : M A :=
  fun st =>
    let '(r, st') :=
      match body st with
      | (inr a, st1) => (inr a, st1)
      | (inl e, st1) => handler e st1
      end in
    (r, cleanup st').

(** [await promise] for a promise of [fs]. *)
Definition await_fs (e : Event) (rejection : option Thrown) : M unit :=
  fun st =>
    match rejection with
    | None => (inr tt, log e st)
    | Some err => (inl err, log e st)
    end.

(** [promise.catch(() => {})] *)
Definition swallow (c : M unit) : M unit :=
  fun st => match c st with (_, st') => (inr tt, st') end.

Definition string_of_Z (z : Z) : str :=
  js (NilEmpty.string_of_int (Z.to_int z)).

(** The template [dlv-temp-${Date.now()}.${lang}]. *)
Definition tmpName (now : Z) (lang : str) : str :=
  js "dlv-temp-" ++ string_of_Z now ++ js "." ++ lang.

Definition push (args : list str) (items : list str) : list str :=
  args ++ items.

Definition quoted (arg : str) : str := [DQUOTE] ++ arg ++ [DQUOTE].

Definition AbortError : Thrown := ErrorObj (js "The operation was aborted").

Section Run.
Variable settings : DlvPluginSettings.
Variable host : Host.

Definition getDlvPath : str :=
  match dlvLocationType settings with
  | absolute => absolutePath settings
  | relative => path_join host (pluginPath host) (relativeExecutable settings)
  end.

Definition build_args (tmpFile : str) : list str :=
  let args := [tmpFile] in
  let args := if showAllModels settings
              then push args [js "-n"; js "0"] else args in
  let args := if hideFacts settings
              then push args [js "--no-facts"] else args in
  args.

Definition command_line (dlvPath : str) (args : list str) : str :=
  quoted dlvPath ++ js " " ++ join (js " ") (map quoted args).

(** When the handler [signal.onabort = () => controller.abort()]
    runs, if ever.  The handler is assigned by the call: the [abort]
    event of a signal that was aborted before is not dispatched again,
    and the handler never runs. *)
Definition cancel_time (signal : option AbortSignal) : option Z :=
  match signal with
  | Some {| abort_at := Some a |} => if (0 <=? a)%Z then Some a else None
  | _ => None
  end.

(** When [execPromise] settles, in milliseconds after the spawn, and
    with what: the child's own end, or the abort of the controller
    when the handler runs strictly earlier. *)
Definition exec_settles (signal : option AbortSignal) (child : Child)
  : Z * bool :=
  match cancel_time signal with
  | Some a =>
      if (a <? duration child)%Z then (a, true) else (duration child, false)
  | None => (duration child, false)
  end.

(** [execAsync(command, { signal })] and the [await] on it, raced
    against the timer when [executionTimeout > 0].  The timer wins
    only when it fires strictly before [execPromise] settles; then
    nothing touches the controller or the child.  The timer is the one
    of a delay that [setTimeout] takes as it is, up to 2147483647 ms;
    a longer delay, which Node replaces by 1 ms, is outside this
    model. *)
Definition await_exec (controller : nat) (signal : option AbortSignal)
  (command : str) : M ExecResult :=
  fun st =>
    let child := exec host command in
    let st := spawn controller (log (EvExec command) st) in
    let '(t, cancelled) := exec_settles signal child in
    let settle (st : State) :=
      if cancelled
      then (inl AbortError, abort (kill_ends_solver host) controller st)
      else (outcome child, reap controller st) in
    if (0 <? executionTimeout settings)%Z then
      let st := log (EvSetTimeout (executionTimeout settings)) st in
      if (executionTimeout settings <? t)%Z
      then (inl (ErrorObj (js "Execution timeout")), st)
      else settle st
    else settle st.

(** The statements of the [try] block. *)
Definition executeDlv_try (controller : nat) (content lang : str)
  (signal : option AbortSignal) : M ExecResult :=
  let dlvPath := getDlvPath in
  await_fs (EvAccess dlvPath) (fs_access host dlvPath) ;;
  let tmpDir := os_tmpdir host in
  await_fs (EvMkdir tmpDir) (fs_mkdir host tmpDir) ;;
  let tmpFile := path_join host tmpDir (tmpName (date_now host) lang) in
  await_fs (EvWriteFile tmpFile content)
           (fs_writeFile host tmpFile content) ;;
  let args := build_args tmpFile in
  result <- await_exec controller signal (command_line dlvPath args) ;;
  swallow (await_fs (EvUnlink tmpFile) (fs_unlink host tmpFile)) ;;
  ret {| stdout := cleanOutput (stdout result);
         stderr := cleanErrors (stderr result) |}.

(** The [catch] block. *)
Definition errorMessage (error : Thrown) (aborted : bool) : str :=
  match error with
  | ErrorObj message =>
      if aborted then js "Execution aborted" else message
  | NotAnError => js "Unknown error"
  end.

Definition executeDlv_catch (controller : nat) (error : Thrown)
  : M ExecResult :=
  fun st =>
    ret {| stdout := [];
           stderr := errorMessage error (signal_aborted controller st) |}
        st.

Definition executeDlv (content lang : str) (signal : option AbortSignal)
  : M ExecResult :=
  fun st =>
    let '(controller, st) := register st in
    try_catch_finally
      (executeDlv_try controller content lang signal)
      (executeDlv_catch controller)
      (unregister controller)
      st.

(** The temporary file of a run. *)
Definition tmpFile_of (lang : str) : str :=
  path_join host (os_tmpdir host) (tmpName (date_now host) lang).

(** Nothing fails before the spawn: the executable is there, the
    temporary directory and the temporary file get written. *)
Definition presteps_succeed (content lang : str) : Prop :=
  fs_access host getDlvPath = None
  /\ fs_mkdir host (os_tmpdir host) = None
  /\ fs_writeFile host (tmpFile_of lang) content = None.
End Run.

End Engine.
Import Engine.

(** ** Result sinks *)

Module Sink.

(** The output element after [updateOutputUI]: its own markup, its
    [style.display], the [div.dlv-error] appended to it (by its
    [innerHTML]), and the copy button's [style.display]. *)
Record OutputView := {
  innerHTML : str;
  display : str;
  errorEl : option str;
  copyBtnDisplay : str
}.

Definition m_LF (s : str) : option nat :=
  match s with
  | c :: _ => if Ascii.eqb c LF then Some 1 else None
  | [] => None
  end.

Definition br (_ : str) : str := js "<br>".

Definition spaces (n : nat) : str := repeat " "%char n.

(** The template literal of the error line, with its line breaks and
    indentation. *)
Definition error_line (line : str) : str :=
  let parts := split ":"%char line in
  js "<div class=" ++ quoted (js "error-line") ++ js ">" ++ [LF]
  ++ spaces 20 ++ js "<b>" ++ hd [] parts ++ js ":</b> " ++ [LF]
  ++ spaces 20 ++ join (js ":") (tl parts) ++ [LF]
  ++ spaces 16 ++ js "</div>".

Definition hasContent (s : str) : bool := 0 <? List.length (trim s).

(** The test guarding the error element. *)
Definition display_shows_errors (settings : DlvPluginSettings)
  (result : ExecResult) : bool :=
  let hasOutput := hasContent (stdout result) in
  let hasErrors := hasContent (stderr result) in
  (showErrors settings || negb hasOutput) && hasErrors.

Definition updateOutputUI (settings : DlvPluginSettings)
  (result : ExecResult) : OutputView := {|
  innerHTML := replace_all m_LF br (stdout result);
  display := js "block";
  errorEl :=
    if display_shows_errors settings result then
      let errorContent :=
        join [] (map error_line (split LF (cleanErrors (stderr result)))) in
      Some (js "<pre>" ++ errorContent ++ js "</pre>")
    else None;
  copyBtnDisplay := js "block"
|}.

Definition comment_lines (s : str) : str :=
  join [LF] (map (fun line => js "% " ++ line) (split LF s)).

(** A string is truthy when it is not empty. *)
Definition truthy (s : str) : bool :=
  match s with [] => false | _ => true end.

Definition answer_section (result : ExecResult) : str :=
  if hasContent (stdout result)
  then js "% AnswerSet" ++ [LF] ++ comment_lines (stdout result)
  else [].

(** The test guarding the error section. *)
Definition append_shows_errors (settings : DlvPluginSettings)
  (result : ExecResult) : bool :=
  let hasOutput := hasContent (stdout result) in
  (showErrors settings || negb hasOutput) && truthy (stderr result).

Definition errore_section (settings : DlvPluginSettings)
  (result : ExecResult) : str :=
  if append_shows_errors settings result
  then [LF] ++ js "% Errore" ++ [LF] ++ comment_lines (stderr result)
  else [].

(** [content] as built by [saveExecutionResult]. *)
Definition save_content (settings : DlvPluginSettings) (timestamp : str)
  (result : ExecResult) : str :=
  let content := js "% " ++ timestamp ++ [LF] in
  let content := content ++ answer_section result in
  let content := content ++ errore_section settings result in
  content.

(** [saveExecutionResult]: the active file, if there is one, after
    [vault.append]. *)
Definition saveExecutionResult (settings : DlvPluginSettings)
  (timestamp : str) (result : ExecResult) (activeFile : option str)
  : option str :=
  match activeFile with
  | Some data =>
      Some (data ++ [LF; LF] ++ trim (save_content settings timestamp result))
  | None => None
  end.

End Sink.
Import Sink.

(** ** Sample configurations and hosts *)

Module Samples.

Definition with_extensions (exts : string) : DlvPluginSettings := {|
  dlvLocationType := dlvLocationType DEFAULT_SETTINGS;
  absolutePath := absolutePath DEFAULT_SETTINGS;
  relativeExecutable := relativeExecutable DEFAULT_SETTINGS;
  availableExecutables := availableExecutables DEFAULT_SETTINGS;
  executionTimeout := executionTimeout DEFAULT_SETTINGS;
  customExtensions := js exts;
  showErrors := showErrors DEFAULT_SETTINGS;
  showAllModels := showAllModels DEFAULT_SETTINGS;
  hideFacts := hideFacts DEFAULT_SETTINGS;
  cacheResults := cacheResults DEFAULT_SETTINGS
|}.

Definition with_timeout (ms : Z) : DlvPluginSettings := {|
  dlvLocationType := dlvLocationType DEFAULT_SETTINGS;
  absolutePath := absolutePath DEFAULT_SETTINGS;
  relativeExecutable := relativeExecutable DEFAULT_SETTINGS;
  availableExecutables := availableExecutables DEFAULT_SETTINGS;
  executionTimeout := ms;
  customExtensions := customExtensions DEFAULT_SETTINGS;
  showErrors := showErrors DEFAULT_SETTINGS;
  showAllModels := showAllModels DEFAULT_SETTINGS;
  hideFacts := hideFacts DEFAULT_SETTINGS;
  cacheResults := cacheResults DEFAULT_SETTINGS
|}.

Definition with_flags (allModels noFacts : bool) : DlvPluginSettings := {|
  dlvLocationType := dlvLocationType DEFAULT_SETTINGS;
  absolutePath := absolutePath DEFAULT_SETTINGS;
  relativeExecutable := relativeExecutable DEFAULT_SETTINGS;
  availableExecutables := availableExecutables DEFAULT_SETTINGS;
  executionTimeout := executionTimeout DEFAULT_SETTINGS;
  customExtensions := customExtensions DEFAULT_SETTINGS;
  showErrors := showErrors DEFAULT_SETTINGS;
  showAllModels := allModels;
  hideFacts := noFacts;
  cacheResults := cacheResults DEFAULT_SETTINGS
|}.

(** [path.join] on two segments that need no normalisation. *)
Definition posix_join (a b : str) : str := a ++ js "/" ++ b.

(** A POSIX machine on which every [fs] call succeeds, every command
    behaves as [child] and the solver is the shell's own child. *)
Definition posix_host (now : Z) (child : Child) : Host := {|
  pluginPath := js "/vault/.obsidian/plugins/dlv";
  path_join := posix_join;
  os_tmpdir := js "/tmp";
  date_now := now;
  fs_access := fun _ => None;
  fs_mkdir := fun _ => None;
  fs_writeFile := fun _ _ => None;
  fs_unlink := fun _ => None;
  exec := fun _ => child;
  kill_ends_solver := false
|}.

(** The same machine without the solver binary. *)
Definition host_without_solver (now : Z) (child : Child) : Host := {|
  pluginPath := js "/vault/.obsidian/plugins/dlv";
  path_join := posix_join;
  os_tmpdir := js "/tmp";
  date_now := now;
  fs_access := fun _ => Some (ErrorObj (js "ENOENT: no such file or directory"));
  fs_mkdir := fun _ => None;
  fs_writeFile := fun _ _ => None;
  fs_unlink := fun _ => None;
  exec := fun _ => child;
  kill_ends_solver := false
|}.

(** A solver that answers after 40 ms. *)
Definition quick_solver : Child := {|
  duration := 40;
  outcome := inr {| stdout := js "DLV 2.1.0" ++ [LF] ++ js "{a,b}" ++ [LF];
                    stderr := [] |}
|}.

(** A solver that needs a minute. *)
Definition slow_solver : Child := {|
  duration := 60000;
  outcome := inr {| stdout := js "{a}" ++ [LF]; stderr := [] |}
|}.

(** A solver that exits with a non-zero status after 40 ms. *)
Definition failing_solver : Child := {|
  duration := 40;
  outcome := inl (ErrorObj (js "Command failed: dlv"))
|}.

Definition program : str := js "a :- b. b.".

End Samples.
Import Samples.

(** ** Fragment locator: fenced blocks in the editor *)

Module Fragments.

Definition FENCE : str := js "```".

(** The lazy body followed by the closing fence: the text before the
    first fence, if there is one. *)
Fixpoint body_before_fence (s : str) : option str :=
  if startsWith s FENCE then Some []
  else match s with
       | [] => None
       | c :: t => option_map (cons c) (body_before_fence t)
       end.

(** The fence pattern at the head of [s]: three backquotes, group 1
    [\S+], a line feed, group 2 up to the next three backquotes.  The
    greedy [\S+] is the whole run of non-whitespace characters (a
    shorter one would leave a non-whitespace character for the line
    feed). *)
Definition match_fence (s : str) : option (str * str) :=
  match strip_prefix FENCE s with
  | None => None
  | Some s1 =>
      match takeWhile non_space s1 with
      | [] => None
      | tag =>
          match dropWhile non_space s1 with
          | c :: s2 =>
              if Ascii.eqb c LF then
                match body_before_fence s2 with
                | Some body => Some (tag, body)
                | None => None
                end
              else None
          | [] => None
          end
      end
  end.

(** One result of [regex.exec]: [match.index], [match[0]], [match[1]]
    and [match[2]]. *)
Record FenceMatch := {
  index : nat;
  whole : str;
  tag : str;
  body : str
}.

(** The loop [while ((match = regex.exec(text)) !== null)]: the
    matches from left to right, each search resuming at the end of the
    previous match.  [i] is the offset of [s] in the document, [skip]
    the number of characters of the previous match still ahead. *)
Fixpoint scan_from (skip i : nat) (s : str) : list FenceMatch :=
  match s with
  | [] => []
  | _ :: t =>
      match skip with
      | S k => scan_from k (S i) t
      | O =>
          match match_fence s with
          | Some (tag, body) =>
              let whole := FENCE ++ tag ++ [LF] ++ body ++ FENCE in
              {| index := i; whole := whole; tag := tag; body := body |}
                :: scan_from (List.length whole - 1) (S i) t
          | None => scan_from 0 (S i) t
          end
      end
  end.

Definition fences (text : str) : list FenceMatch := scan_from 0 0 text.

(** [hay.indexOf(needle)], [-1] when there is no occurrence. *)
Fixpoint indexOf (hay needle : str) : Z :=
  if startsWith hay needle then 0%Z
  else match hay with
       | [] => (-1)%Z
       | _ :: t =>
           let k := indexOf t needle in
           if (k <? 0)%Z then (-1)%Z else (k + 1)%Z
       end.

(** The relative index of [slice]: negative counts from the end, all
    clamped to the string. *)
Definition clamp_index (len k : Z) : Z :=
  if (k <? 0)%Z then Z.max (len + k) 0 else Z.min k len.

(** [s.slice(from, to)] *)
Definition slice (s : str) (from to : Z) : str :=
  let len := Z.of_nat (List.length s) in
  let a := clamp_index len from in
  let b := clamp_index len to in
  firstn (Z.to_nat (b - a)) (skipn (Z.to_nat a) s).

(** A widget decoration: where [builder.add] puts it and the
    constructor arguments of its [CodeBlockWidget]. *)
Record Decoration := {
  position : Z;
  widget_lang : str;
  widget_start : Z;
  widget_end : Z
}.

Definition decoration_of (m : FenceMatch) : Decoration :=
  let lang := toLowerCase (tag m) in
  let start := (Z.of_nat (index m) + indexOf (whole m) (body m))%Z in
  let end_ := (start + Z.of_nat (List.length (body m)))%Z in
  {| position := end_; widget_lang := lang;
     widget_start := start; widget_end := end_ |}.

Definition fence_supported (settings : DlvPluginSettings) (m : FenceMatch)
  : bool :=
  isSupportedLanguage settings (toLowerCase (tag m)).

(** [getEditorDecoration]: the decorations in the order they are
    added to the [RangeSetBuilder]. *)
Definition getEditorDecoration (settings : DlvPluginSettings) (text : str)
  : list Decoration :=
  map decoration_of (filter (fence_supported settings) (fences text)).

(** [docText.slice(start, end).trim()] of the widget's handlers. *)
Definition codeContent (docText : str) (d : Decoration) : str :=
  trim (slice docText (widget_start d) (widget_end d)).

(** [CodeBlockWidget.eq] *)
Definition widget_eq (a b : Decoration) : bool :=
  (widget_start a =? widget_start b)%Z
  && (widget_end a =? widget_end b)%Z
  && str_eqb (widget_lang a) (widget_lang b).

(** What a match of the scan is: a piece of the document at its
    [index], made of the fence, a non-empty tag without whitespace, a
    line feed, the body and the closing fence. *)
Definition fence_at (s : str) (i : nat) (m : FenceMatch) : Prop :=
  whole m = FENCE ++ tag m ++ [LF] ++ body m ++ FENCE
  /\ tag m <> []
  /\ forallb non_space (tag m) = true
  /\ exists pre post,
      s = pre ++ whole m ++ post /\ index m = i + List.length pre.

End Fragments.
Import Fragments.

(** ** Rendered code blocks: the markdown post-processor *)

Module PostProcessor.

(** [s.replace(pattern, replacement)] with a string pattern: the
    first occurrence only. *)
Fixpoint replace_first (s pattern replacement : str) : str :=
  match strip_prefix pattern s with
  | Some r => replacement ++ r
  | None =>
      match s with
      | [] => []
      | c :: t => c :: replace_first t pattern replacement
      end
  end.

(** [getCodeBlockLanguage], on the element's [classList]; [None] is
    [undefined]. *)
Definition getCodeBlockLanguage (classList : list str) : option str :=
  match find (fun c => startsWith c (js "language-")) classList with
  | Some langClass => Some (replace_first langClass (js "language-") [])
  | None => None
  end.

(** The guard [if (!lang || !this.isSupportedLanguage(lang)) return]
    of [markdownPostProcessor]: the tag the block is decorated with. *)
Definition decorated_language (settings : DlvPluginSettings)
  (classList : list str) : option str :=
  match getCodeBlockLanguage classList with
  | Some lang =>
      if truthy lang && isSupportedLanguage settings lang
      then Some lang else None
  | None => None
  end.

End PostProcessor.
Import PostProcessor.

(** ** Plugin life cycle and settings *)

Module Lifecycle.

(** The extensions computed by [onload]. *)
Definition onload_extensions (settings : DlvPluginSettings) : list str :=
  filter (fun ext => 0 <? List.length ext)
    (map (fun ext => toLowerCase (trim ext))
       (split ","%char (customExtensions settings))).

(** The argument of [registerExtensions], when [onload] calls it. *)
Definition registered_extensions (settings : DlvPluginSettings)
  : option (list str) :=
  let extensions := onload_extensions settings in
  if 0 <? List.length extensions then Some extensions else None.

(** [onunload]: [controller.abort()] for each registered controller. *)
Definition onunload (host : Host) (st : State) : State :=
  fold_left (fun s controller => abort (kill_ends_solver host) controller s)
    (activeAbortControllers st) st.

Inductive Notice :=
| RelativeExecutableNotFound
| AbsolutePathInvalid.

(** The plugin's settings in memory, the data saved by [saveData] and
    the notices shown so far. *)
Record Plugin := {
  current : DlvPluginSettings;
  saved : option DlvPluginSettings;
  notices : list Notice
}.

(** [fs.access(p).then(() => true).catch(() => false)] *)
Definition accessible (host : Host) (p : str) : bool :=
  match fs_access host p with
  | None => true
  | Some _ => false
  end.

Definition saveSettings (host : Host) (plugin : Plugin) : Plugin :=
  match dlvLocationType (current plugin) with
  | relative =>
      let fullPath := path_join host (pluginPath host)
                        (relativeExecutable (current plugin)) in
      if accessible host fullPath
      then {| current := current plugin;
              saved := Some (current plugin);
              notices := notices plugin |}
      else {| current := current plugin;
              saved := saved plugin;
              notices := notices plugin ++ [RelativeExecutableNotFound] |}
  | absolute =>
      if accessible host (absolutePath (current plugin))
      then {| current := current plugin;
              saved := Some (current plugin);
              notices := notices plugin |}
      else {| current := current plugin;
              saved := saved plugin;
              notices := notices plugin ++ [AbsolutePathInvalid] |}
  end.

(** The [onChange] handlers of the settings tab that assign one field
    and save. *)
Definition on_change (host : Host)
  (assign : DlvPluginSettings -> DlvPluginSettings) (plugin : Plugin)
  : Plugin :=
  saveSettings host {| current := assign (current plugin);
                       saved := saved plugin;
                       notices := notices plugin |}.

Definition set_showErrors (value : bool) (s : DlvPluginSettings)
  : DlvPluginSettings := {|
  dlvLocationType := dlvLocationType s;
  absolutePath := absolutePath s;
  relativeExecutable := relativeExecutable s;
  availableExecutables := availableExecutables s;
  executionTimeout := executionTimeout s;
  customExtensions := customExtensions s;
  showErrors := value;
  showAllModels := showAllModels s;
  hideFacts := hideFacts s;
  cacheResults := cacheResults s
|}.

Definition set_customExtensions (value : str) (s : DlvPluginSettings)
  : DlvPluginSettings := {|
  dlvLocationType := dlvLocationType s;
  absolutePath := absolutePath s;
  relativeExecutable := relativeExecutable s;
  availableExecutables := availableExecutables s;
  executionTimeout := executionTimeout s;
  customExtensions := value;
  showErrors := showErrors s;
  showAllModels := showAllModels s;
  hideFacts := hideFacts s;
  cacheResults := cacheResults s
|}.

End Lifecycle.
Import Lifecycle.

(** ** States and hosts used by the properties *)

Module Scenarios.

(** Every controller mentioned by the state has been created. *)
Definition well_formed (st : State) : Prop :=
  Forall (fun c => c < fresh st)
    (activeAbortControllers st ++ abortedControllers st
     ++ runningChildren st).

(** What one run with controller [c] may change in the state: it
    creates no controller, leaves the registry alone, and only [c] can
    become aborted or get a running child. *)
Definition frame (c : nat) (st st' : State) : Prop :=
  fresh st' = fresh st
  /\ activeAbortControllers st' = activeAbortControllers st
  /\ (forall x, In x (abortedControllers st') ->
                x = c \/ In x (abortedControllers st))
  /\ (forall x, In x (runningChildren st') ->
                x = c \/ In x (runningChildren st)).

(** The same host with another outcome of [fs.unlink]. *)
Definition with_unlink (host : Host) (unlink : str -> option Thrown)
  : Host := {|
  pluginPath := pluginPath host;
  path_join := path_join host;
  os_tmpdir := os_tmpdir host;
  date_now := date_now host;
  fs_access := fs_access host;
  fs_mkdir := fs_mkdir host;
  fs_writeFile := fs_writeFile host;
  fs_unlink := unlink;
  exec := exec host;
  kill_ends_solver := kill_ends_solver host
|}.

(** The child of a run and the command that starts it. *)
Definition command_of (settings : DlvPluginSettings) (host : Host)
  (lang : str) : str :=
  command_line (getDlvPath settings host)
    (build_args settings (tmpFile_of host lang)).

Definition child_of (settings : DlvPluginSettings) (host : Host)
  (lang : str) : Child :=
  exec host (command_of settings host lang).

(** A line of a solver program that is empty or a [%] comment. *)
Definition is_comment_line (l : str) : bool :=
  match l with
  | [] => true
  | c :: _ => Ascii.eqb c "%"%char
  end.

Definition no_LF (s : str) : bool :=
  forallb (fun c => negb (Ascii.eqb c LF)) s.

(** A pattern that cannot start on a whitespace character. *)
Definition starts_on_text (m : str -> option nat) : Prop :=
  m [] = None /\ forall c s, is_space c = true -> m (c :: s) = None.

(** The head of a text as the two alternatives of the path pattern
    see it: a character that is not whitespace; a colon, a backslash
    and such a character; a drive letter or a slash in front of
    them. *)
Definition head_non_space (s : str) : bool :=
  match s with
  | c :: _ => non_space c
  | [] => false
  end.

Definition drive_tail (s : str) : bool :=
  match s with
  | c1 :: c2 :: r =>
      Ascii.eqb ":" c1 && Ascii.eqb "\" c2 && head_non_space r
  | _ => false
  end.

Definition path_head (s : str) : bool :=
  match s with
  | a :: r =>
      (is_alpha a && drive_tail r) || (Ascii.eqb "/" a && head_non_space r)
  | [] => false
  end.

(** A note with two fenced programs. *)
Definition note : str :=
  js "Intro" ++ [LF] ++ js "```asp" ++ [LF] ++ js "a :- b." ++ [LF]
  ++ js "```" ++ [LF] ++ js "text" ++ [LF] ++ js "```ASP.v2" ++ [LF]
  ++ js "b." ++ [LF] ++ js "```" ++ [LF].

(** The widget of its first block. *)
Definition first_widget : Decoration := {|
  position := 21;
  widget_lang := js "asp";
  widget_start := 13;
  widget_end := 21
|}.

End Scenarios.
Import Scenarios.

(** * Properties *)

(** ** Strings *)

Lemma str_eqb_eq (a b : str) : str_eqb a b = true <-> a = b.
Proof.
  revert b; induction a as [|x a IH]; intros [|y b]; simpl;
    try (split; [discriminate|discriminate]); try tauto.
  rewrite andb_true_iff, Ascii.eqb_eq, IH.
  split; [intros [-> ->]; reflexivity | intros H; inversion H; auto].
Qed.

Lemma strip_prefix_Some (p s r : str) :
  strip_prefix p s = Some r <-> s = p ++ r.
Proof.
  unfold strip_prefix.
  revert s; induction p as [|a p IH]; intros s; simpl.
  - split; [intros H; inversion H; reflexivity | intros ->; reflexivity].
  - destruct s as [|c s].
    + split; discriminate.
    + destruct (Ascii.eqb a c) eqn:E.
      * apply Ascii.eqb_eq in E; subst c. rewrite IH.
        split; [intros ->; reflexivity | intros H; inversion H; auto].
      * split; [discriminate|].
        intros H; inversion H; subst.
        rewrite Ascii.eqb_refl in E; discriminate.
Qed.

Lemma startsWith_true (s p : str) :
  startsWith s p = true <-> exists r, s = p ++ r.
Proof.
  unfold startsWith.
  destruct (strip_prefix p s) as [r|] eqn:E.
  - apply strip_prefix_Some in E. split; eauto.
  - split; [discriminate|].
    intros [r Hr]. apply strip_prefix_Some in Hr. congruence.
Qed.

Lemma dropWhile_app (p : ascii -> bool) (a b : str) :
  dropWhile p (a ++ b) =
  if forallb p a then dropWhile p b else dropWhile p a ++ b.
Proof.
  induction a as [|c a IH]; simpl; [reflexivity|].
  destruct (p c); simpl; auto.
Qed.

Lemma takeWhile_app (p : ascii -> bool) (a b : str) :
  takeWhile p (a ++ b) =
  if forallb p a then a ++ takeWhile p b else takeWhile p a.
Proof.
  induction a as [|c a IH]; simpl; [reflexivity|].
  destruct (p c); simpl; [|reflexivity].
  rewrite IH. destruct (forallb p a); reflexivity.
Qed.

Lemma dropWhile_id (p : ascii -> bool) (s : str) :
  match s with c :: _ => p c = false | [] => True end ->
  dropWhile p s = s.
Proof. destruct s as [|c s]; simpl; [reflexivity|]. intros ->. reflexivity. Qed.

Lemma dropWhile_head (p : ascii -> bool) (s : str) :
  match dropWhile p s with c :: _ => p c = false | [] => True end.
Proof.
  induction s as [|c s IH]; simpl; [exact I|].
  destruct (p c) eqn:E; [exact IH | exact E].
Qed.

Lemma dropWhile_idem (p : ascii -> bool) (s : str) :
  dropWhile p (dropWhile p s) = dropWhile p s.
Proof. apply dropWhile_id, dropWhile_head. Qed.

(** What [trimEnd] keeps of a text whose last character is not
    whitespace. *)
Lemma trimEnd_keeps (a : str) (c : ascii) (b : str) :
  is_space c = false ->
  exists b', trimEnd (a ++ [c] ++ b) = a ++ [c] ++ b'.
Proof.
  intros Hc. unfold trimEnd.
  rewrite !rev_app_distr. simpl rev. rewrite <- app_assoc, dropWhile_app.
  destruct (forallb is_space (rev b)).
  - exists []. simpl. rewrite Hc. simpl.
    rewrite rev_involutive. reflexivity.
  - exists (rev (dropWhile is_space (rev b))).
    rewrite !rev_app_distr. simpl.
    rewrite rev_involutive, <- app_assoc. reflexivity.
Qed.

Lemma includes_app (a p b : str) : includes (a ++ p ++ b) p = true.
Proof.
  induction a as [|c a IH]; simpl.
  - assert (H : startsWith (p ++ b) p = true)
      by (apply startsWith_true; eauto).
    destruct (p ++ b); simpl; rewrite H; reflexivity.
  - rewrite IH. apply orb_true_r.
Qed.

(** ** The extension predicate *)

Lemma matches_token_spec (lang e : str) :
  matches_token lang e = true <->
  toLowerCase lang = e \/
  exists rest, toLowerCase lang = e ++ js "." ++ rest.
Proof.
  unfold matches_token.
  rewrite orb_true_iff, str_eqb_eq, startsWith_true.
  split; intros [H|[r H]]; auto; right; exists r;
    rewrite H, <- ?app_assoc; reflexivity.
Qed.

(** C6, as the code has it: a tag is supported exactly when its
    lower-cased form equals a configured token (trimmed, lower-cased) or
    begins with such a token followed by a dot.  The tag is the longer
    side: with [asp] configured the tags [asp] and [asp.variant] are
    supported, while the tag [asp] is supported neither by the
    configured token [asp.variant] nor by [aspx]. *)
Theorem isSupportedLanguage_dotted_prefix :
  (forall settings lang,
      isSupportedLanguage settings lang = true <->
      exists e, In e (extension_tokens settings) /\
                (toLowerCase lang = e \/
                 exists rest, toLowerCase lang = e ++ js "." ++ rest))
  /\ isSupportedLanguage (with_extensions "asp") (js "asp") = true
  /\ isSupportedLanguage (with_extensions "asp") (js "asp.variant") = true
  /\ isSupportedLanguage (with_extensions "asp.variant") (js "asp") = false
  /\ isSupportedLanguage (with_extensions "aspx") (js "asp") = false.
Proof.
  split; [|repeat split; reflexivity].
  intros settings lang. unfold isSupportedLanguage.
  rewrite existsb_exists.
  split; intros [e [Hin Hm]]; exists e; split; auto;
    apply matches_token_spec; assumption.
Qed.

(** C6, as stated, fails: the tag [asp] is not supported when the
    configured extension is [asp.variant]. *)
Lemma isSupportedLanguage_dotted_prefix_witness :
  isSupportedLanguage (with_extensions " Asp , dlv") (js "ASP.Variant") = true.
Proof.
  apply (proj1 isSupportedLanguage_dotted_prefix
           (with_extensions " Asp , dlv") (js "ASP.Variant")).
  exists (js "asp"). split; [simpl; auto|].
  right. exists (js "variant"). reflexivity.
Defined.

Lemma asp_not_supported_by_asp_variant :
  isSupportedLanguage (with_extensions "asp.variant") (js "asp") = false.
Proof. reflexivity. Qed.

(** C10: an empty token in the configured list (a trailing comma, as in
    [asp,]) makes the empty tag and every tag that begins with a dot
    supported. *)
Theorem isSupportedLanguage_empty_token settings lang :
  In [] (split ","%char (customExtensions settings)) ->
  lang = [] \/ (exists rest, lang = "."%char :: rest) ->
  isSupportedLanguage settings lang = true.
Proof.
  intros Hin Hlang. unfold isSupportedLanguage.
  apply existsb_exists. exists []. split.
  - unfold extension_tokens.
    change (@nil ascii) with (toLowerCase (trim [])).
    apply in_map with (f := fun e => toLowerCase (trim e)). exact Hin.
  - apply matches_token_spec.
    destruct Hlang as [->|[rest ->]]; [left; reflexivity|].
    right. exists (toLowerCase rest). reflexivity.
Qed.

Lemma isSupportedLanguage_empty_token_witness :
  In [] (split ","%char (customExtensions (with_extensions "asp,")))
  /\ isSupportedLanguage (with_extensions "asp,") (js ".hidden") = true
  /\ isSupportedLanguage (with_extensions "asp,") [] = true.
Proof.
  split; [simpl; auto|].
  split.
  - apply (isSupportedLanguage_empty_token (with_extensions "asp,"));
      [simpl; auto | right; eexists; reflexivity].
  - apply (isSupportedLanguage_empty_token (with_extensions "asp,"));
      [simpl; auto | left; reflexivity].
Defined.

(** ** The execution engine *)

Section EngineFacts.
Variable settings : DlvPluginSettings.
Variable host : Host.

Lemma cancel_time_signal signal a :
  cancel_time signal = Some a ->
  signal = Some {| abort_at := Some a |} /\ (0 <= a)%Z.
Proof.
  unfold cancel_time. destruct signal as [[[b|]]|]; try discriminate.
  destruct (0 <=? b)%Z eqn:E; [|discriminate].
  intros H. inversion H; subst. apply Z.leb_le in E. auto.
Qed.

Lemma await_exec_failures controller signal command st e st1 :
  await_exec settings host controller signal command st = (inl e, st1) ->
  e = AbortError
  \/ e = ErrorObj (js "Execution timeout")
  \/ outcome (exec host command) = inl e.
Proof.
  unfold await_exec.
  destruct (exec_settles signal (exec host command)) as [t cancelled].
  destruct (0 <? executionTimeout settings)%Z;
    [destruct (executionTimeout settings <? t)%Z|];
    destruct cancelled; intros H; inversion H; auto.
Qed.

(** Every way the [try] block can fail. *)
Lemma executeDlv_try_failures controller content lang signal st e st1 :
  let dlvPath := getDlvPath settings host in
  let tmpFile := tmpFile_of host lang in
  let child :=
    exec host (command_line dlvPath (build_args settings tmpFile)) in
  executeDlv_try settings host controller content lang signal st
  = (inl e, st1) ->
  fs_access host dlvPath = Some e
  \/ fs_mkdir host (os_tmpdir host) = Some e
  \/ fs_writeFile host tmpFile content = Some e
  \/ e = AbortError
  \/ e = ErrorObj (js "Execution timeout")
  \/ outcome child = inl e.
Proof.
  intros dlvPath tmpFile child.
  unfold executeDlv_try, bind, await_fs.
  fold dlvPath. unfold tmpFile_of in tmpFile. fold tmpFile.
  destruct (fs_access host dlvPath) as [e1|];
    [intros H; inversion H; auto|].
  destruct (fs_mkdir host (os_tmpdir host)) as [e2|];
    [intros H; inversion H; auto|].
  destruct (fs_writeFile host tmpFile content) as [e3|];
    [intros H; inversion H; auto|].
  match goal with
  | |- context [await_exec ?a ?b ?c ?d ?cmd ?s] =>
      destruct (await_exec a b c d cmd s) as [[e4|r] st4] eqn:E
  end.
  - intros H; inversion H; subst.
    apply await_exec_failures in E. fold child in E. tauto.
  - unfold swallow, ret.
    destruct (fs_unlink host tmpFile); intros H; inversion H.
Qed.

(** The run up to the spawn, when nothing fails before it. *)
Lemma executeDlv_try_reaches_exec controller content lang signal st :
  presteps_succeed settings host content lang ->
  let dlvPath := getDlvPath settings host in
  let tmpFile := tmpFile_of host lang in
  executeDlv_try settings host controller content lang signal st =
  (result <- await_exec settings host controller signal
               (command_line dlvPath (build_args settings tmpFile)) ;;
   swallow (await_fs (EvUnlink tmpFile) (fs_unlink host tmpFile)) ;;
   ret {| stdout := cleanOutput (stdout result);
          stderr := cleanErrors (stderr result) |})
    (log (EvWriteFile tmpFile content)
       (log (EvMkdir (os_tmpdir host))
          (log (EvAccess dlvPath) st))).
Proof.
  intros (Ha & Hm & Hw) dlvPath tmpFile. subst dlvPath tmpFile.
  unfold tmpFile_of in *.
  unfold executeDlv_try, bind, await_fs.
  rewrite Ha, Hm, Hw. reflexivity.
Qed.

(** The timer beats a child that runs longer, unless the caller
    cancels first. *)
Lemma await_exec_timeout controller signal command st :
  (0 < executionTimeout settings)%Z ->
  (executionTimeout settings < duration (exec host command))%Z ->
  (forall a, cancel_time signal = Some a ->
             (executionTimeout settings < a)%Z) ->
  await_exec settings host controller signal command st =
  (inl (ErrorObj (js "Execution timeout")),
   log (EvSetTimeout (executionTimeout settings))
     (spawn controller (log (EvExec command) st))).
Proof.
  intros HT Hd Ha. unfold await_exec.
  assert (Hs : exists t c, exec_settles signal (exec host command) = (t, c)
                           /\ (executionTimeout settings < t)%Z).
  { unfold exec_settles.
    destruct (cancel_time signal) as [a|] eqn:Ec; eauto.
    specialize (Ha a eq_refl).
    destruct (a <? duration (exec host command))%Z; eauto. }
  destruct Hs as (t & c & -> & Ht).
  apply Z.ltb_lt in HT, Ht. rewrite HT, Ht. reflexivity.
Qed.

(** The caller's cancellation beats a child and a timer that come
    later. *)
Lemma await_exec_cancelled controller signal command st a :
  cancel_time signal = Some a ->
  (a < duration (exec host command))%Z ->
  (executionTimeout settings <= 0 \/ a < executionTimeout settings)%Z ->
  await_exec settings host controller signal command st =
  (inl AbortError,
   abort (kill_ends_solver host) controller
     ((if (0 <? executionTimeout settings)%Z
       then log (EvSetTimeout (executionTimeout settings))
       else fun s => s)
        (spawn controller (log (EvExec command) st)))).
Proof.
  intros Hc Ha HT. unfold await_exec, exec_settles. rewrite Hc.
  apply Z.ltb_lt in Ha. rewrite Ha.
  destruct (0 <? executionTimeout settings)%Z eqn:E0; [|reflexivity].
  apply Z.ltb_lt in E0.
  assert (E1 : (executionTimeout settings <? a)%Z = false)
    by (apply Z.ltb_ge; lia).
  rewrite E1. reflexivity.
Qed.

(** The child's own end beats a cancellation and a timer that come
    later. *)
Lemma await_exec_exits controller signal command st :
  (forall a, cancel_time signal = Some a ->
             (duration (exec host command) < a)%Z) ->
  (executionTimeout settings <= 0
   \/ duration (exec host command) < executionTimeout settings)%Z ->
  await_exec settings host controller signal command st =
  (outcome (exec host command),
   reap controller
     ((if (0 <? executionTimeout settings)%Z
       then log (EvSetTimeout (executionTimeout settings))
       else fun s => s)
        (spawn controller (log (EvExec command) st)))).
Proof.
  intros Hc HT. unfold await_exec, exec_settles.
  assert (Hs : match cancel_time signal with
               | Some a =>
                   if (a <? duration (exec host command))%Z
                   then (a, true) else (duration (exec host command), false)
               | None => (duration (exec host command), false)
               end = (duration (exec host command), false)).
  { destruct (cancel_time signal) as [a|]; [|reflexivity].
    specialize (Hc a eq_refl).
    destruct (a <? duration (exec host command))%Z eqn:E; [|reflexivity].
    apply Z.ltb_lt in E. lia. }
  rewrite Hs.
  destruct (0 <? executionTimeout settings)%Z eqn:E0; [|reflexivity].
  apply Z.ltb_lt in E0.
  assert (E1 : (executionTimeout settings <? duration (exec host command))%Z
               = false) by (apply Z.ltb_ge; lia).
  rewrite E1. reflexivity.
Qed.

Lemma signal_aborted_abort b c st :
  signal_aborted c (abort b c st) = true.
Proof.
  unfold signal_aborted, abort.
  destruct b; simpl; rewrite existsb_app; simpl;
    rewrite Nat.eqb_refl; apply orb_true_r.
Qed.

(** C1: [executeDlv] never propagates an exception.  Whatever the
    configuration, the host and the inputs, it returns an object
    [{ stdout, stderr }].  Whatever the [try] block throws, the object
    has the empty [stdout] and the message chosen by the [catch]
    block.  In particular, in a run whose controller is new: when
    [fs.access], [fs.mkdir] or [fs.writeFile] rejects, or when the
    child fails (spawn error or non-zero exit) before any timer or
    cancellation, [stdout] is empty and [stderr] is the rejection's
    message, or [Unknown error] when a value that is not an [Error]
    was thrown; when the timer fires first [stderr] is
    [Execution timeout]; when the caller cancels first it is
    [Execution aborted].  The timeouts that lose a race are taken
    within the range of [setTimeout].  The [try] block throws nothing
    else. *)
Theorem executeDlv_never_throws content lang signal st :
  let dlvPath := getDlvPath settings host in
  let tmpFile := tmpFile_of host lang in
  let child := exec host (command_line dlvPath (build_args settings tmpFile)) in
  let T := executionTimeout settings in
  let text e :=
    match e with
    | ErrorObj message => message
    | NotAnError => js "Unknown error"
    end in
  exists r st',
    executeDlv settings host content lang signal st = (inr r, st')
    /\ (forall e st1,
           executeDlv_try settings host (fresh st) content lang signal
             (snd (register st))
           = (inl e, st1) ->
           stdout r = []
           /\ stderr r = errorMessage e (signal_aborted (fresh st) st1)
           /\ (fs_access host dlvPath = Some e
               \/ fs_mkdir host (os_tmpdir host) = Some e
               \/ fs_writeFile host tmpFile content = Some e
               \/ e = AbortError
               \/ e = ErrorObj (js "Execution timeout")
               \/ outcome child = inl e))
    /\ (signal_aborted (fresh st) st = false ->
        (forall e, fs_access host dlvPath = Some e ->
                   r = {| stdout := []; stderr := text e |})
        /\ (forall e, fs_access host dlvPath = None ->
                      fs_mkdir host (os_tmpdir host) = Some e ->
                      r = {| stdout := []; stderr := text e |})
        /\ (forall e, fs_access host dlvPath = None ->
                      fs_mkdir host (os_tmpdir host) = None ->
                      fs_writeFile host tmpFile content = Some e ->
                      r = {| stdout := []; stderr := text e |})
        /\ (forall e, presteps_succeed settings host content lang ->
                      outcome child = inl e ->
                      (forall a, cancel_time signal = Some a ->
                                 (duration child < a)%Z) ->
                      (T <= 0 \/ duration child < T <= 2147483647)%Z ->
                      r = {| stdout := []; stderr := text e |})
        /\ (presteps_succeed settings host content lang ->
            (0 < T)%Z -> (T < duration child)%Z ->
            (forall a, cancel_time signal = Some a -> (T < a)%Z) ->
            r = {| stdout := []; stderr := js "Execution timeout" |})
        /\ (forall a, presteps_succeed settings host content lang ->
                      cancel_time signal = Some a ->
                      (a < duration child)%Z ->
                      (T <= 0 \/ a < T <= 2147483647)%Z ->
                      r = {| stdout := []; stderr := js "Execution aborted" |})).
Proof.
  intros dlvPath tmpFile child T text.
  assert (Hresult :
    executeDlv settings host content lang signal st =
    match executeDlv_try settings host (fresh st) content lang signal
            (snd (register st)) with
    | (inr r, st1) => (inr r, unregister (fresh st) st1)
    | (inl e, st1) =>
        (inr {| stdout := [];
                stderr := errorMessage e (signal_aborted (fresh st) st1) |},
         unregister (fresh st) st1)
    end).
  { unfold executeDlv, try_catch_finally, register. simpl snd.
    match goal with
    | |- context [executeDlv_try ?a ?b ?c ?d ?f ?g ?h] =>
        destruct (executeDlv_try a b c d f g h) as [[e|r] st1]
    end; reflexivity. }
  rewrite Hresult. clear Hresult.
  destruct (executeDlv_try settings host (fresh st) content lang signal
              (snd (register st))) as [[e0|r0] st0] eqn:E;
    (eexists; eexists; split; [reflexivity|]);
    (split;
     [intros e st1 H; inversion H; subst;
      repeat split; try reflexivity;
      exact (executeDlv_try_failures _ _ _ _ _ _ _ E)|]);
    intros Hfresh.
  all: repeat split.
  (* fs.access *)
  1, 7: intros e Ha; revert E;
    unfold executeDlv_try, bind, await_fs; fold dlvPath; rewrite Ha;
    intros E; inversion E; subst;
    unfold signal_aborted in *; simpl; rewrite Hfresh;
    match goal with |- context [errorMessage ?x _] => destruct x end;
    reflexivity.
  (* fs.mkdir *)
  1, 6: intros e Ha Hm; revert E;
    unfold executeDlv_try, bind, await_fs; fold dlvPath; rewrite Ha, Hm;
    intros E; inversion E; subst;
    unfold signal_aborted in *; simpl; rewrite Hfresh;
    match goal with |- context [errorMessage ?x _] => destruct x end;
    reflexivity.
  (* fs.writeFile *)
  1, 5: intros e Ha Hm Hw; revert E;
    unfold executeDlv_try, bind, await_fs; fold dlvPath;
    rewrite Ha, Hm; fold (tmpFile_of host lang); fold tmpFile; rewrite Hw;
    intros E; inversion E; subst;
    unfold signal_aborted in *; simpl; rewrite Hfresh;
    match goal with |- context [errorMessage ?x _] => destruct x end;
    reflexivity.
  (* the child fails *)
  1, 4: intros e Hpre Hout Hc HT';
    assert (HT : (T <= 0 \/ duration child < T)%Z) by lia;
    rewrite (executeDlv_try_reaches_exec _ _ _ _ _ Hpre) in E;
    cbv zeta in E; unfold bind at 1 in E;
    fold dlvPath tmpFile in E;
    rewrite (await_exec_exits _ _ _ _ Hc HT) in E;
    fold child in E; rewrite Hout in E;
    inversion E; subst;
    unfold signal_aborted, reap; simpl;
    destruct (0 <? executionTimeout settings)%Z; simpl;
    unfold signal_aborted in Hfresh; rewrite Hfresh;
    match goal with |- context [errorMessage ?x _] => destruct x end;
    reflexivity.
  (* the timer *)
  1, 3: intros Hpre HT Hd Hc;
    rewrite (executeDlv_try_reaches_exec _ _ _ _ _ Hpre) in E;
    cbv zeta in E; unfold bind at 1 in E;
    fold dlvPath tmpFile in E;
    rewrite (await_exec_timeout _ _ _ _ HT Hd Hc) in E;
    inversion E; subst;
    unfold signal_aborted; simpl;
    unfold signal_aborted in Hfresh; rewrite Hfresh; reflexivity.
  (* the cancellation *)
  all: intros a Hpre Hc Ha HT';
    assert (HT : (T <= 0 \/ a < T)%Z) by lia;
    rewrite (executeDlv_try_reaches_exec _ _ _ _ _ Hpre) in E;
    cbv zeta in E; unfold bind at 1 in E;
    fold dlvPath tmpFile in E;
    rewrite (await_exec_cancelled _ _ _ _ _ Hc Ha HT) in E;
    inversion E; subst;
    rewrite signal_aborted_abort; reflexivity.
Qed.


End EngineFacts.

Lemma executeDlv_never_throws_witness :
  fst (executeDlv DEFAULT_SETTINGS
         (host_without_solver 1730000000000 quick_solver)
         program (js "asp") None initial)
  = inr {| stdout := [];
           stderr := js "ENOENT: no such file or directory" |}
  /\ fst (executeDlv DEFAULT_SETTINGS
            (posix_host 1730000000000 failing_solver)
            program (js "asp") None initial)
     = inr {| stdout := []; stderr := js "Command failed: dlv" |}
  /\ fst (executeDlv (with_timeout 5000)
            (posix_host 1730000000000 slow_solver)
            program (js "asp") None initial)
     = inr {| stdout := []; stderr := js "Execution timeout" |}
  /\ fst (executeDlv (with_timeout 5000)
            (posix_host 1730000000000 slow_solver)
            program (js "asp") (Some {| abort_at := Some 100%Z |}) initial)
     = inr {| stdout := []; stderr := js "Execution aborted" |}.
Proof.
  split; [|split; [|split]].
  - destruct (executeDlv_never_throws DEFAULT_SETTINGS
                (host_without_solver 1730000000000 quick_solver)
                program (js "asp") None initial)
      as (r & st' & Hrun & _ & Hkinds).
    destruct (Hkinds eq_refl) as (Haccess & _).
    rewrite Hrun. simpl fst. f_equal.
    exact (Haccess (ErrorObj (js "ENOENT: no such file or directory"))
             eq_refl).
  - destruct (executeDlv_never_throws DEFAULT_SETTINGS
                (posix_host 1730000000000 failing_solver)
                program (js "asp") None initial)
      as (r & st' & Hrun & _ & Hkinds).
    destruct (Hkinds eq_refl) as (_ & _ & _ & Hchild & _).
    rewrite Hrun. simpl fst. f_equal.
    apply (Hchild (ErrorObj (js "Command failed: dlv"))).
    + repeat split.
    + reflexivity.
    + intros a H. discriminate H.
    + left. discriminate.
  - destruct (executeDlv_never_throws (with_timeout 5000)
                (posix_host 1730000000000 slow_solver)
                program (js "asp") None initial)
      as (r & st' & Hrun & _ & Hkinds).
    destruct (Hkinds eq_refl) as (_ & _ & _ & _ & Htimer & _).
    rewrite Hrun. simpl fst. f_equal.
    apply Htimer.
    + repeat split.
    + reflexivity.
    + reflexivity.
    + intros a H. discriminate H.
  - destruct (executeDlv_never_throws (with_timeout 5000)
                (posix_host 1730000000000 slow_solver)
                program (js "asp") (Some {| abort_at := Some 100%Z |})
                initial)
      as (r & st' & Hrun & _ & Hkinds).
    destruct (Hkinds eq_refl) as (_ & _ & _ & _ & _ & Hcancel).
    rewrite Hrun. simpl fst. f_equal.
    apply (Hcancel 100%Z).
    + repeat split.
    + reflexivity.
    + reflexivity.
    + right. split; [reflexivity|discriminate].
Defined.

(** C2, as the code has it: with [executionTimeout = T > 0], a child
    that runs longer than [T] and no cancellation up to [T], the run
    that got as far as the spawn returns the empty [stdout] and the
    [stderr] text [Execution timeout]; the returned object has the two
    properties [stdout] and [stderr] and no [aborted] one. *)
Theorem executeDlv_timeout_result settings host content lang signal st :
  presteps_succeed settings host content lang ->
  (0 < executionTimeout settings)%Z ->
  (executionTimeout settings
   < duration (exec host (command_line (getDlvPath settings host)
                            (build_args settings (tmpFile_of host lang)))))%Z ->
  (forall a, signal = Some {| abort_at := Some a |} ->
             (executionTimeout settings < a)%Z) ->
  signal_aborted (fresh st) st = false ->
  exists r st',
    executeDlv settings host content lang signal st = (inr r, st')
    /\ stdout r = []
    /\ stderr r = js "Execution timeout"
    /\ get_property r "aborted" = None.
Proof.
  intros Hpre HT Hd Ha Hfresh.
  unfold executeDlv, try_catch_finally, register.
  rewrite (executeDlv_try_reaches_exec _ _ _ _ _ _ _ Hpre).
  cbv zeta. unfold bind at 1.
  rewrite (await_exec_timeout _ _ _ _ _ _ HT Hd
             (fun a Hc => Ha a (proj1 (cancel_time_signal _ _ Hc)))).
  unfold executeDlv_catch, ret.
  eexists. eexists. split; [reflexivity|].
  simpl stdout. simpl stderr.
  split; [reflexivity|]. split; [|reflexivity].
  unfold errorMessage.
  replace (signal_aborted (fresh st) _) with (signal_aborted (fresh st) st)
    by reflexivity.
  rewrite Hfresh. reflexivity.
Qed.

Lemma executeDlv_timeout_result_witness :
  exists r st',
    executeDlv (with_timeout 5000) (posix_host 1730000000000 slow_solver)
      program (js "asp") None initial = (inr r, st')
    /\ stdout r = []
    /\ stderr r = js "Execution timeout"
    /\ get_property r "aborted" = None.
Proof.
  apply (executeDlv_timeout_result (with_timeout 5000)
           (posix_host 1730000000000 slow_solver) program (js "asp")
           None initial).
  - repeat split.
  - reflexivity.
  - reflexivity.
  - intros a H. discriminate H.
  - reflexivity.
Defined.

(** C2, as stated, fails: in a run that times out the returned object
    has no [aborted] property, the controller is not aborted and the
    child is still running when [executeDlv] returns. *)
Lemma timeout_sets_no_flag_and_kills_nothing :
  exists r st',
    executeDlv (with_timeout 5000) (posix_host 1730000000000 slow_solver)
      program (js "asp") None initial = (inr r, st')
    /\ (0 < executionTimeout (with_timeout 5000))%Z
    /\ (executionTimeout (with_timeout 5000) < duration slow_solver)%Z
    /\ stderr r = js "Execution timeout"
    /\ get_property r "aborted" <> Some (JsBoolean true)
    /\ signal_aborted 0 st' = false
    /\ child_running 0 st' = true.
Proof.
  eexists. eexists. split; [vm_compute; reflexivity|].
  repeat split; try reflexivity. discriminate.
Qed.

Section EngineTrace.
Variable settings : DlvPluginSettings.
Variable host : Host.

Lemma await_exec_trace controller signal command st :
  trace (snd (await_exec settings host controller signal command st)) =
  trace st ++ EvExec command
    :: (if (0 <? executionTimeout settings)%Z
        then [EvSetTimeout (executionTimeout settings)] else []).
Proof.
  unfold await_exec.
  destruct (exec_settles signal (exec host command)) as [t cancelled].
  destruct (0 <? executionTimeout settings)%Z;
    [destruct (executionTimeout settings <? t)%Z|];
    destruct cancelled; unfold abort; try destruct (kill_ends_solver host);
    simpl; rewrite <- ?app_assoc; reflexivity.
Qed.

(** The effects of one run that gets as far as the spawn:
    [fs.unlink] is reached only when the awaited promise is
    fulfilled. *)
Lemma executeDlv_trace content lang signal st :
  presteps_succeed settings host content lang ->
  let dlvPath := getDlvPath settings host in
  let tmpFile := tmpFile_of host lang in
  let command := command_line dlvPath (build_args settings tmpFile) in
  let st0 := log (EvWriteFile tmpFile content)
               (log (EvMkdir (os_tmpdir host))
                  (log (EvAccess dlvPath) (snd (register st)))) in
  trace (snd (executeDlv settings host content lang signal st)) =
  trace st
  ++ [EvAccess dlvPath; EvMkdir (os_tmpdir host);
      EvWriteFile tmpFile content; EvExec command]
  ++ (if (0 <? executionTimeout settings)%Z
      then [EvSetTimeout (executionTimeout settings)] else [])
  ++ match fst (await_exec settings host (fresh st) signal command st0) with
     | inr _ => [EvUnlink tmpFile]
     | inl _ => []
     end.
Proof.
  intros Hpre dlvPath tmpFile command st0.
  unfold executeDlv, try_catch_finally, register.
  rewrite (executeDlv_try_reaches_exec _ _ _ _ _ _ _ Hpre).
  cbv zeta. fold dlvPath tmpFile command. unfold bind at 1.
  change (log (EvWriteFile tmpFile content) _) with st0.
  pose proof (await_exec_trace (fresh st) signal command st0) as Ht.
  destruct (await_exec settings host (fresh st) signal command st0)
    as [[e|r] st1]; simpl fst; simpl snd in Ht.
  - unfold executeDlv_catch, ret. simpl. rewrite Ht. simpl.
    rewrite <- ?app_assoc. simpl. rewrite app_nil_r. reflexivity.
  - unfold bind, swallow, await_fs, ret.
    destruct (fs_unlink host tmpFile); simpl; rewrite Ht; simpl;
      rewrite <- ?app_assoc; simpl; rewrite <- ?app_assoc; reflexivity.
Qed.

(** A run whose awaited promise rejects ends without [fs.unlink]. *)
Lemma executeDlv_rejected_effects content lang signal st e :
  presteps_succeed settings host content lang ->
  let dlvPath := getDlvPath settings host in
  let tmpFile := tmpFile_of host lang in
  let command := command_line dlvPath (build_args settings tmpFile) in
  let st0 := log (EvWriteFile tmpFile content)
               (log (EvMkdir (os_tmpdir host))
                  (log (EvAccess dlvPath) (snd (register st)))) in
  fst (await_exec settings host (fresh st) signal command st0) = inl e ->
  trace (snd (executeDlv settings host content lang signal st)) =
  trace st
  ++ [EvAccess dlvPath; EvMkdir (os_tmpdir host);
      EvWriteFile tmpFile content; EvExec command]
  ++ (if (0 <? executionTimeout settings)%Z
      then [EvSetTimeout (executionTimeout settings)] else []).
Proof.
  intros Hpre dlvPath tmpFile command st0 Hrej.
  rewrite (executeDlv_trace content lang signal st Hpre). cbv zeta.
  fold dlvPath tmpFile command st0. rewrite Hrej.
  rewrite app_nil_r. reflexivity.
Qed.

Lemma build_args_closed tmpFile :
  build_args settings tmpFile =
  [tmpFile]
  ++ (if showAllModels settings then [js "-n"; js "0"] else [])
  ++ (if hideFacts settings then [js "--no-facts"] else []).
Proof.
  unfold build_args, push.
  destruct (showAllModels settings), (hideFacts settings); reflexivity.
Qed.
End EngineTrace.

(** C9: the argument list is the temporary file's path, then [-n] and
    [0] exactly when [showAllModels] is set, then [--no-facts] exactly
    when [hideFacts] is set, and nothing else; the command started by a
    run that reaches the spawn is the quoted executable followed by
    these arguments, each quoted, in this order. *)
Theorem executeDlv_argument_list settings host content lang signal st :
  presteps_succeed settings host content lang ->
  let tmpFile := tmpFile_of host lang in
  let args :=
    [tmpFile]
    ++ (if showAllModels settings then [js "-n"; js "0"] else [])
    ++ (if hideFacts settings then [js "--no-facts"] else []) in
  build_args settings tmpFile = args
  /\ In (EvExec (command_line (getDlvPath settings host) args))
        (trace (snd (executeDlv settings host content lang signal st)))
  /\ (forall command,
         In (EvExec command)
            (trace (snd (executeDlv settings host content lang signal st))) ->
         In (EvExec command) (trace st)
         \/ command = command_line (getDlvPath settings host) args).
Proof.
  intros Hpre tmpFile args.
  assert (Hargs : build_args settings tmpFile = args)
    by apply build_args_closed.
  split; [exact Hargs|].
  rewrite (executeDlv_trace _ _ _ _ _ _ Hpre). cbv zeta.
  fold tmpFile. rewrite Hargs.
  split.
  - apply in_or_app. right. simpl. auto.
  - intros command Hin.
    apply in_app_or in Hin. destruct Hin as [Hin|Hin]; [left; exact Hin|].
    right.
    apply in_app_or in Hin. destruct Hin as [Hin|Hin].
    + simpl in Hin.
      destruct Hin as [H|[H|[H|[H|[]]]]]; inversion H. reflexivity.
    + apply in_app_or in Hin. destruct Hin as [Hin|Hin].
      * destruct (0 <? executionTimeout settings)%Z; simpl in Hin;
          [destruct Hin as [H|[]]; discriminate H | destruct Hin].
      * destruct (fst _); simpl in Hin;
          [destruct Hin | destruct Hin as [H|[]]; discriminate H].
Qed.

Lemma executeDlv_argument_list_witness :
  presteps_succeed (with_flags true true)
    (posix_host 1730000000000 quick_solver) program (js "asp")
  /\ build_args (with_flags true true) (js "/tmp/dlv-temp-1730000000000.asp")
     = [js "/tmp/dlv-temp-1730000000000.asp"; js "-n"; js "0";
        js "--no-facts"].
Proof.
  assert (Hpre : presteps_succeed (with_flags true true)
                   (posix_host 1730000000000 quick_solver) program (js "asp"))
    by (repeat split).
  split; [exact Hpre|].
  exact (proj1 (executeDlv_argument_list (with_flags true true)
                  (posix_host 1730000000000 quick_solver) program (js "asp")
                  None initial Hpre)).
Defined.

(** C4, the code at its failing inputs: when the child exits with a
    non-zero status, when the timer fires and when the caller cancels,
    the temporary file has been written and [fs.unlink] is never
    called for it; only the run whose child succeeds unlinks it. *)
Theorem executeDlv_unlinks_only_on_success :
  let tmp := js "/tmp/dlv-temp-1730000000000.asp" in
  let effects settings child signal :=
    trace (snd (executeDlv settings (posix_host 1730000000000 child)
                  program (js "asp") signal initial)) in
  (In (EvWriteFile tmp program) (effects DEFAULT_SETTINGS failing_solver None)
   /\ ~ In (EvUnlink tmp) (effects DEFAULT_SETTINGS failing_solver None))
  /\ (In (EvWriteFile tmp program) (effects (with_timeout 5000) slow_solver None)
      /\ ~ In (EvUnlink tmp) (effects (with_timeout 5000) slow_solver None))
  /\ (In (EvWriteFile tmp program)
         (effects DEFAULT_SETTINGS slow_solver
            (Some {| abort_at := Some 100%Z |}))
      /\ ~ In (EvUnlink tmp)
             (effects DEFAULT_SETTINGS slow_solver
                (Some {| abort_at := Some 100%Z |})))
  /\ In (EvUnlink tmp) (effects DEFAULT_SETTINGS quick_solver None).
Proof.
  cbv zeta.
  repeat split;
    try (vm_compute; tauto);
    vm_compute; intros H;
    repeat (destruct H as [H|H]; [discriminate H|]); exact H.
Qed.

(** ** Temporary file names *)

Lemma string_of_uint_digits (d : Decimal.uint) :
  Forall (fun c => c <> "."%char)
         (list_ascii_of_string (NilEmpty.string_of_uint d)).
Proof.
  induction d; simpl; constructor; try assumption; discriminate.
Qed.

Lemma string_of_Z_no_dot (z : Z) :
  Forall (fun c => c <> "."%char) (string_of_Z z).
Proof.
  unfold string_of_Z, js, NilEmpty.string_of_int.
  destruct (Z.to_int z); simpl.
  - apply string_of_uint_digits.
  - constructor; [discriminate | apply string_of_uint_digits].
Qed.

Lemma string_of_Z_inj (a b : Z) : string_of_Z a = string_of_Z b -> a = b.
Proof.
  unfold string_of_Z, js. intros H.
  apply (f_equal string_of_list_ascii) in H.
  rewrite !string_of_list_ascii_of_string in H.
  apply (f_equal NilEmpty.int_of_string) in H.
  rewrite !NilEmpty.isi in H.
  apply DecimalZ.to_int_inj.
  congruence.
Qed.

(** Two texts cut at their first dot. *)
Lemma split_at_first_dot (a b x y : str) :
  Forall (fun c => c <> "."%char) a ->
  Forall (fun c => c <> "."%char) b ->
  a ++ "."%char :: x = b ++ "."%char :: y ->
  a = b /\ x = y.
Proof.
  intros Ha. revert b.
  induction Ha as [|c a Hc Ha IH]; intros b Hb H.
  - destruct Hb as [|d b Hd Hb]; simpl in H.
    + inversion H. auto.
    + inversion H. congruence.
  - destruct Hb as [|d b Hd Hb]; simpl in H.
    + inversion H. congruence.
    + inversion H. subst d.
      destruct (IH b Hb H2) as [-> ->]. auto.
Qed.

(** C8, as the code has it: the name of the temporary file is
    [dlv-temp-<Date.now()>.<lang>], so two executions get the same name
    exactly when they read the same millisecond and have the same
    language tag; names differ as soon as the clock readings or the
    tags differ. *)
Theorem tmpName_injective (now1 now2 : Z) (lang1 lang2 : str) :
  tmpName now1 lang1 = tmpName now2 lang2 <-> now1 = now2 /\ lang1 = lang2.
Proof.
  split; [|intros [-> ->]; reflexivity].
  unfold tmpName. intros H.
  apply app_inv_head in H.
  change (js "." ++ lang1) with ("."%char :: lang1) in H.
  change (js "." ++ lang2) with ("."%char :: lang2) in H.
  apply split_at_first_dot in H; try apply string_of_Z_no_dot.
  destruct H as [H ->]. apply string_of_Z_inj in H. auto.
Qed.

Lemma tmpName_injective_witness :
  tmpName 1730000000000 (js "asp") <> tmpName 1730000000001 (js "asp").
Proof.
  intros H.
  apply (proj1 (tmpName_injective 1730000000000 1730000000001
                  (js "asp") (js "asp"))) in H.
  destruct H as [H _]. discriminate H.
Defined.

(** C8, as stated, fails: two executions of different programs that
    read the same millisecond write to one and the same path, the
    second while the first is still waiting for its solver. *)
Lemma same_millisecond_same_temporary_file :
  let tmp := js "/tmp/dlv-temp-1730000000000.asp" in
  let first := executeDlv DEFAULT_SETTINGS
                 (posix_host 1730000000000 slow_solver)
                 (js "a.") (js "asp") None initial in
  let second := executeDlv DEFAULT_SETTINGS
                  (posix_host 1730000000000 quick_solver)
                  (js "b.") (js "asp") None initial in
  js "a." <> js "b."
  /\ In (EvWriteFile tmp (js "a.")) (trace (snd first))
  /\ In (EvWriteFile tmp (js "b.")) (trace (snd second)).
Proof.
  cbv zeta. split; [discriminate|].
  split; vm_compute; tauto.
Qed.

(** ** The result sinks *)

Lemma hasContent_true (s : str) : hasContent s = true <-> trim s <> [].
Proof.
  unfold hasContent. destruct (trim s); unfold Nat.ltb; simpl;
    split; congruence.
Qed.

Lemma hasContent_false (s : str) : hasContent s = false <-> trim s = [].
Proof.
  unfold hasContent. destruct (trim s); unfold Nat.ltb; simpl;
    split; congruence.
Qed.

Lemma truthy_true (s : str) : truthy s = true <-> s <> [].
Proof. destruct s; simpl; split; congruence. Qed.

Lemma shown_when (flag : bool) (out : str) :
  flag || negb (hasContent out) = true <-> flag = true \/ trim out = [].
Proof.
  rewrite orb_true_iff, negb_true_iff, hasContent_false. reflexivity.
Qed.

Lemma display_rule settings result :
  errorEl (updateOutputUI settings result) <> None <->
  trim (stderr result) <> []
  /\ (showErrors settings = true \/ trim (stdout result) = []).
Proof.
  unfold updateOutputUI. simpl errorEl. unfold display_shows_errors.
  cbv zeta.
  rewrite <- (hasContent_true (stderr result)), <- shown_when.
  destruct (showErrors settings || negb (hasContent (stdout result)));
    destruct (hasContent (stderr result)); simpl.
  all: split.
  all: try (intros [H1 H2]; congruence).
  all: intros H; try (split; reflexivity); exfalso; apply H; reflexivity.
Qed.

Lemma append_rule settings result :
  errore_section settings result <> [] <->
  stderr result <> []
  /\ (showErrors settings = true \/ trim (stdout result) = []).
Proof.
  unfold errore_section, append_shows_errors. cbv zeta.
  rewrite <- (truthy_true (stderr result)), <- shown_when.
  destruct (showErrors settings || negb (hasContent (stdout result)));
    destruct (truthy (stderr result)); simpl.
  all: split.
  all: try (intros [H1 H2]; congruence).
  all: intros H; try (split; reflexivity); exfalso; apply H; reflexivity.
Qed.

Lemma append_of_bare_error settings result timestamp data :
  stdout result = [] -> stderr result <> [] ->
  exists rest,
    saveExecutionResult settings timestamp result (Some data) =
    Some (data ++ [LF; LF] ++ js "% " ++ timestamp ++ [LF; LF]
               ++ js "% Errore" ++ rest).
Proof.
  intros Hout Herr.
  unfold saveExecutionResult, save_content, answer_section,
    errore_section, append_shows_errors. cbv zeta.
  rewrite Hout. change (hasContent []) with false.
  rewrite orb_true_r. apply truthy_true in Herr. rewrite Herr.
  simpl andb. cbv iota. rewrite app_nil_r.
  unfold trim, trimStart.
  change (dropWhile is_space
            ((js "% " ++ timestamp ++ [LF]) ++
             [LF] ++ js "% Errore" ++ [LF] ++ comment_lines (stderr result)))
    with ((js "% " ++ timestamp ++ [LF]) ++
          [LF] ++ js "% Errore" ++ [LF] ++ comment_lines (stderr result)).
  destruct (trimEnd_keeps
              (js "% " ++ timestamp ++ [LF; LF] ++ js "% Error")
              "e"%char ([LF] ++ comment_lines (stderr result)) eq_refl)
    as [b' Hb'].
  exists b'. f_equal. f_equal. f_equal.
  transitivity (trimEnd ((js "% " ++ timestamp ++ [LF; LF] ++ js "% Error")
                         ++ ["e"%char] ++ [LF]
                         ++ comment_lines (stderr result))).
  - f_equal. rewrite <- !app_assoc. reflexivity.
  - rewrite Hb'. rewrite <- !app_assoc. reflexivity.
Qed.

(** C5, as the code has it: the transient display appends the error
    element exactly when [stderr] has a non-whitespace character and
    ([showErrors] is set or [stdout] is blank); the durable append adds
    the [% Errore] section exactly when [stderr] is not the empty
    string and ([showErrors] is set or [stdout] is blank).  On a
    result whose two fields are trimmed, as the sanitizer returns
    them, both tests are the one rule: [stderr] is not empty and
    ([showErrors] is set or [stdout] is empty).  In particular a
    result with the empty [stdout] and a non-empty [stderr] is
    appended with its [% Errore] section right after the timestamp
    line, whatever [showErrors] is. *)
Theorem sinks_error_rule settings result :
  (errorEl (updateOutputUI settings result) <> None <->
   trim (stderr result) <> []
   /\ (showErrors settings = true \/ trim (stdout result) = []))
  /\ (errore_section settings result <> [] <->
      stderr result <> []
      /\ (showErrors settings = true \/ trim (stdout result) = []))
  /\ (trim (stdout result) = stdout result ->
      trim (stderr result) = stderr result ->
      let rule := stderr result <> []
                  /\ (showErrors settings = true \/ stdout result = []) in
      (errorEl (updateOutputUI settings result) <> None <-> rule)
      /\ (errore_section settings result <> [] <-> rule))
  /\ (stdout result = [] -> stderr result <> [] ->
      forall timestamp data, exists rest,
        saveExecutionResult settings timestamp result (Some data) =
        Some (data ++ [LF; LF] ++ js "% " ++ timestamp ++ [LF; LF]
                   ++ js "% Errore" ++ rest)).
Proof.
  pose proof (display_rule settings result) as Hdisplay.
  pose proof (append_rule settings result) as Happend.
  split; [exact Hdisplay|]. split; [exact Happend|]. split.
  - intros Ho He. cbv zeta. rewrite Ho, He in Hdisplay.
    rewrite Ho in Happend. split; assumption.
  - intros Hout Herr timestamp data.
    apply append_of_bare_error; assumption.
Qed.

Lemma sinks_error_rule_witness :
  let result := {| stdout := [];
                   stderr := js "Errore:" ++ [LF] ++ js "line 3 syntax error" |} in
  showErrors DEFAULT_SETTINGS = false
  /\ stdout result = []
  /\ stderr result <> []
  /\ exists rest,
      saveExecutionResult DEFAULT_SETTINGS (js "2/11/2026, 10:00:00")
        result (Some (js "a :- b."))
      = Some (js "a :- b." ++ [LF; LF] ++ js "% "
                 ++ js "2/11/2026, 10:00:00" ++ [LF; LF]
                 ++ js "% Errore" ++ rest).
Proof.
  cbv zeta. split; [reflexivity|]. split; [reflexivity|].
  split; [discriminate|].
  apply (proj2 (proj2 (proj2 (sinks_error_rule DEFAULT_SETTINGS
                         {| stdout := [];
                            stderr := js "Errore:" ++ [LF]
                                      ++ js "line 3 syntax error" |})))).
  - reflexivity.
  - discriminate.
Defined.

(** C5, as stated, fails: for a whitespace-only [stderr] and the empty
    [stdout] the two sinks disagree (the display shows no error
    element, the append adds [% Errore]); and a whitespace-only
    [stdout] counts as no output, so [stderr] is shown although
    [stdout] is not empty and [showErrors] is off. *)
Lemma sinks_disagree_on_blank_stderr :
  let blank_err := {| stdout := []; stderr := js " " |} in
  let blank_out := {| stdout := js " "; stderr := js "line 3" |} in
  stderr blank_err <> []
  /\ errorEl (updateOutputUI DEFAULT_SETTINGS blank_err) = None
  /\ errore_section DEFAULT_SETTINGS blank_err
     = [LF] ++ js "% Errore" ++ [LF] ++ js "%  "
  /\ stdout blank_out <> []
  /\ showErrors DEFAULT_SETTINGS = false
  /\ errorEl (updateOutputUI DEFAULT_SETTINGS blank_out) <> None
  /\ errore_section DEFAULT_SETTINGS blank_out <> [].
Proof.
  cbv zeta. repeat split; try reflexivity; try discriminate.
Qed.

(** ** The sanitizer *)

Section ReplaceFacts.
Variable m : str -> option nat.
Variable rep : str -> str.

Lemma replace_from_skip (a b : str) :
  replace_from m rep (List.length a) (a ++ b) = replace_from m rep 0 b.
Proof.
  induction a as [|c a IH]; simpl; [reflexivity|exact IH].
Qed.

Lemma replace_all_no_match (s : str) :
  test m s = false -> replace_all m rep s = s.
Proof.
  unfold replace_all.
  induction s as [|c s IH]; simpl; [reflexivity|].
  destruct (m (c :: s)); [discriminate|].
  intros H. rewrite (IH H). reflexivity.
Qed.

Lemma test_suffix (a b : str) : test m b = true -> test m (a ++ b) = true.
Proof.
  intros H. induction a as [|c a IH]; simpl; [exact H|].
  destruct (m (c :: a ++ b)); [reflexivity|exact IH].
Qed.
End ReplaceFacts.

Lemma split_no_sep (sep : ascii) (s : str) :
  forallb (fun c => negb (Ascii.eqb c sep)) s = true -> split sep s = [s].
Proof.
  induction s as [|c s IH]; simpl; [reflexivity|].
  rewrite andb_true_iff, negb_true_iff. intros [Hc Hs].
  rewrite Hc, (IH Hs). reflexivity.
Qed.

Lemma non_space_not_LF (tok : str) :
  forallb non_space tok = true ->
  forallb (fun c => negb (Ascii.eqb c LF)) tok = true.
Proof.
  induction tok as [|c tok IH]; simpl; [reflexivity|].
  rewrite !andb_true_iff. intros [Hc Ht]. split; [|exact (IH Ht)].
  destruct (Ascii.eqb c LF) eqn:E; [|reflexivity].
  apply Ascii.eqb_eq in E. subst c. discriminate Hc.
Qed.

Lemma nonspace_run_token (k : nat) (tok rest : str) :
  tok <> [] ->
  forallb non_space tok = true ->
  match rest with c :: _ => non_space c = false | [] => True end ->
  nonspace_run k (tok ++ rest) = Some (k + List.length tok).
Proof.
  intros Hne Htok Hrest. unfold nonspace_run.
  rewrite takeWhile_app, Htok.
  assert (Hr : takeWhile non_space rest = []).
  { destruct rest as [|c r]; simpl; [reflexivity|]. rewrite Hrest. reflexivity. }
  rewrite Hr, app_nil_r.
  destruct tok; [congruence|reflexivity].
Qed.

Lemma erase_rooted_token (tok rest : str) :
  tok <> [] ->
  forallb non_space tok = true ->
  match rest with c :: _ => non_space c = false | [] => True end ->
  replace_all m_path erase (js "/" ++ tok ++ rest)
  = replace_all m_path erase rest.
Proof.
  intros Hne Htok Hrest. unfold replace_all.
  change (js "/" ++ tok ++ rest) with ("/"%char :: tok ++ rest).
  cbn [replace_from].
  assert (Hm : m_path ("/"%char :: tok ++ rest) = Some (S (List.length tok))).
  { unfold m_path, m_drive_path, m_rooted_path, lit. simpl.
    rewrite (nonspace_run_token 1 tok rest Hne Htok Hrest). reflexivity. }
  rewrite Hm. unfold erase at 1. simpl app.
  apply replace_from_skip.
Qed.

Lemma erase_drive_token (d : ascii) (tok rest : str) :
  is_alpha d = true ->
  tok <> [] ->
  forallb non_space tok = true ->
  match rest with c :: _ => non_space c = false | [] => True end ->
  replace_all m_path erase (d :: js ":\" ++ tok ++ rest)
  = replace_all m_path erase rest.
Proof.
  intros Hd Hne Htok Hrest. unfold replace_all.
  change (d :: js ":\" ++ tok ++ rest)
    with (d :: ":"%char :: "\"%char :: tok ++ rest).
  cbn [replace_from].
  assert (Hm : m_path (d :: ":"%char :: "\"%char :: tok ++ rest)
               = Some (S (S (S (List.length tok))))).
  { unfold m_path, m_drive_path, lit. rewrite Hd. simpl.
    rewrite (nonspace_run_token 3 tok rest Hne Htok Hrest). reflexivity. }
  rewrite Hm. unfold erase at 1. simpl app.
  apply replace_from_skip.
Qed.

Lemma split_single_line (head tok : str) :
  forallb (fun c => negb (Ascii.eqb c LF)) head = true ->
  forallb non_space tok = true ->
  split LF (head ++ tok ++ js " line 3: syntax error")
  = [head ++ tok ++ js " line 3: syntax error"].
Proof.
  intros Hh Htok. apply split_no_sep.
  rewrite !forallb_app, Hh, (non_space_not_LF tok Htok). reflexivity.
Qed.

(** A rooted path token in front of the message is removed with
    everything up to the next whitespace. *)
Lemma cleanErrors_path_token_line3 (tok : str) :
  tok <> [] ->
  forallb non_space tok = true ->
  cleanErrors (js "/" ++ tok ++ js " line 3: syntax error")
  = js "Errore:" ++ [LF] ++ js "line 3 syntax error"
  /\ forall d, is_alpha d = true ->
       cleanErrors (d :: js ":\" ++ tok ++ js " line 3: syntax error")
       = js "Errore:" ++ [LF] ++ js "line 3 syntax error".
Proof.
  intros Hne Htok. split; [|intros d Hd]; unfold cleanErrors.
  - rewrite (split_single_line (js "/") tok eq_refl Htok).
    cbn [map]. unfold clean_line.
    rewrite (erase_rooted_token tok (js " line 3: syntax error")
               Hne Htok eq_refl).
    reflexivity.
  - change (d :: js ":\" ++ tok ++ js " line 3: syntax error")
      with ((d :: js ":\") ++ tok ++ js " line 3: syntax error").
    rewrite (split_single_line (d :: js ":\") tok).
    + cbn [map]. unfold clean_line.
      change ((d :: js ":\") ++ tok ++ js " line 3: syntax error")
        with (d :: js ":\" ++ tok ++ js " line 3: syntax error").
      rewrite (erase_drive_token d tok (js " line 3: syntax error")
                 Hd Hne Htok eq_refl).
      reflexivity.
    + simpl. rewrite andb_true_r.
      destruct (Ascii.eqb d LF) eqn:E; [|reflexivity].
      apply Ascii.eqb_eq in E. subst d. discriminate Hd.
    + exact Htok.
Qed.

(** *** Trimming twice *)

Lemma trimEnd_head (c : ascii) (s : str) :
  is_space c = false -> exists r, trimEnd (c :: s) = c :: r.
Proof.
  intros Hc. destruct (trimEnd_keeps [] c s Hc) as [b' Hb'].
  exists b'. exact Hb'.
Qed.

Lemma trimEnd_idem (s : str) : trimEnd (trimEnd s) = trimEnd s.
Proof.
  unfold trimEnd. rewrite rev_involutive, dropWhile_idem. reflexivity.
Qed.

Lemma trim_idem (s : str) : trim (trim s) = trim s.
Proof.
  unfold trim, trimStart.
  pose proof (dropWhile_head is_space s) as Hh.
  destruct (dropWhile is_space s) as [|c r] eqn:E; [reflexivity|].
  destruct (trimEnd_head c r Hh) as [r' Hr']. rewrite Hr'.
  simpl dropWhile. rewrite Hh. rewrite <- Hr'. apply trimEnd_idem.
Qed.

(** *** Matches inside a text *)

Lemma strip_prefix_by_app (eq : ascii -> ascii -> bool) (p a r b : str) :
  strip_prefix_by eq p a = Some r ->
  strip_prefix_by eq p (a ++ b) = Some (r ++ b).
Proof.
  revert a; induction p as [|x p IH]; intros a; simpl.
  - intros H; inversion H; reflexivity.
  - destruct a as [|c a]; simpl; [discriminate|].
    destruct (eq x c); [apply IH|discriminate].
Qed.

Lemma strip_prefix_by_nonempty (eq : ascii -> ascii -> bool) (x : ascii)
  (p a r : str) :
  strip_prefix_by eq (x :: p) a = Some r ->
  exists c a', a = c :: a' /\ eq x c = true.
Proof.
  simpl. destruct a as [|c a']; [discriminate|].
  destruct (eq x c) eqn:E; [|discriminate]. eauto.
Qed.

Lemma dropWhile_stop (p : ascii -> bool) (s : str) (c : ascii) (r : str) :
  dropWhile p s = c :: r -> forallb p s = false.
Proof.
  induction s as [|d s IH]; simpl; [discriminate|].
  destruct (p d); simpl; [exact IH|reflexivity].
Qed.

Lemma digits1_app (s ds : str) (c : ascii) (r b : str) :
  digits1 s = Some (ds, c :: r) ->
  digits1 (s ++ b) = Some (ds, (c :: r) ++ b).
Proof.
  unfold digits1.
  destruct (takeWhile is_digit s) as [|d ds'] eqn:E; [discriminate|].
  intros H. inversion H; subst ds.
  assert (Hf : forallb is_digit s = false)
    by (eapply dropWhile_stop; eassumption).
  rewrite takeWhile_app, dropWhile_app, Hf, E, H2. reflexivity.
Qed.

Lemma nonspace_run_app (k : nat) (r b : str) (n : nat) :
  nonspace_run k r = Some n -> exists n', nonspace_run k (r ++ b) = Some n'.
Proof.
  unfold nonspace_run. rewrite takeWhile_app.
  destruct (takeWhile non_space r) as [|c t] eqn:E; [discriminate|].
  intros _. destruct (forallb non_space r).
  - destruct r as [|c' r']; [discriminate E|]. simpl. eauto.
  - simpl. eauto.
Qed.

Lemma lit_app (p : string) (a r b : str) :
  lit p a = Some r -> lit p (a ++ b) = Some (r ++ b).
Proof. apply strip_prefix_by_app. Qed.

Lemma lit_ci_app (p : string) (a r b : str) :
  lit_ci p a = Some r -> lit_ci p (a ++ b) = Some (r ++ b).
Proof. apply strip_prefix_by_app. Qed.

Lemma m_drive_path_extends : extends m_drive_path.
Proof.
  intros a b n. unfold m_drive_path.
  destruct a as [|d a]; [discriminate|].
  change ((d :: a) ++ b) with (d :: (a ++ b)). cbv beta iota.
  destruct (is_alpha d); [|discriminate].
  destruct (lit ":\" a) as [r|] eqn:E; [|discriminate].
  rewrite (lit_app _ _ _ b E). apply nonspace_run_app.
Qed.

Lemma m_rooted_path_extends : extends m_rooted_path.
Proof.
  intros a b n. unfold m_rooted_path.
  destruct (lit "/" a) as [r|] eqn:E; [|discriminate].
  rewrite (lit_app _ _ _ b E). apply nonspace_run_app.
Qed.

Lemma m_path_extends : extends m_path.
Proof.
  intros a b n. unfold m_path.
  destruct (m_drive_path a) as [k|] eqn:E.
  - destruct (m_drive_path_extends _ b _ E) as [n' ->]. eauto.
  - intros H. destruct (m_rooted_path_extends _ b _ H) as [n' ->].
    destruct (m_drive_path (a ++ b)); eauto.
Qed.

Lemma lit_ci_head (x : ascii) (p : string) (a r : str) :
  lit_ci (String x p) a = Some r ->
  exists c a', a = c :: a' /\ eqb_ci x c = true.
Proof. apply strip_prefix_by_nonempty. Qed.

Lemma lit_head (x : ascii) (p : string) (a r : str) :
  lit (String x p) a = Some r ->
  exists c a', a = c :: a' /\ Ascii.eqb x c = true.
Proof. apply strip_prefix_by_nonempty. Qed.

Lemma m_temp_extends : extends m_temp.
Proof.
  intros a b n. unfold m_temp.
  destruct (lit_ci "dlv-temp-" a) as [s1|] eqn:E1; [|discriminate].
  rewrite (lit_ci_app _ _ _ b E1).
  destruct (digits1 s1) as [[ds s2]|] eqn:E2; [|discriminate].
  destruct (lit_ci ".asp" s2) as [s3|] eqn:E3; [|discriminate].
  destruct (lit_ci_head _ _ _ _ E3) as (c & s2' & -> & _).
  rewrite (digits1_app _ _ _ _ b E2), (lit_ci_app _ _ _ b E3). eauto.
Qed.

Lemma m_line_extends : extends m_line.
Proof.
  intros a b n. unfold m_line.
  destruct (lit_ci "line " a) as [s1|] eqn:E1; [|discriminate].
  rewrite (lit_ci_app _ _ _ b E1).
  destruct (digits1 s1) as [[ds s2]|] eqn:E2; [|discriminate].
  destruct (lit ":" s2) as [s3|] eqn:E3; [|discriminate].
  destruct (lit_head _ _ _ _ E3) as (c & s2' & -> & _).
  rewrite (digits1_app _ _ _ _ b E2), (lit_app _ _ _ b E3). eauto.
Qed.

Lemma test_extends (m : str -> option nat) (a b : str) :
  extends m -> test m a = true -> test m (a ++ b) = true.
Proof.
  intros Hm. induction a as [|c a IH]; simpl.
  - destruct (m []) as [n|] eqn:E; [|discriminate].
    intros _. destruct (Hm [] b n E) as [n' Hn'].
    simpl in Hn'. destruct b; simpl; rewrite Hn'; reflexivity.
  - destruct (m (c :: a)) as [n|] eqn:E.
    + intros _. destruct (Hm (c :: a) b n E) as [n' Hn'].
      simpl in Hn'. rewrite Hn'. reflexivity.
    + intros H. destruct (m (c :: a ++ b)); [reflexivity|exact (IH H)].
Qed.

(** A pattern that matches in a piece of a text matches in the text. *)
Lemma test_inside (m : str -> option nat) (pre l post : str) :
  extends m -> test m (pre ++ l ++ post) = false -> test m l = false.
Proof.
  intros Hm H. destruct (test m l) eqn:E; [|reflexivity].
  rewrite (test_suffix m pre (l ++ post) (test_extends m l post Hm E)) in H.
  discriminate H.
Qed.

Lemma includes_true (s p : str) :
  includes s p = true <-> exists a b, s = a ++ p ++ b.
Proof.
  split.
  - induction s as [|c s IH]; simpl.
    + rewrite orb_false_r. intros H.
      apply startsWith_true in H. destruct H as [r Hr].
      exists [], r. exact Hr.
    + rewrite orb_true_iff. intros [H|H].
      * apply startsWith_true in H. destruct H as [r Hr].
        exists [], r. exact Hr.
      * destruct (IH H) as (a & b & ->). exists (c :: a), b. reflexivity.
  - intros (a & b & ->). apply includes_app.
Qed.

Lemma includes_inside (pre l post p : str) :
  includes (pre ++ l ++ post) p = false -> includes l p = false.
Proof.
  intros H. destruct (includes l p) eqn:E; [|reflexivity].
  apply includes_true in E. destruct E as (a & b & ->).
  assert (Hin : includes (pre ++ (a ++ p ++ b) ++ post) p = true).
  { apply includes_true. exists (pre ++ a), (b ++ post).
    rewrite <- !app_assoc. reflexivity. }
  congruence.
Qed.

(** *** Lines *)

Lemma split_nonempty (sep : ascii) (s : str) : split sep s <> [].
Proof.
  destruct s as [|c s]; simpl; [discriminate|].
  destruct (Ascii.eqb c sep); [discriminate|].
  destruct (split sep s); discriminate.
Qed.

Lemma join_cons (sep x : str) (r : list str) :
  r <> [] -> join sep (x :: r) = x ++ sep ++ join sep r.
Proof. destruct r; [congruence|reflexivity]. Qed.

Lemma join_split (sep : ascii) (s : str) : join [sep] (split sep s) = s.
Proof.
  induction s as [|c s IH]; [reflexivity|]. simpl split.
  destruct (Ascii.eqb c sep) eqn:E.
  - apply Ascii.eqb_eq in E. subst c.
    rewrite join_cons by apply split_nonempty. rewrite IH. reflexivity.
  - destruct (split sep s) as [|h r] eqn:Es.
    + exfalso. exact (split_nonempty sep s Es).
    + destruct r as [|h' r'].
      * simpl in *. congruence.
      * rewrite join_cons by discriminate.
        rewrite join_cons in IH by discriminate.
        rewrite <- IH. reflexivity.
Qed.

Lemma join_in (sep l : str) (L : list str) :
  In l L -> exists pre post, join sep L = pre ++ l ++ post.
Proof.
  induction L as [|x r IH]; [intros []|].
  intros [->|Hin].
  - destruct r as [|y r'].
    + exists [], []. simpl. rewrite app_nil_r. reflexivity.
    + exists [], (sep ++ join sep (y :: r')). reflexivity.
  - destruct (IH Hin) as (pre & post & Hj).
    assert (Hr : r <> []) by (destruct r; [destruct Hin|discriminate]).
    rewrite (join_cons sep x r Hr), Hj.
    exists (x ++ sep ++ pre), post. rewrite <- !app_assoc. reflexivity.
Qed.

Lemma line_inside (t l : str) :
  In l (split LF t) -> exists pre post, t = pre ++ l ++ post.
Proof.
  intros Hin. destruct (join_in [LF] l _ Hin) as (pre & post & H).
  rewrite join_split in H. eauto.
Qed.

Lemma filter_all (f : str -> bool) (L : list str) :
  forallb f L = true -> filter f L = L.
Proof.
  induction L as [|x L IH]; simpl; [reflexivity|].
  rewrite andb_true_iff. intros [-> H]. rewrite (IH H). reflexivity.
Qed.

Lemma map_fixed (f : str -> str) (L : list str) :
  (forall l, In l L -> f l = l) -> map f L = L.
Proof.
  induction L as [|x L IH]; simpl; [reflexivity|].
  intros H. rewrite (H x) by auto. rewrite IH by auto. reflexivity.
Qed.

(** *** Texts the rules leave alone *)

Lemma errorMatch_None (l : str) : test m_line l = false -> errorMatch l = None.
Proof.
  induction l as [|c l IH].
  - intros _. reflexivity.
  - cbn [test errorMatch].
    destruct (m_line (c :: l)); [discriminate|exact IH].
Qed.

Lemma test_m_line_colon (t : str) : test m_line_colon t = test m_line t.
Proof.
  unfold m_line_colon.
  induction t as [|c t IH].
  - reflexivity.
  - cbn [test]. destruct (m_line (c :: t)); simpl; [reflexivity|exact IH].
Qed.

Lemma test_generic_warning (t : str) :
  test m_generic_warning t = includes t (js "Generic warning: ").
Proof.
  unfold m_generic_warning, lit.
  induction t as [|c t IH].
  - reflexivity.
  - cbn [test includes]. rewrite <- IH. unfold startsWith.
    destruct (strip_prefix (js "Generic warning: ") (c :: t)); reflexivity.
Qed.

Lemma strip_final_punct_id (t : str) :
  ends_with_punct t = false -> strip_final_punct t = t.
Proof.
  unfold ends_with_punct, strip_final_punct. intros H.
  rewrite dropWhile_id; [apply rev_involutive|].
  destruct (rev t); [exact I|exact H].
Qed.

Lemma clean_line_id (l : str) :
  test m_path l = false ->
  test m_temp l = false ->
  test m_line l = false ->
  includes l (js "Command failed:") = false ->
  includes l (js "Aborting due to") = false ->
  clean_line l = l.
Proof.
  intros Hp Ht Hl Hc Ha. unfold clean_line.
  rewrite (replace_all_no_match m_path erase l Hp).
  rewrite (replace_all_no_match m_temp placeholder l Ht).
  rewrite (errorMatch_None l Hl), Hc, Ha. reflexivity.
Qed.

Lemma settled_errors_fixed (t : str) :
  settled_errors t = true -> trim t = t -> cleanErrors t = t.
Proof.
  unfold settled_errors.
  rewrite !andb_true_iff, !negb_true_iff.
  intros [[[[[[Hp Ht] Hl] Hc] Ha] Hb] He] Htrim.
  destruct t as [|c t']; [reflexivity|].
  set (t := c :: t') in *.
  unfold no_blank_line in Hb. change (forallb nonblank (split LF t) = true) in Hb.
  unfold cleanErrors.
  rewrite (map_fixed clean_line (split LF t)).
  - rewrite (filter_all nonblank _ Hb), join_split.
    rewrite replace_all_no_match
      by (rewrite test_m_line_colon; exact Hl).
    rewrite (strip_final_punct_id t He). exact Htrim.
  - intros l Hin. destruct (line_inside t l Hin) as (pre & post & Heq).
    rewrite Heq in Hp, Ht, Hl, Hc, Ha.
    apply clean_line_id.
    + exact (test_inside m_path pre l post m_path_extends Hp).
    + exact (test_inside m_temp pre l post m_temp_extends Ht).
    + exact (test_inside m_line pre l post m_line_extends Hl).
    + exact (includes_inside pre l post _ Hc).
    + exact (includes_inside pre l post _ Ha).
Qed.

Lemma settled_output_fixed (t : str) :
  settled_output t = true -> trim t = t -> cleanOutput t = t.
Proof.
  unfold settled_output, cleanOutput, strip_banner.
  destruct (match_banner t); [discriminate|].
  rewrite negb_true_iff, <- test_generic_warning. intros H Htrim.
  rewrite (replace_all_no_match m_generic_warning erase t H). exact Htrim.
Qed.

(** C3, as the code has it: cleaning a cleaned text changes nothing
    when the cleaned text is settled.  For [cleanOutput]: it does not
    start with a version banner and contains no [Generic warning: ].
    For [cleanErrors]: it contains no path token, no temporary [.asp]
    file name, no [line N:], neither [Command failed:] nor
    [Aborting due to], no blank line, and does not end with a dot or a
    colon. *)
Theorem sanitizer_idempotent_when_settled (s : str) :
  (settled_output (cleanOutput s) = true ->
   cleanOutput (cleanOutput s) = cleanOutput s)
  /\ (settled_errors (cleanErrors s) = true ->
      cleanErrors (cleanErrors s) = cleanErrors s).
Proof.
  split; intros H.
  - apply settled_output_fixed; [exact H|]. apply trim_idem.
  - apply settled_errors_fixed; [exact H|]. apply trim_idem.
Qed.

Lemma sanitizer_idempotent_when_settled_witness :
  let out := js "DLV 2.1.0" ++ [LF] ++ js "Answer: 1" ++ [LF] ++ js "{a,b}"
             ++ [LF] in
  let err := js "/tmp/dlv-temp-1730000000000.asp: line 3: syntax error." in
  cleanOutput out = js "Answer: 1" ++ [LF] ++ js "{a,b}"
  /\ cleanOutput (cleanOutput out) = cleanOutput out
  /\ cleanErrors err = js "Errore:" ++ [LF] ++ js "line 3 syntax error"
  /\ cleanErrors (cleanErrors err) = cleanErrors err.
Proof.
  cbv zeta. split; [reflexivity|]. split; [|split; [reflexivity|]].
  - apply (proj1 (sanitizer_idempotent_when_settled
                    (js "DLV 2.1.0" ++ [LF] ++ js "Answer: 1" ++ [LF]
                     ++ js "{a,b}" ++ [LF]))).
    reflexivity.
  - apply (proj2 (sanitizer_idempotent_when_settled
                    (js "/tmp/dlv-temp-1730000000000.asp: line 3: syntax error."))).
    reflexivity.
Defined.

(** C3, as stated, fails for both cleaners: a second banner line is
    removed only by the second [cleanOutput], and the dot uncovered by
    the final [trim] is removed only by the second [cleanErrors]. *)
Lemma sanitizer_not_idempotent :
  let out := js "DLV 2.1.0" ++ [LF] ++ js "DLV 2.1.0" ++ [LF] ++ js "{a}" in
  cleanOutput out = js "DLV 2.1.0" ++ [LF] ++ js "{a}"
  /\ cleanOutput (cleanOutput out) = js "{a}"
  /\ cleanErrors (js "a. ") = js "a."
  /\ cleanErrors (cleanErrors (js "a. ")) = js "a".
Proof. cbv zeta. repeat split; reflexivity. Qed.

(** ** Fenced blocks in the editor *)

Lemma span_eq (p : ascii -> bool) (s : str) :
  takeWhile p s ++ dropWhile p s = s.
Proof.
  induction s as [|c s IH]; simpl; [reflexivity|].
  destruct (p c); simpl; congruence.
Qed.

Lemma takeWhile_all (p : ascii -> bool) (s : str) :
  forallb p (takeWhile p s) = true.
Proof.
  induction s as [|c s IH]; simpl; [reflexivity|].
  destruct (p c) eqn:E; simpl; [rewrite E; exact IH|reflexivity].
Qed.

Lemma firstn_length_app (a b : str) : firstn (List.length a) (a ++ b) = a.
Proof. induction a as [|c a IH]; simpl; [destruct b|]; congruence. Qed.

Lemma skipn_length_app (a b : str) : skipn (List.length a) (a ++ b) = b.
Proof. induction a as [|c a IH]; simpl; [reflexivity|exact IH]. Qed.

Lemma body_before_fence_spec (s b : str) :
  body_before_fence s = Some b -> exists post, s = b ++ FENCE ++ post.
Proof.
  revert b; induction s as [|c s IH]; intros b; cbn [body_before_fence].
  - destruct (startsWith [] FENCE) eqn:E; [|discriminate].
    discriminate E.
  - destruct (startsWith (c :: s) FENCE) eqn:E.
    + intros H; inversion H; subst b.
      apply startsWith_true in E. exact E.
    + destruct (body_before_fence s) as [b'|]; [|discriminate].
      intros H; inversion H; subst b.
      destruct (IH b' eq_refl) as [post ->]. exists post. reflexivity.
Qed.

Lemma match_fence_spec (s tag body : str) :
  match_fence s = Some (tag, body) ->
  tag <> [] /\ forallb non_space tag = true
  /\ exists post, s = (FENCE ++ tag ++ [LF] ++ body ++ FENCE) ++ post.
Proof.
  unfold match_fence.
  destruct (strip_prefix FENCE s) as [s1|] eqn:E1; [|discriminate].
  apply strip_prefix_Some in E1.
  pose proof (span_eq non_space s1) as Hspan.
  pose proof (takeWhile_all non_space s1) as Hall.
  destruct (takeWhile non_space s1) as [|t0 t] eqn:Et; [discriminate|].
  destruct (dropWhile non_space s1) as [|c s2]; [discriminate|].
  destruct (Ascii.eqb c LF) eqn:Ec; [|discriminate].
  apply Ascii.eqb_eq in Ec. subst c.
  destruct (body_before_fence s2) as [b|] eqn:Eb; [|discriminate].
  intros H; inversion H; subst tag body.
  destruct (body_before_fence_spec s2 b Eb) as [post Hpost].
  split; [discriminate|]. split; [exact Hall|].
  exists post. rewrite E1, <- Hspan, Hpost.
  rewrite <- !app_assoc. reflexivity.
Qed.

Lemma scan_from_spec (s : str) (skip i : nat) (m : FenceMatch) :
  In m (scan_from skip i s) -> fence_at s i m.
Proof.
  revert skip i; induction s as [|c s IH]; intros skip i; [intros []|].
  cbn [scan_from].
  assert (Hshift : forall k, In m (scan_from k (S i) s) ->
                             fence_at (c :: s) i m).
  { intros k Hin. destruct (IH k (S i) Hin)
      as (Hw & Ht & Hs & pre & post & Heq & Hi).
    repeat split; try assumption.
    exists (c :: pre), post. split; [rewrite Heq; reflexivity|].
    simpl. lia. }
  destruct skip as [|k]; [|apply Hshift].
  destruct (match_fence (c :: s)) as [[t b]|] eqn:E; [|apply Hshift].
  intros [<-|Hin]; [|exact (Hshift _ Hin)].
  destruct (match_fence_spec (c :: s) t b E) as (Ht & Hs & post & Heq).
  repeat split; try assumption.
  exists [], post. split; [exact Heq|simpl; lia].
Qed.

Lemma fences_spec (text : str) (m : FenceMatch) :
  In m (fences text) -> fence_at text 0 m.
Proof. apply scan_from_spec. Qed.

Lemma indexOf_range (hay needle : str) :
  (-1 <= indexOf hay needle)%Z.
Proof.
  induction hay as [|c hay IH]; cbn [indexOf].
  - destruct (startsWith [] needle); lia.
  - destruct (startsWith (c :: hay) needle); [lia|].
    destruct (indexOf hay needle <? 0)%Z; lia.
Qed.

(** A found index is the offset of an occurrence. *)
Lemma indexOf_occurrence (hay needle : str) :
  (0 <= indexOf hay needle)%Z ->
  exists a b, hay = a ++ needle ++ b
              /\ indexOf hay needle = Z.of_nat (List.length a).
Proof.
  induction hay as [|c hay IH]; cbn [indexOf].
  - destruct (startsWith [] needle) eqn:E; [|lia].
    intros _. apply startsWith_true in E. destruct E as [r Hr].
    exists [], r. split; [exact Hr|reflexivity].
  - destruct (startsWith (c :: hay) needle) eqn:E.
    + intros _. apply startsWith_true in E. destruct E as [r Hr].
      exists [], r. split; [exact Hr|reflexivity].
    + destruct (indexOf hay needle <? 0)%Z eqn:Ek; [lia|].
      intros _. apply Z.ltb_ge in Ek.
      destruct (IH Ek) as (a & b & Heq & Hk).
      exists (c :: a), b. split; [rewrite Heq; reflexivity|].
      rewrite Hk. simpl List.length. lia.
Qed.

(** The first occurrence is not after any occurrence. *)
Lemma indexOf_first (a needle b : str) :
  (0 <= indexOf (a ++ needle ++ b) needle <= Z.of_nat (List.length a))%Z.
Proof.
  induction a as [|c a IH].
  - simpl app.
    assert (H : startsWith (needle ++ b) needle = true)
      by (apply startsWith_true; eauto).
    destruct (needle ++ b); cbn [indexOf]; rewrite H; simpl; lia.
  - simpl app. cbn [indexOf].
    destruct (startsWith (c :: a ++ needle ++ b) needle);
      [simpl List.length; lia|].
    destruct (indexOf (a ++ needle ++ b) needle <? 0)%Z eqn:Ek.
    + apply Z.ltb_lt in Ek. lia.
    + simpl List.length. lia.
Qed.

(** Where the widget of a match starts and ends. *)
Lemma decoration_offsets (text : str) (m : FenceMatch) :
  fence_at text 0 m ->
  let d := decoration_of m in
  (Z.of_nat (index m) <= widget_start d
   <= Z.of_nat (index m + 4 + List.length (tag m)))%Z
  /\ widget_end d = (widget_start d + Z.of_nat (List.length (body m)))%Z
  /\ (widget_end d
      <= Z.of_nat (index m + List.length (whole m)) - 3)%Z
  /\ (Z.of_nat (index m + List.length (whole m))
      <= Z.of_nat (List.length text))%Z
  /\ slice text (widget_start d) (widget_end d) = body m.
Proof.
  intros (Hw & Ht & Hs & pre & post & Heq & Hi). cbv zeta.
  unfold decoration_of. cbn [widget_start widget_end].
  assert (Hocc : whole m = (FENCE ++ tag m ++ [LF]) ++ body m ++ FENCE)
    by (rewrite Hw, <- !app_assoc; reflexivity).
  pose proof (indexOf_first (FENCE ++ tag m ++ [LF]) (body m) FENCE) as Hk.
  rewrite <- Hocc in Hk.
  destruct (indexOf_occurrence (whole m) (body m) (proj1 Hk))
    as (a & b & Hab & Hka).
  assert (Hlen : List.length (whole m)
                 = 4 + List.length (tag m) + List.length (body m) + 3).
  { rewrite Hw, !length_app. simpl. lia. }
  assert (Hlena : List.length (FENCE ++ tag m ++ [LF])
                  = 4 + List.length (tag m)).
  { rewrite !length_app. simpl. lia. }
  assert (Htext : List.length text
                  = List.length pre + List.length (whole m)
                    + List.length post).
  { rewrite Heq, !length_app. lia. }
  rewrite Hlena in Hk. simpl in Hi. rewrite Hi. rewrite Hka in Hk |- *.
  split; [lia|]. split; [reflexivity|]. split; [lia|]. split; [lia|].
  unfold slice, clamp_index.
  destruct (Z.of_nat (List.length pre) + Z.of_nat (List.length a) <? 0)%Z
    eqn:E1; [apply Z.ltb_lt in E1; lia|].
  destruct (Z.of_nat (List.length pre) + Z.of_nat (List.length a)
            + Z.of_nat (List.length (body m)) <? 0)%Z
    eqn:E2; [apply Z.ltb_lt in E2; lia|].
  rewrite !Z.min_l by lia.
  replace (Z.to_nat (Z.of_nat (List.length pre) + Z.of_nat (List.length a)
                     + Z.of_nat (List.length (body m))
                     - (Z.of_nat (List.length pre)
                        + Z.of_nat (List.length a))))
    with (List.length (body m)) by lia.
  replace (Z.to_nat (Z.of_nat (List.length pre) + Z.of_nat (List.length a)))
    with (List.length (pre ++ a)) by (rewrite length_app; lia).
  rewrite Heq, Hab.
  replace (pre ++ (a ++ body m ++ b) ++ post)
    with ((pre ++ a) ++ body m ++ (b ++ post))
    by (rewrite <- !app_assoc; reflexivity).
  rewrite skipn_length_app. apply firstn_length_app.
Qed.

Lemma scan_from_sorted (s : str) (skip i : nat) :
  Forall (fun m => i + skip <= index m) (scan_from skip i s)
  /\ StronglySorted
       (fun a b => index a + List.length (whole a) <= index b)
       (scan_from skip i s).
Proof.
  revert skip i; induction s as [|c s IH]; intros skip i.
  - split; constructor.
  - cbn [scan_from].
    assert (Hshift : forall k, i + skip <= S i + k ->
              Forall (fun m => i + skip <= index m) (scan_from k (S i) s)
              /\ StronglySorted
                   (fun a b => index a + List.length (whole a) <= index b)
                   (scan_from k (S i) s)).
    { intros k Hk. destruct (IH k (S i)) as [Hf Hs]. split; [|exact Hs].
      eapply Forall_impl; [|exact Hf]. intros m Hm. simpl in Hm. lia. }
    destruct skip as [|k]; [|apply Hshift; lia].
    destruct (match_fence (c :: s)) as [[t b]|]; [|apply Hshift; lia].
    cbv zeta.
    set (w := FENCE ++ t ++ [LF] ++ b ++ FENCE).
    assert (Hw : 7 <= List.length w).
    { unfold w. rewrite !length_app. simpl. lia. }
    destruct (IH (List.length w - 1) (S i)) as [Hf Hs].
    split.
    + constructor; [simpl; lia|].
      eapply Forall_impl; [|exact Hf]. intros m Hm. simpl in Hm. lia.
    + constructor; [exact Hs|].
      eapply Forall_impl; [|exact Hf]. intros m Hm. simpl in Hm |- *. lia.
Qed.

Lemma StronglySorted_filter {A} (R : A -> A -> Prop) (f : A -> bool)
  (l : list A) :
  StronglySorted R l -> StronglySorted R (filter f l).
Proof.
  induction 1 as [|a l Hs IH Hf]; simpl; [constructor|].
  destruct (f a); [|exact IH].
  constructor; [exact IH|].
  apply Forall_forall. intros x Hx. apply filter_In in Hx.
  rewrite Forall_forall in Hf. apply Hf. tauto.
Qed.

Lemma StronglySorted_map {A B} (R : A -> A -> Prop) (R' : B -> B -> Prop)
  (P : A -> Prop) (f : A -> B) (l : list A) :
  (forall a b, P a -> P b -> R a b -> R' (f a) (f b)) ->
  Forall P l -> StronglySorted R l -> StronglySorted R' (map f l).
Proof.
  intros HR HP Hs. induction Hs as [|a l Hs IH Hf]; simpl; [constructor|].
  inversion HP; subst. constructor; [apply IH; assumption|].
  apply Forall_forall. intros y Hy. apply in_map_iff in Hy.
  destruct Hy as (b & <- & Hb).
  rewrite Forall_forall in Hf, H2. apply HR; auto.
Qed.

(** X1: every widget of [getEditorDecoration] comes from a fenced
    block of the document whose tag, lower-cased, is supported and not
    empty; its offsets lie inside the document in order, the
    decoration is placed at its end offset, and the text the widget
    runs, [docText.slice(start, end).trim()], is the trimmed body of
    that block. *)
Theorem getEditorDecoration_runs_the_body settings text d :
  In d (getEditorDecoration settings text) ->
  exists m,
    In m (fences text)
    /\ fence_at text 0 m
    /\ (0 <= widget_start d <= widget_end d)%Z
    /\ (widget_end d <= Z.of_nat (List.length text))%Z
    /\ position d = widget_end d
    /\ slice text (widget_start d) (widget_end d) = body m
    /\ codeContent text d = trim (body m)
    /\ widget_lang d = toLowerCase (tag m)
    /\ widget_lang d <> []
    /\ isSupportedLanguage settings (widget_lang d) = true.
Proof.
  unfold getEditorDecoration. intros Hin.
  apply in_map_iff in Hin. destruct Hin as (m & <- & Hm).
  apply filter_In in Hm. destruct Hm as [Hm Hsup].
  pose proof (fences_spec text m Hm) as Hat.
  destruct (decoration_offsets text m Hat) as (Hs & He & Hb & Ht & Hslice).
  exists m. split; [exact Hm|]. split; [exact Hat|].
  split; [lia|]. split; [lia|]. split; [reflexivity|].
  split; [exact Hslice|].
  split; [unfold codeContent; rewrite Hslice; reflexivity|].
  split; [reflexivity|].
  split; [|exact Hsup].
  destruct Hat as (_ & Hne & _).
  cbn [decoration_of widget_lang]. unfold toLowerCase.
  destruct (tag m); [congruence|discriminate].
Qed.

Lemma getEditorDecoration_runs_the_body_witness :
  In first_widget (getEditorDecoration DEFAULT_SETTINGS note)
  /\ codeContent note first_widget = js "a :- b.".
Proof.
  assert (Hin : In first_widget (getEditorDecoration DEFAULT_SETTINGS note))
    by (left; reflexivity).
  split; [exact Hin|].
  destruct (getEditorDecoration_runs_the_body DEFAULT_SETTINGS note
              first_widget Hin) as (m & _ & _ & _ & _ & _ & _ & Hc & _).
  reflexivity.
Defined.

(** X2: the decorations are added to the [RangeSetBuilder] at
    strictly increasing positions, whatever the document. *)
Theorem getEditorDecoration_positions_increase settings text :
  StronglySorted Z.lt (map position (getEditorDecoration settings text)).
Proof.
  unfold getEditorDecoration. rewrite map_map.
  apply StronglySorted_map
    with (R := fun a b => index a + List.length (whole a) <= index b)
         (P := fence_at text 0).
  - intros a b Ha Hb Hab.
    destruct (decoration_offsets text a Ha) as (_ & _ & Hea & _).
    destruct (decoration_offsets text b Hb) as (Hsb & Heb & _).
    cbv zeta in *.
    change (position (decoration_of a)) with (widget_end (decoration_of a)).
    change (position (decoration_of b)) with (widget_end (decoration_of b)).
    lia.
  - apply Forall_forall. intros m Hm. apply filter_In in Hm.
    apply fences_spec. tauto.
  - apply StronglySorted_filter. apply scan_from_sorted.
Qed.

(** X3: the widget's start offset is where the body's text first
    occurs inside the match, so it lies between the opening fence and
    the body's real offset; when the body is empty it is the offset of
    the opening fence itself, and the widget is placed there. *)
Theorem widget_start_is_first_occurrence settings text d :
  In d (getEditorDecoration settings text) ->
  exists m,
    In m (fences text)
    /\ widget_start d
       = (Z.of_nat (index m) + indexOf (whole m) (body m))%Z
    /\ (Z.of_nat (index m) <= widget_start d
        <= Z.of_nat (index m + 4 + List.length (tag m)))%Z
    /\ (body m = [] ->
        widget_start d = Z.of_nat (index m)
        /\ position d = Z.of_nat (index m)).
Proof.
  unfold getEditorDecoration. intros Hin.
  apply in_map_iff in Hin. destruct Hin as (m & <- & Hm).
  apply filter_In in Hm. destruct Hm as [Hm _].
  pose proof (fences_spec text m Hm) as Hat.
  destruct (decoration_offsets text m Hat) as (Hs & He & _).
  exists m. split; [exact Hm|]. split; [reflexivity|]. split; [exact Hs|].
  intros Hb. cbv zeta in He.
  assert (H0 : indexOf (whole m) (body m) = 0%Z).
  { rewrite Hb. destruct (whole m); reflexivity. }
  unfold decoration_of. cbn [widget_start position].
  rewrite H0, Hb. simpl. lia.
Qed.

Lemma widget_start_is_first_occurrence_witness :
  let text := js "```asp" ++ [LF] ++ js "```" in
  let d := {| position := 0; widget_lang := js "asp";
              widget_start := 0; widget_end := 0 |} in
  In d (getEditorDecoration DEFAULT_SETTINGS text)
  /\ exists m, In m (fences text) /\ body m = []
               /\ position d = Z.of_nat (index m).
Proof.
  cbv zeta.
  assert (Hin : In {| position := 0; widget_lang := js "asp";
                      widget_start := 0; widget_end := 0 |}
                   (getEditorDecoration DEFAULT_SETTINGS
                      (js "```asp" ++ [LF] ++ js "```")))
    by (left; reflexivity).
  split; [exact Hin|].
  destruct (widget_start_is_first_occurrence DEFAULT_SETTINGS _ _ Hin)
    as (m & Hm & _ & _ & Hempty).
  exists m. split; [exact Hm|].
  simpl in Hm. destruct Hm as [<-|[]].
  split; [reflexivity|]. apply Hempty. reflexivity.
Defined.

(** ** Runs and the controller registry *)

Lemma frame_refl c st : frame c st st.
Proof. repeat split; auto. Qed.

Lemma frame_trans {c st1 st2 st3} :
  frame c st1 st2 -> frame c st2 st3 -> frame c st1 st3.
Proof.
  intros (Hf1 & Ha1 & Hb1 & Hr1) (Hf2 & Ha2 & Hb2 & Hr2).
  repeat split; try congruence.
  - intros x Hx. destruct (Hb2 x Hx); auto.
  - intros x Hx. destruct (Hr2 x Hx); auto.
Qed.

Lemma frame_log c e st : frame c st (log e st).
Proof. repeat split; auto. Qed.

Lemma frame_spawn c st : frame c st (spawn c st).
Proof.
  repeat split; auto. simpl. intros x Hx.
  apply in_app_or in Hx. destruct Hx as [Hx|[Hx|[]]]; auto.
Qed.

Lemma frame_reap c st : frame c st (reap c st).
Proof.
  repeat split; auto. simpl. unfold remove_id. intros x Hx.
  apply filter_In in Hx. tauto.
Qed.

Lemma frame_abort b c st : frame c st (abort b c st).
Proof.
  unfold abort. destruct b; repeat split; auto; simpl.
  - intros x Hx. apply in_app_or in Hx. destruct Hx as [Hx|[Hx|[]]]; auto.
  - unfold remove_id. intros x Hx. apply filter_In in Hx. tauto.
  - intros x Hx. apply in_app_or in Hx. destruct Hx as [Hx|[Hx|[]]]; auto.
Qed.

Section RunFrame.
Variable settings : DlvPluginSettings.
Variable host : Host.

Lemma await_fs_frame c e rejection st :
  frame c st (snd (await_fs e rejection st)).
Proof. unfold await_fs. destruct rejection; apply frame_log. Qed.

Lemma await_exec_frame c signal command st :
  frame c st (snd (await_exec settings host c signal command st)).
Proof.
  unfold await_exec.
  destruct (exec_settles signal (exec host command)) as [t cancelled].
  assert (H0 : frame c st (spawn c (log (EvExec command) st)))
    by (eapply frame_trans; [apply frame_log|apply frame_spawn]).
  destruct (0 <? executionTimeout settings)%Z;
    [destruct (executionTimeout settings <? t)%Z|];
    destruct cancelled; simpl snd;
    repeat (first [exact H0
                  | eapply frame_trans; [|apply frame_abort]
                  | eapply frame_trans; [|apply frame_reap]
                  | eapply frame_trans; [|apply frame_log]]).
Qed.

Lemma executeDlv_try_frame c content lang signal st :
  frame c st (snd (executeDlv_try settings host c content lang signal st)).
Proof.
  unfold executeDlv_try, bind.
  pose proof (await_fs_frame c (EvAccess (getDlvPath settings host))
                (fs_access host (getDlvPath settings host)) st) as H1.
  destruct (await_fs _ _ st) as [[e1|[]] st1]; [exact H1|].
  simpl snd in H1.
  pose proof (await_fs_frame c (EvMkdir (os_tmpdir host))
                (fs_mkdir host (os_tmpdir host)) st1) as H2.
  destruct (await_fs _ _ st1) as [[e2|[]] st2];
    [exact (frame_trans H1 H2)|].
  simpl snd in H2.
  match goal with
  | |- context [await_fs ?e ?r st2] =>
      pose proof (await_fs_frame c e r st2) as H3;
      destruct (await_fs e r st2) as [[e3|[]] st3]
  end; [exact (frame_trans H1 (frame_trans H2 H3))|].
  simpl snd in H3.
  match goal with
  | |- context [await_exec settings host c signal ?cmd st3] =>
      pose proof (await_exec_frame c signal cmd st3) as H4;
      destruct (await_exec settings host c signal cmd st3) as [[e4|r] st4]
  end; [exact (frame_trans H1 (frame_trans H2 (frame_trans H3 H4)))|].
  simpl snd in H4.
  unfold swallow, ret.
  match goal with
  | |- context [await_fs ?e ?r st4] =>
      pose proof (await_fs_frame c e r st4) as H5;
      destruct (await_fs e r st4) as [x st5]
  end.
  simpl snd in H5 |- *.
  exact (frame_trans H1 (frame_trans H2 (frame_trans H3
           (frame_trans H4 H5)))).
Qed.

Lemma remove_id_fresh {c : nat} {l : list nat} :
  Forall (fun x => x < c) l -> remove_id c (l ++ [c]) = l.
Proof.
  unfold remove_id. intros H. rewrite filter_app. simpl.
  rewrite Nat.eqb_refl. simpl. rewrite app_nil_r.
  induction H as [|x l Hx Hl IH]; simpl; [reflexivity|].
  destruct (x =? c) eqn:E; [apply Nat.eqb_eq in E; lia|].
  simpl. rewrite IH. reflexivity.
Qed.

Lemma executeDlv_registry content lang signal st :
  well_formed st ->
  let st' := snd (executeDlv settings host content lang signal st) in
  activeAbortControllers st' = activeAbortControllers st
  /\ fresh st' = S (fresh st)
  /\ well_formed st'.
Proof.
  intros Hwf. cbv zeta.
  unfold executeDlv, try_catch_finally, register.
  pose proof (executeDlv_try_frame (fresh st) content lang signal
                {| trace := trace st; fresh := S (fresh st);
                   activeAbortControllers :=
                     activeAbortControllers st ++ [fresh st];
                   abortedControllers := abortedControllers st;
                   runningChildren := runningChildren st |}) as Hfr.
  destruct (executeDlv_try settings host (fresh st) content lang signal _)
    as [[e|r] st1]; simpl snd in Hfr;
    destruct Hfr as (Hf & Ha & Hb & Hr); simpl in Hf, Ha, Hb, Hr;
    unfold executeDlv_catch, ret; simpl snd;
    unfold well_formed in *; simpl;
    rewrite !Forall_app in Hwf; destruct Hwf as (Hw1 & Hw2 & Hw3);
    rewrite Ha, (remove_id_fresh Hw1), Hf;
    (split; [reflexivity|]); (split; [reflexivity|]);
    rewrite !Forall_app; repeat split.
  all: try (eapply Forall_impl; [|exact Hw1]; simpl; intros; lia).
  all: apply Forall_forall; intros x Hx.
  all: rewrite Forall_forall in Hw2, Hw3.
  all: first [destruct (Hb x Hx) as [->|Hx'];
                [lia|specialize (Hw2 x Hx'); simpl in Hw2; lia]
             |destruct (Hr x Hx) as [->|Hx'];
                [lia|specialize (Hw3 x Hx'); simpl in Hw3; lia]].
Qed.

(** X4: [executeDlv] leaves the registry as it found it on every
    path: the controller it adds to [activeAbortControllers] is
    deleted again whether the run succeeds, fails, times out or is
    cancelled, and the state stays well formed with one more
    controller created. *)
Theorem executeDlv_releases_its_controller content lang signal st :
  well_formed st ->
  let st' := snd (executeDlv settings host content lang signal st) in
  activeAbortControllers st' = activeAbortControllers st
  /\ fresh st' = S (fresh st)
  /\ well_formed st'.
Proof. apply executeDlv_registry. Qed.
End RunFrame.

Lemma executeDlv_releases_its_controller_witness :
  activeAbortControllers
    (snd (executeDlv (with_timeout 5000)
            (posix_host 1730000000000 slow_solver) program (js "asp")
            None initial))
  = [].
Proof.
  exact (proj1 (executeDlv_releases_its_controller (with_timeout 5000)
                  (posix_host 1730000000000 slow_solver) program (js "asp")
                  None initial ltac:(constructor))).
Defined.

Section RunOutcomes.
Variable settings : DlvPluginSettings.
Variable host : Host.


Lemma existsb_last (c : nat) (l : list nat) :
  existsb (Nat.eqb c) (l ++ [c]) = true.
Proof.
  rewrite existsb_app. simpl. rewrite Nat.eqb_refl.
  rewrite orb_true_r. reflexivity.
Qed.

(** X5: cancellation.  When nothing fails before the spawn and the
    caller's signal is aborted after the call, before the child ends
    and before the timer (a timeout within the range of
    [setTimeout]), the result has the empty [stdout] and
    [Execution aborted] in [stderr], and the controller's signal is
    aborted.  A signal that is already aborted when [executeDlv] is
    called changes nothing: the run is the run without a signal. *)
Theorem executeDlv_cancelled content lang a st :
  (presteps_succeed settings host content lang ->
   (0 <= a)%Z ->
   (a < duration (child_of settings host lang))%Z ->
   (executionTimeout settings <= 0
    \/ a < executionTimeout settings <= 2147483647)%Z ->
   let run := executeDlv settings host content lang
                (Some {| abort_at := Some a |}) st in
   fst run = inr {| stdout := []; stderr := js "Execution aborted" |}
   /\ signal_aborted (fresh st) (snd run) = true)
  /\ ((a < 0)%Z ->
      executeDlv settings host content lang (Some {| abort_at := Some a |}) st
      = executeDlv settings host content lang None st).
Proof.
  split.
  - intros Hpre H0 Ha HT'. cbv zeta.
    assert (HT : (executionTimeout settings <= 0
                  \/ a < executionTimeout settings)%Z) by lia.
    assert (Hc : cancel_time (Some {| abort_at := Some a |}) = Some a).
    { unfold cancel_time. apply Z.leb_le in H0. rewrite H0. reflexivity. }
    assert (Hrun : exists st1,
              executeDlv settings host content lang
                (Some {| abort_at := Some a |}) st
              = (inr {| stdout := []; stderr := js "Execution aborted" |},
                 unregister (fresh st)
                   (abort (kill_ends_solver host) (fresh st) st1))).
    { unfold executeDlv, try_catch_finally, register.
      rewrite (executeDlv_try_reaches_exec _ _ _ _ _ _ _ Hpre).
      cbv zeta. unfold bind at 1.
      rewrite (await_exec_cancelled _ _ _ _ _ _ _ Hc Ha HT).
      unfold executeDlv_catch, ret.
      rewrite signal_aborted_abort. eexists. reflexivity. }
    destruct Hrun as (st1 & ->). simpl fst. simpl snd.
    split; [reflexivity|].
    exact (signal_aborted_abort (kill_ends_solver host) (fresh st) st1).
  - intros Hneg.
    assert (Hc : cancel_time (Some {| abort_at := Some a |}) = None).
    { unfold cancel_time. apply Z.leb_gt in Hneg. rewrite Hneg. reflexivity. }
    unfold executeDlv, try_catch_finally, register, executeDlv_try, bind,
      await_exec, exec_settles.
    rewrite Hc. reflexivity.
Qed.

End RunOutcomes.

Lemma executeDlv_cancelled_witness :
  fst (executeDlv (with_timeout 5000) (posix_host 1730000000000 slow_solver)
         program (js "asp") (Some {| abort_at := Some 100%Z |}) initial)
  = inr {| stdout := []; stderr := js "Execution aborted" |}
  /\ executeDlv (with_timeout 5000) (posix_host 1730000000000 quick_solver)
       program (js "asp") (Some {| abort_at := Some (-1)%Z |}) initial
     = executeDlv (with_timeout 5000) (posix_host 1730000000000 quick_solver)
         program (js "asp") None initial.
Proof.
  split.
  - apply (proj1 (executeDlv_cancelled (with_timeout 5000)
                    (posix_host 1730000000000 slow_solver) program (js "asp")
                    100 initial)).
    + repeat split.
    + discriminate.
    + reflexivity.
    + right. split; [reflexivity|discriminate].
  - apply (proj2 (executeDlv_cancelled (with_timeout 5000)
                    (posix_host 1730000000000 quick_solver) program
                    (js "asp") (-1) initial)).
    reflexivity.
Defined.

Section MoreOutcomes.
Variable settings : DlvPluginSettings.
Variable host : Host.



(** X7: the missing executable.  When [fs.access] rejects, the run
    stops there: its only effect is that call, nothing is written and
    no process is started, and the result carries the rejection's
    message with the empty [stdout]. *)
Theorem executeDlv_missing_executable content lang signal st message :
  fs_access host (getDlvPath settings host) = Some (ErrorObj message) ->
  signal_aborted (fresh st) st = false ->
  let run := executeDlv settings host content lang signal st in
  fst run = inr {| stdout := []; stderr := message |}
  /\ trace (snd run) = trace st ++ [EvAccess (getDlvPath settings host)]
  /\ runningChildren (snd run) = runningChildren st.
Proof.
  intros Hacc Hfresh. cbv zeta.
  unfold executeDlv, try_catch_finally, register, executeDlv_try, bind,
    await_fs.
  rewrite Hacc. unfold executeDlv_catch, ret. simpl fst. simpl snd.
  split; [|split; reflexivity].
  unfold errorMessage.
  replace (signal_aborted (fresh st) _) with (signal_aborted (fresh st) st)
    by reflexivity.
  rewrite Hfresh. reflexivity.
Qed.

(** X8: the cleanup is best effort.  Whether [fs.unlink] is fulfilled
    or rejects makes no difference to what [executeDlv] returns nor to
    the state it leaves. *)
Theorem executeDlv_ignores_unlink_outcome unlink content lang signal st :
  executeDlv settings (with_unlink host unlink) content lang signal st
  = executeDlv settings host content lang signal st.
Proof.
  unfold executeDlv, try_catch_finally, register, executeDlv_try, bind.
  change (getDlvPath settings (with_unlink host unlink))
    with (getDlvPath settings host).
  cbn [with_unlink fs_access fs_mkdir fs_writeFile fs_unlink os_tmpdir
       path_join date_now].
  destruct (await_fs (EvAccess _) _ _) as [[e1|[]] st1]; [reflexivity|].
  destruct (await_fs (EvMkdir _) _ _) as [[e2|[]] st2]; [reflexivity|].
  destruct (await_fs (EvWriteFile _ _) _ _) as [[e3|[]] st3]; [reflexivity|].
  change (await_exec settings (with_unlink host unlink))
    with (await_exec settings host).
  change (build_args settings) with (build_args settings).
  destruct (await_exec settings host _ _ _ _) as [[e4|r] st4]; [reflexivity|].
  unfold swallow, await_fs, ret.
  destruct (unlink _), (fs_unlink host _); reflexivity.
Qed.
End MoreOutcomes.


Lemma executeDlv_missing_executable_witness :
  fst (executeDlv DEFAULT_SETTINGS
         (host_without_solver 1730000000000 quick_solver)
         program (js "asp") None initial)
  = inr {| stdout := []; stderr := js "ENOENT: no such file or directory" |}.
Proof.
  apply (executeDlv_missing_executable DEFAULT_SETTINGS
           (host_without_solver 1730000000000 quick_solver)
           program (js "asp") None initial
           (js "ENOENT: no such file or directory")).
  - reflexivity.
  - reflexivity.
Defined.

(** ** Unloading *)

Lemma abort_keeps_registry b c st :
  activeAbortControllers (abort b c st) = activeAbortControllers st.
Proof. destruct b; reflexivity. Qed.

Lemma fold_abort_registry b (l : list nat) (st : State) :
  activeAbortControllers (fold_left (fun s c => abort b c s) l st)
  = activeAbortControllers st.
Proof.
  revert st; induction l as [|c l IH]; intros st; simpl; [reflexivity|].
  rewrite IH. apply abort_keeps_registry.
Qed.

Lemma signal_aborted_after_abort b c x st :
  signal_aborted c (abort b x st) = signal_aborted c st || (c =? x).
Proof.
  unfold signal_aborted, abort.
  destruct b; simpl; rewrite existsb_app; simpl; rewrite orb_false_r;
    reflexivity.
Qed.

Lemma fold_abort_aborted b (l : list nat) (st : State) (c : nat) :
  signal_aborted c (fold_left (fun s x => abort b x s) l st)
  = signal_aborted c st || existsb (Nat.eqb c) l.
Proof.
  revert st; induction l as [|x l IH]; intros st; simpl.
  - rewrite orb_false_r. reflexivity.
  - rewrite IH, signal_aborted_after_abort. rewrite orb_assoc. reflexivity.
Qed.

Lemma existsb_remove_id (c x : nat) (l : list nat) :
  existsb (Nat.eqb c) (remove_id x l)
  = existsb (Nat.eqb c) l && negb (c =? x).
Proof.
  unfold remove_id.
  induction l as [|y l IH]; simpl; [reflexivity|].
  destruct (y =? x) eqn:E; simpl.
  - apply Nat.eqb_eq in E. subst y. rewrite IH.
    destruct (c =? x); simpl; [rewrite andb_false_r|]; reflexivity.
  - rewrite IH. destruct (c =? y) eqn:Ec; simpl; [|reflexivity].
    apply Nat.eqb_eq in Ec. subst y. rewrite E. reflexivity.
Qed.

(** Aborting other controllers leaves a child as it is. *)
Lemma fold_abort_running b (l : list nat) (st : State) (c : nat) :
  existsb (Nat.eqb c) l = false ->
  child_running c (fold_left (fun s x => abort b x s) l st)
  = child_running c st.
Proof.
  revert st; induction l as [|x l IH]; intros st; simpl; [reflexivity|].
  intros H. apply orb_false_iff in H. destruct H as [Hx Hl].
  rewrite (IH _ Hl). unfold child_running, abort, reap.
  destruct b; simpl; [|reflexivity].
  rewrite existsb_remove_id, Hx. apply andb_true_r.
Qed.

Lemma existsb_eqb_In (c : nat) (l : list nat) :
  existsb (Nat.eqb c) l = true <-> In c l.
Proof.
  rewrite existsb_exists. split.
  - intros (x & Hx & E). apply Nat.eqb_eq in E. subst x. exact Hx.
  - intros H. exists c. split; [exact H|apply Nat.eqb_refl].
Qed.

(** X9: [onunload] aborts the signal of every registered controller
    and of no other: afterwards the signal of each controller in
    [activeAbortControllers] is aborted, the signal of a controller
    that is not registered is as it was, and the registry itself is
    unchanged ([onunload] does not clear it). *)
Theorem onunload_aborts_registered (host : Host) (st : State) (c : nat) :
  (In c (activeAbortControllers st) ->
   signal_aborted c (onunload host st) = true)
  /\ (~ In c (activeAbortControllers st) ->
      signal_aborted c (onunload host st) = signal_aborted c st)
  /\ activeAbortControllers (onunload host st) = activeAbortControllers st.
Proof.
  unfold onunload. split; [|split].
  - intros Hin. rewrite fold_abort_aborted.
    apply existsb_eqb_In in Hin. rewrite Hin. apply orb_true_r.
  - intros Hnot. rewrite fold_abort_aborted.
    destruct (existsb (Nat.eqb c) (activeAbortControllers st)) eqn:E.
    + apply existsb_eqb_In in E. contradiction.
    + apply orb_false_r.
  - apply fold_abort_registry.
Qed.

Lemma onunload_aborts_registered_witness :
  let st := {| trace := []; fresh := 3; activeAbortControllers := [0; 2];
               abortedControllers := []; runningChildren := [0; 1; 2] |} in
  let host := posix_host 1730000000000 slow_solver in
  signal_aborted 2 (onunload host st) = true
  /\ signal_aborted 1 (onunload host st) = false
  /\ activeAbortControllers (onunload host st) = [0; 2].
Proof.
  cbv zeta.
  pose (st := {| trace := []; fresh := 3; activeAbortControllers := [0; 2];
                 abortedControllers := []; runningChildren := [0; 1; 2] |}).
  pose (host := posix_host 1730000000000 slow_solver).
  split; [|split].
  - apply (proj1 (onunload_aborts_registered host st 2)).
    simpl. auto.
  - apply (proj1 (proj2 (onunload_aborts_registered host st 1))).
    simpl. intros [H|[H|[]]]; discriminate H.
  - exact (proj2 (proj2 (onunload_aborts_registered host st 0))).
Defined.

(** X10: a child that outlived its timeout is out of reach.  After a
    run that times out (as in C2), started in a well-formed state, the
    run's controller is no longer registered, so [onunload] does not
    abort it: the child is still running after the run and still
    running after [onunload]. *)
Theorem timed_out_child_survives_onunload
  settings host content lang signal st :
  well_formed st ->
  presteps_succeed settings host content lang ->
  (0 < executionTimeout settings)%Z ->
  (executionTimeout settings < duration (child_of settings host lang))%Z ->
  (forall a, signal = Some {| abort_at := Some a |} ->
             (executionTimeout settings < a)%Z) ->
  let st' := snd (executeDlv settings host content lang signal st) in
  child_running (fresh st) st' = true
  /\ signal_aborted (fresh st) st' = false
  /\ child_running (fresh st) (onunload host st') = true.
Proof.
  intros Hwf Hpre HT Hd Ha. cbv zeta.
  assert (Hreg : ~ In (fresh st) (activeAbortControllers st)).
  { unfold well_formed in Hwf. rewrite !Forall_app in Hwf.
    destruct Hwf as (Hw & _). rewrite Forall_forall in Hw.
    intros Hin. specialize (Hw _ Hin). simpl in Hw. lia. }
  assert (Hab : signal_aborted (fresh st) st = false).
  { unfold well_formed in Hwf. rewrite !Forall_app in Hwf.
    destruct Hwf as (_ & Hw & _). rewrite Forall_forall in Hw.
    unfold signal_aborted.
    destruct (existsb (Nat.eqb (fresh st)) (abortedControllers st)) eqn:E;
      [|reflexivity].
    apply existsb_exists in E. destruct E as (x & Hx & Hcx).
    apply Nat.eqb_eq in Hcx. subst x. specialize (Hw _ Hx). simpl in Hw. lia. }
  destruct (executeDlv_registry settings host content lang signal st Hwf)
    as (Hactive & _).
  cbv zeta in Hactive.
  assert (Hsnd : snd (executeDlv settings host content lang signal st)
                 = unregister (fresh st)
                     (log (EvSetTimeout (executionTimeout settings))
                        (spawn (fresh st)
                           (log (EvExec (command_of settings host lang))
                              (log (EvWriteFile (tmpFile_of host lang) content)
                                 (log (EvMkdir (os_tmpdir host))
                                    (log (EvAccess (getDlvPath settings host))
                                       (snd (register st))))))))).
  { unfold executeDlv, try_catch_finally, register.
    rewrite (executeDlv_try_reaches_exec _ _ _ _ _ _ _ Hpre).
    cbv zeta. unfold bind at 1.
    rewrite (await_exec_timeout _ _ _ _ _ _ HT Hd
             (fun a Hc => Ha a (proj1 (cancel_time_signal _ _ Hc)))).
    reflexivity. }
  assert (Hrun : child_running (fresh st)
                   (snd (executeDlv settings host content lang signal st))
                 = true
                 /\ signal_aborted (fresh st)
                      (snd (executeDlv settings host content lang signal st))
                    = false).
  { rewrite Hsnd. split.
    - unfold child_running. simpl. apply existsb_last.
    - exact Hab. }
  destruct Hrun as [Hrun Hsig].
  split; [exact Hrun|]. split; [exact Hsig|].
  unfold onunload. rewrite fold_abort_running; [exact Hrun|].
  rewrite Hactive.
  destruct (existsb (Nat.eqb (fresh st)) (activeAbortControllers st)) eqn:E;
    [|reflexivity].
  apply existsb_eqb_In in E. contradiction.
Qed.

Lemma timed_out_child_survives_onunload_witness :
  child_running 0
    (onunload (posix_host 1730000000000 slow_solver)
       (snd (executeDlv (with_timeout 5000)
               (posix_host 1730000000000 slow_solver) program (js "asp")
               None initial)))
  = true.
Proof.
  apply (timed_out_child_survives_onunload (with_timeout 5000)
           (posix_host 1730000000000 slow_solver) program (js "asp")
           None initial).
  - constructor.
  - repeat split.
  - reflexivity.
  - reflexivity.
  - intros a H. discriminate H.
Defined.

(** ** What the sinks show *)

(** X11: a failed run is always visible.  Whenever the [try] block of
    [executeDlv] throws and the message chosen by the [catch] block is
    not blank, the transient display appends the error element and the
    durable append adds the [% Errore] section, also when [showErrors]
    is off. *)
Theorem failed_run_is_shown settings host content lang signal st e st1 :
  executeDlv_try settings host (fresh st) content lang signal
    (snd (register st)) = (inl e, st1) ->
  trim (errorMessage e (signal_aborted (fresh st) st1)) <> [] ->
  exists r st',
    executeDlv settings host content lang signal st = (inr r, st')
    /\ errorEl (updateOutputUI settings r) <> None
    /\ errore_section settings r <> [].
Proof.
  intros Htry Hmsg.
  unfold executeDlv, try_catch_finally, register. simpl snd in Htry.
  rewrite Htry. unfold executeDlv_catch, ret.
  eexists. eexists. split; [reflexivity|]. split.
  - apply display_rule. simpl. split; [exact Hmsg|right; reflexivity].
  - apply append_rule. simpl. split; [|right; reflexivity].
    intros H. rewrite H in Hmsg. apply Hmsg. reflexivity.
Qed.

Lemma failed_run_is_shown_witness :
  exists r st',
    executeDlv DEFAULT_SETTINGS (posix_host 1730000000000 failing_solver)
      program (js "asp") None initial = (inr r, st')
    /\ errorEl (updateOutputUI DEFAULT_SETTINGS r) <> None
    /\ errore_section DEFAULT_SETTINGS r <> [].
Proof.
  eapply (failed_run_is_shown DEFAULT_SETTINGS
            (posix_host 1730000000000 failing_solver)
            program (js "asp") None initial).
  - cbv. reflexivity.
  - discriminate.
Defined.





(** *** The appended block *)

Lemma split_app_sep (sep : ascii) (a b : str) :
  split sep (a ++ sep :: b) = split sep a ++ split sep b.
Proof.
  induction a as [|c a IH]; simpl.
  - rewrite Ascii.eqb_refl. reflexivity.
  - destruct (Ascii.eqb c sep); [rewrite IH; reflexivity|].
    rewrite IH.
    destruct (split sep a) as [|h r] eqn:E; [|reflexivity].
    exfalso. exact (split_nonempty sep a E).
Qed.

Lemma split_app (sep : ascii) (a b : str) :
  split sep (a ++ b)
  = removelast (split sep a)
    ++ (last (split sep a) [] ++ hd [] (split sep b))
       :: tl (split sep b).
Proof.
  induction a as [|c a IH].
  - simpl. destruct (split sep b) as [|h r] eqn:E; [|reflexivity].
    exfalso. exact (split_nonempty sep b E).
  - simpl app. cbn [split].
    destruct (Ascii.eqb c sep).
    + rewrite IH.
      destruct (split sep a) as [|h r] eqn:E;
        [exfalso; exact (split_nonempty sep a E)|].
      reflexivity.
    + rewrite IH.
      destruct (split sep a) as [|h r] eqn:E;
        [exfalso; exact (split_nonempty sep a E)|].
      destruct r as [|y r']; reflexivity.
Qed.

Lemma comment_line_prefix (l l' : str) :
  is_comment_line (l ++ l') = true -> is_comment_line l = true.
Proof. destruct l; simpl; auto. Qed.

(** The lines of the start of a text are comment lines when the lines
    of the text are. *)
Lemma comment_lines_prefix (a b : str) :
  forallb is_comment_line (split LF (a ++ b)) = true ->
  forallb is_comment_line (split LF a) = true.
Proof.
  rewrite split_app, forallb_app. cbn [forallb].
  rewrite !andb_true_iff. intros (Hinit & Hlast & _).
  assert (Hne : split LF a <> []) by apply split_nonempty.
  rewrite (app_removelast_last [] Hne), forallb_app. cbn [forallb].
  apply andb_true_iff. split; [exact Hinit|].
  apply andb_true_iff. split; [|reflexivity].
  exact (comment_line_prefix _ _ Hlast).
Qed.

Lemma split_lines_no_sep (sep : ascii) (s : str) :
  Forall (fun l => forallb (fun c => negb (Ascii.eqb c sep)) l = true)
         (split sep s).
Proof.
  induction s as [|c s IH]; simpl; [repeat constructor|].
  destruct (Ascii.eqb c sep) eqn:E; [constructor; [reflexivity|exact IH]|].
  destruct (split sep s) as [|h r]; [repeat constructor; simpl; rewrite E;
                                     reflexivity|].
  inversion IH; subst. constructor; [|assumption].
  simpl. rewrite E. simpl. assumption.
Qed.

Lemma comment_lines_are_comments (s : str) :
  forallb is_comment_line (split LF (comment_lines s)) = true.
Proof.
  unfold comment_lines.
  pose proof (split_lines_no_sep LF s) as Hno.
  pose proof (split_nonempty LF s) as Hne.
  induction (split LF s) as [|x L IH]; [congruence|].
  inversion Hno as [|? ? Hx HL]; subst.
  destruct L as [|y L'].
  - cbn [map join].
    rewrite (split_no_sep LF (js "% " ++ x)) by exact Hx. reflexivity.
  - change (map (fun line => js "% " ++ line) (x :: y :: L'))
      with ((js "% " ++ x)
              :: map (fun line => js "% " ++ line) (y :: L')).
    rewrite join_cons by discriminate.
    change ([LF] ++ join [LF] (map (fun line => js "% " ++ line) (y :: L')))
      with (LF :: join [LF] (map (fun line => js "% " ++ line) (y :: L'))).
    rewrite split_app_sep, forallb_app.
    rewrite (split_no_sep LF (js "% " ++ x)) by exact Hx.
    rewrite IH; [reflexivity|exact HL|discriminate].
Qed.

Lemma trimEnd_prefix (s : str) : exists w, s = trimEnd s ++ w.
Proof.
  unfold trimEnd. exists (rev (takeWhile is_space (rev s))).
  rewrite <- rev_app_distr, span_eq, rev_involutive. reflexivity.
Qed.

Lemma save_content_lines settings timestamp result :
  no_LF timestamp = true ->
  forallb is_comment_line
    (split LF (save_content settings timestamp result)) = true.
Proof.
  intros Hts.
  assert (Heq : save_content settings timestamp result
                = ("%"%char :: " "%char :: timestamp)
                  ++ LF :: (answer_section result
                            ++ errore_section settings result)).
  { unfold save_content. cbv zeta. rewrite <- !app_assoc. reflexivity. }
  rewrite Heq, split_app_sep, forallb_app.
  rewrite (split_no_sep LF ("%"%char :: " "%char :: timestamp))
    by exact Hts.
  cbn [forallb is_comment_line]. simpl andb.
  unfold answer_section, errore_section.
  pose proof (comment_lines_are_comments (stdout result)) as Ho.
  pose proof (comment_lines_are_comments (stderr result)) as He.
  destruct (hasContent (stdout result));
    destruct (append_shows_errors settings result).
  - change ((js "% AnswerSet" ++ [LF] ++ comment_lines (stdout result))
            ++ [LF] ++ js "% Errore" ++ [LF] ++ comment_lines (stderr result))
      with (js "% AnswerSet"
            ++ LF :: (comment_lines (stdout result)
                      ++ LF :: (js "% Errore"
                                ++ LF :: comment_lines (stderr result)))).
    rewrite !split_app_sep, !forallb_app, Ho, He. reflexivity.
  - rewrite app_nil_r.
    change (js "% AnswerSet" ++ [LF] ++ comment_lines (stdout result))
      with (js "% AnswerSet" ++ LF :: comment_lines (stdout result)).
    rewrite split_app_sep, forallb_app, Ho. reflexivity.
  - change ([] ++ [LF] ++ js "% Errore" ++ [LF]
            ++ comment_lines (stderr result))
      with ([] ++ LF :: (js "% Errore"
                         ++ LF :: comment_lines (stderr result))).
    rewrite !split_app_sep, !forallb_app, He. reflexivity.
  - reflexivity.
Qed.

(** X13: the durable append only adds comments.  With a timestamp on
    one line, [saveExecutionResult] keeps the file's content and adds,
    after two line feeds, a block that starts with the timestamp
    comment and in which every line is empty or begins with the
    comment character; without an active file it appends nothing. *)
Theorem saveExecutionResult_appends_comments
  settings timestamp result data :
  no_LF timestamp = true ->
  saveExecutionResult settings timestamp result None = None
  /\ exists block,
      saveExecutionResult settings timestamp result (Some data)
      = Some (data ++ [LF; LF] ++ block)
      /\ startsWith block (js "%") = true
      /\ forallb is_comment_line (split LF block) = true.
Proof.
  intros Hts. split; [reflexivity|].
  unfold saveExecutionResult.
  exists (trim (save_content settings timestamp result)).
  split; [reflexivity|].
  pose proof (save_content_lines settings timestamp result Hts) as Hlines.
  assert (Hstart : exists rest,
             save_content settings timestamp result = "%"%char :: rest).
  { unfold save_content. cbv zeta. eexists. reflexivity. }
  destruct Hstart as [rest Hrest].
  unfold trim, trimStart. rewrite Hrest in *.
  change (dropWhile is_space ("%"%char :: rest)) with ("%"%char :: rest).
  destruct (trimEnd_head "%"%char rest eq_refl) as [r' Hr'].
  split; [rewrite Hr'; reflexivity|].
  destruct (trimEnd_prefix ("%"%char :: rest)) as [w Hw].
  apply (comment_lines_prefix _ w). rewrite <- Hw. exact Hlines.
Qed.

Lemma saveExecutionResult_appends_comments_witness :
  exists block,
    saveExecutionResult DEFAULT_SETTINGS (js "2/11/2026, 10:00:00")
      {| stdout := js "{a,b}"; stderr := [] |} (Some program)
    = Some (program ++ [LF; LF] ++ block)
    /\ startsWith block (js "%") = true
    /\ forallb is_comment_line (split LF block) = true.
Proof.
  apply (saveExecutionResult_appends_comments DEFAULT_SETTINGS
           (js "2/11/2026, 10:00:00")
           {| stdout := js "{a,b}"; stderr := [] |} program).
  reflexivity.
Defined.

(** ** Tags and extensions *)

Lemma lower_char_idem (c : ascii) : lower_char (lower_char c) = lower_char c.
Proof.
  destruct c as [[] [] [] [] [] [] [] []]; reflexivity.
Qed.

Lemma toLowerCase_idem (s : str) : toLowerCase (toLowerCase s) = toLowerCase s.
Proof.
  unfold toLowerCase. rewrite map_map.
  apply map_ext. exact lower_char_idem.
Qed.

Lemma str_eqb_refl (s : str) : str_eqb s s = true.
Proof. apply str_eqb_eq. reflexivity. Qed.

(** X14: the case of a tag does not matter: a tag is supported
    exactly when its lower-cased form is, so the editor (which
    lower-cases the tag first) and the rendered view (which does not)
    accept the same tags. *)
Theorem isSupportedLanguage_ignores_case settings lang :
  isSupportedLanguage settings (toLowerCase lang)
  = isSupportedLanguage settings lang.
Proof.
  unfold isSupportedLanguage.
  induction (extension_tokens settings) as [|e l IH]; simpl; [reflexivity|].
  rewrite IH. unfold matches_token. rewrite toLowerCase_idem. reflexivity.
Qed.

(** X15: every extension that [onload] registers with the host is a
    non-empty, lower-case token that [isSupportedLanguage] (and so
    [isSupportedExtension], which guards the header button) accepts;
    [registerExtensions] is called only with a non-empty list. *)
Theorem registered_extensions_are_supported settings extensions :
  registered_extensions settings = Some extensions ->
  extensions <> []
  /\ forall ext, In ext extensions ->
       ext <> []
       /\ toLowerCase ext = ext
       /\ isSupportedExtension settings ext = true.
Proof.
  unfold registered_extensions. cbv zeta.
  destruct (0 <? List.length (onload_extensions settings)) eqn:E;
    [|discriminate].
  intros H; inversion H; subst extensions. split.
  - intros Hnil. rewrite Hnil in E. discriminate E.
  - intros ext Hin. unfold onload_extensions in Hin.
    apply filter_In in Hin. destruct Hin as [Hin Hlen].
    assert (Hlow : toLowerCase ext = ext).
    { apply in_map_iff in Hin. destruct Hin as (raw & <- & _).
      apply toLowerCase_idem. }
    split; [destruct ext; [discriminate Hlen|discriminate]|].
    split; [exact Hlow|].
    unfold isSupportedExtension, isSupportedLanguage.
    apply existsb_exists. exists ext. split; [exact Hin|].
    unfold matches_token. rewrite Hlow, str_eqb_refl. reflexivity.
Qed.

Lemma registered_extensions_are_supported_witness :
  registered_extensions (with_extensions " Asp ,,dlv") = Some [js "asp"; js "dlv"]
  /\ isSupportedExtension (with_extensions " Asp ,,dlv") (js "dlv") = true.
Proof.
  assert (H : registered_extensions (with_extensions " Asp ,,dlv")
              = Some [js "asp"; js "dlv"]) by reflexivity.
  split; [exact H|].
  destruct (registered_extensions_are_supported _ _ H) as [_ Hall].
  apply (Hall (js "dlv")). simpl. auto.
Defined.

Lemma replace_first_prefix (pattern rest replacement : str) :
  replace_first (pattern ++ rest) pattern replacement = replacement ++ rest.
Proof.
  assert (H : strip_prefix pattern (pattern ++ rest) = Some rest)
    by (apply strip_prefix_Some; reflexivity).
  destruct (pattern ++ rest); simpl; rewrite H; reflexivity.
Qed.

(** X16: [getCodeBlockLanguage] returns the first class that starts
    with [language-], without that prefix, and nothing when there is
    no such class; the rendered view decorates a block only with a
    tag that is not empty and is supported, so the class [language-]
    alone never gets a widget. *)
Theorem decorated_language_spec settings classList :
  (getCodeBlockLanguage classList = None <->
   forall c, In c classList -> startsWith c (js "language-") = false)
  /\ (forall lang,
        getCodeBlockLanguage classList = Some lang ->
        In (js "language-" ++ lang) classList)
  /\ (forall lang,
        decorated_language settings classList = Some lang ->
        lang <> []
        /\ isSupportedLanguage settings lang = true
        /\ In (js "language-" ++ lang) classList).
Proof.
  assert (Hget : forall lang,
             getCodeBlockLanguage classList = Some lang ->
             In (js "language-" ++ lang) classList).
  { unfold getCodeBlockLanguage. intros lang.
    destruct (find _ classList) as [c|] eqn:E; [|discriminate].
    apply find_some in E. destruct E as [Hin Hc].
    apply startsWith_true in Hc. destruct Hc as [r ->].
    rewrite replace_first_prefix. intros H; inversion H; subst. exact Hin. }
  split; [|split; [exact Hget|]].
  - unfold getCodeBlockLanguage. split.
    + destruct (find _ classList) eqn:E; [discriminate|].
      intros _ c Hc. exact (find_none _ _ E c Hc).
    + intros H. destruct (find _ classList) as [c|] eqn:E; [|reflexivity].
      apply find_some in E. destruct E as [Hin Hc].
      rewrite (H c Hin) in Hc. discriminate Hc.
  - intros lang. unfold decorated_language.
    destruct (getCodeBlockLanguage classList) as [l|] eqn:E; [|discriminate].
    destruct (truthy l && isSupportedLanguage settings l) eqn:Hok;
      [|discriminate].
    intros H; inversion H; subst l.
    apply andb_true_iff in Hok. destruct Hok as [Ht Hs].
    split; [apply truthy_true; exact Ht|]. split; [exact Hs|].
    apply Hget. reflexivity.
Qed.

Lemma decorated_language_spec_witness :
  decorated_language (with_extensions "asp,")
    [js "hljs"; js "language-asp.v2"] = Some (js "asp.v2")
  /\ decorated_language (with_extensions "asp,") [js "language-"] = None
  /\ isSupportedLanguage (with_extensions "asp,") (js "asp.v2") = true.
Proof.
  split; [reflexivity|]. split; [reflexivity|].
  apply (proj2 (proj2 (decorated_language_spec (with_extensions "asp,")
                         [js "hljs"; js "language-asp.v2"]))
           (js "asp.v2")).
  reflexivity.
Defined.

(** ** More on the sanitizer *)

Lemma trim_ends (s : str) :
  match trim s with c :: _ => is_space c = false | [] => True end
  /\ match rev (trim s) with c :: _ => is_space c = false | [] => True end.
Proof.
  unfold trim, trimStart. split.
  - pose proof (dropWhile_head is_space s) as Hh.
    destruct (dropWhile is_space s) as [|c r]; [exact I|].
    destruct (trimEnd_head c r Hh) as [r' ->]. exact Hh.
  - unfold trimEnd. rewrite rev_involutive. apply dropWhile_head.
Qed.

(** X17: what the cleaners return never begins nor ends with a
    whitespace character, and trimming it again changes nothing. *)
Theorem cleaners_return_trimmed (s : str) :
  let ends_clean t :=
    match t with c :: _ => is_space c = false | [] => True end
    /\ match rev t with c :: _ => is_space c = false | [] => True end
    /\ trim t = t in
  ends_clean (cleanOutput s) /\ ends_clean (cleanErrors s).
Proof.
  cbv zeta. unfold cleanOutput, cleanErrors. cbv zeta.
  split; (split; [apply trim_ends|]); (split; [apply trim_ends|]);
    apply trim_idem.
Qed.

Lemma forallb_takeWhile (p q : ascii -> bool) (l : str) :
  forallb p l = true -> forallb p (takeWhile q l) = true.
Proof.
  induction l as [|c l IH]; simpl; [reflexivity|].
  rewrite andb_true_iff. intros [Hc Hl].
  destruct (q c); simpl; [rewrite Hc; exact (IH Hl)|reflexivity].
Qed.

Lemma forallb_rev (p : ascii -> bool) (l : str) :
  forallb p (rev l) = forallb p l.
Proof.
  induction l as [|c l IH]; simpl; [reflexivity|].
  rewrite forallb_app, IH. simpl. rewrite andb_true_r. apply andb_comm.
Qed.

Lemma dropWhile_blank_prefix (w s : str) :
  forallb is_space w = true -> dropWhile is_space (w ++ s) = dropWhile is_space s.
Proof. intros H. rewrite dropWhile_app, H. reflexivity. Qed.

Lemma trim_blank_prefix (w s : str) :
  forallb is_space w = true -> trim (w ++ s) = trim s.
Proof.
  intros H. unfold trim, trimStart.
  rewrite (dropWhile_blank_prefix w s H). reflexivity.
Qed.

Lemma space_cases (c : ascii) :
  is_space c = true ->
  c = "009"%char \/ c = "010"%char \/ c = "011"%char \/ c = "012"%char
  \/ c = "013"%char \/ c = " "%char \/ c = "160"%char.
Proof.
  destruct c as [[] [] [] [] [] [] [] []]; intros H;
    try discriminate H; auto 10.
Qed.

Lemma test_blank (m : str -> option nat) (w : str) :
  starts_on_text m -> forallb is_space w = true -> test m w = false.
Proof.
  intros [Hnil Hsp]. induction w as [|c w IH]; simpl.
  - rewrite Hnil. reflexivity.
  - rewrite andb_true_iff. intros [Hc Hw].
    rewrite (Hsp c w Hc). exact (IH Hw).
Qed.

Lemma replace_blank_prefix (m : str -> option nat) (rep : str -> str)
  (w s : str) :
  starts_on_text m -> forallb is_space w = true ->
  replace_all m rep (w ++ s) = w ++ replace_all m rep s.
Proof.
  intros [Hnil Hsp]. unfold replace_all.
  induction w as [|c w IH]; simpl; [reflexivity|].
  rewrite andb_true_iff. intros [Hc Hw].
  rewrite (Hsp c (w ++ s) Hc), (IH Hw). reflexivity.
Qed.

Ltac on_space H :=
  destruct (space_cases _ H)
    as [->|[->|[->|[->|[->|[->| ->]]]]]]; reflexivity.

Lemma m_generic_warning_on_text : starts_on_text m_generic_warning.
Proof. split; [reflexivity|]. intros c s H. on_space H. Qed.

Lemma m_path_on_text : starts_on_text m_path.
Proof. split; [reflexivity|]. intros c s H. on_space H. Qed.

Lemma m_temp_on_text : starts_on_text m_temp.
Proof. split; [reflexivity|]. intros c s H. on_space H. Qed.

Lemma m_line_on_text : starts_on_text m_line.
Proof. split; [reflexivity|]. intros c s H. on_space H. Qed.

Lemma match_banner_blank (c : ascii) (s : str) :
  is_space c = true -> match_banner (c :: s) = None.
Proof. intros H. on_space H. Qed.

Lemma digits1_run (a rest : str) :
  a <> [] -> forallb is_digit a = true ->
  match rest with c :: _ => is_digit c = false | [] => True end ->
  digits1 (a ++ rest) = Some (a, rest).
Proof.
  intros Hne Ha Hrest. unfold digits1.
  rewrite takeWhile_app, dropWhile_app, Ha.
  assert (Ht : takeWhile is_digit rest = []).
  { destruct rest as [|c r]; simpl; [reflexivity|]. rewrite Hrest. reflexivity. }
  rewrite Ht, app_nil_r, (dropWhile_id is_digit rest Hrest).
  destruct a; [congruence|reflexivity].
Qed.

Lemma after_last_LF_blank (w : str) :
  forallb is_space w = true ->
  exists w', after_last_LF (LF :: w) = Some w'
             /\ forallb is_space w' = true.
Proof.
  intros Hw. unfold after_last_LF.
  change (existsb (Ascii.eqb LF) (LF :: w)) with true. cbv iota.
  eexists. split; [reflexivity|].
  rewrite forallb_rev. apply forallb_takeWhile.
  rewrite forallb_rev. simpl. exact Hw.
Qed.

(** X18: the version banner is removed whatever the version: for
    any three non-empty runs of digits, the output that starts with
    [DLV a.b.c] and a line feed is cleaned as the text after that
    line alone, with the generic warnings removed and trimmed. *)
Theorem cleanOutput_drops_banner (a b c body : str) :
  a <> [] -> b <> [] -> c <> [] ->
  forallb is_digit a = true ->
  forallb is_digit b = true ->
  forallb is_digit c = true ->
  cleanOutput (js "DLV " ++ a ++ js "." ++ b ++ js "." ++ c ++ [LF] ++ body)
  = trim (replace_all m_generic_warning erase body).
Proof.
  intros Ha Hb Hc Da Db Dc.
  assert (Hbanner : exists w',
            match_banner
              (js "DLV " ++ a ++ js "." ++ b ++ js "." ++ c ++ [LF] ++ body)
            = Some (w' ++ dropWhile is_space body)
            /\ forallb is_space w' = true).
  { unfold match_banner, lit.
    assert (H1 : strip_prefix (js "DLV ")
                   (js "DLV " ++ a ++ js "." ++ b ++ js "." ++ c ++ [LF] ++ body)
                 = Some (a ++ js "." ++ b ++ js "." ++ c ++ [LF] ++ body))
      by (apply strip_prefix_Some; reflexivity).
    rewrite H1.
    rewrite (digits1_run a (js "." ++ b ++ js "." ++ c ++ [LF] ++ body)
               Ha Da eq_refl).
    change (strip_prefix (js ".") (js "." ++ b ++ js "." ++ c ++ [LF] ++ body))
      with (Some (b ++ js "." ++ c ++ [LF] ++ body)).
    cbv iota beta.
    rewrite (digits1_run b (js "." ++ c ++ [LF] ++ body) Hb Db eq_refl).
    change (strip_prefix (js ".") (js "." ++ c ++ [LF] ++ body))
      with (Some (c ++ [LF] ++ body)).
    cbv iota beta.
    rewrite (digits1_run c ([LF] ++ body) Hc Dc eq_refl).
    change (takeWhile is_space ([LF] ++ body))
      with (LF :: takeWhile is_space body).
    change (dropWhile is_space ([LF] ++ body))
      with (dropWhile is_space body).
    destruct (after_last_LF_blank (takeWhile is_space body)
                (takeWhile_all is_space body)) as (w' & -> & Hw').
    exists w'. split; [reflexivity|exact Hw']. }
  destruct Hbanner as (w' & Hm & Hw').
  unfold cleanOutput, strip_banner. rewrite Hm.
  rewrite (replace_blank_prefix m_generic_warning erase w' _
             m_generic_warning_on_text Hw').
  rewrite (trim_blank_prefix w' _ Hw').
  rewrite <- (span_eq is_space body) at 2.
  rewrite (replace_blank_prefix m_generic_warning erase
             (takeWhile is_space body) _
             m_generic_warning_on_text (takeWhile_all is_space body)).
  rewrite (trim_blank_prefix _ _ (takeWhile_all is_space body)).
  reflexivity.
Qed.

Lemma cleanOutput_drops_banner_witness :
  cleanOutput (js "DLV 2.1.0" ++ [LF] ++ js "Answer: 1" ++ [LF] ++ js "{a,b}"
                 ++ [LF])
  = js "Answer: 1" ++ [LF] ++ js "{a,b}".
Proof.
  exact (cleanOutput_drops_banner (js "2") (js "1") (js "0")
           (js "Answer: 1" ++ [LF] ++ js "{a,b}" ++ [LF])
           ltac:(discriminate) ltac:(discriminate) ltac:(discriminate)
           eq_refl eq_refl eq_refl).
Defined.

Lemma split_forallb (p : ascii -> bool) (sep : ascii) (s : str) :
  forallb p s = true ->
  Forall (fun l => forallb p l = true) (split sep s).
Proof.
  induction s as [|c s IH]; simpl; [repeat constructor|].
  rewrite andb_true_iff. intros [Hc Hs]. specialize (IH Hs).
  destruct (Ascii.eqb c sep); [constructor; [reflexivity|exact IH]|].
  destruct (split sep s) as [|h r];
    [repeat constructor; simpl; rewrite Hc; reflexivity|].
  inversion IH; subst. constructor; [|assumption].
  simpl. rewrite Hc. assumption.
Qed.

Lemma includes_blank (w : str) (x : ascii) (p : str) :
  forallb is_space w = true -> is_space x = false ->
  includes w (x :: p) = false.
Proof.
  intros Hw Hx. induction w as [|c w IH]; [reflexivity|].
  simpl in Hw. apply andb_true_iff in Hw. destruct Hw as [Hc Hw].
  cbn [includes]. rewrite (IH Hw), orb_false_r.
  unfold startsWith, strip_prefix. simpl.
  destruct (Ascii.eqb x c) eqn:E; [|reflexivity].
  apply Ascii.eqb_eq in E. subst c. congruence.
Qed.

Lemma trim_blank (w : str) : forallb is_space w = true -> trim w = [].
Proof.
  intros H. rewrite <- (app_nil_r w), (trim_blank_prefix w [] H). reflexivity.
Qed.

Lemma clean_line_blank (l : str) :
  forallb is_space l = true -> clean_line l = l /\ nonblank l = false.
Proof.
  intros H. split.
  - apply clean_line_id.
    + exact (test_blank m_path l m_path_on_text H).
    + exact (test_blank m_temp l m_temp_on_text H).
    + exact (test_blank m_line l m_line_on_text H).
    + exact (includes_blank l "C"%char _ H eq_refl).
    + exact (includes_blank l "A"%char _ H eq_refl).
  - unfold nonblank. rewrite (trim_blank l H). reflexivity.
Qed.

Lemma blank_lines_filtered (L : list str) :
  Forall (fun l => forallb is_space l = true) L ->
  filter nonblank (map clean_line L) = [].
Proof.
  induction 1 as [|l L Hl HL IH]; simpl; [reflexivity|].
  destruct (clean_line_blank l Hl) as [-> ->]. exact IH.
Qed.

(** X19: blank output.  A text made of whitespace only (the empty
    text included) is cleaned to the empty string by both cleaners. *)
Theorem cleaners_empty_on_blank (s : str) :
  forallb is_space s = true ->
  cleanOutput s = [] /\ cleanErrors s = [].
Proof.
  intros H. split.
  - unfold cleanOutput, strip_banner.
    assert (Hb : match_banner s = None).
    { destruct s as [|c s']; [reflexivity|].
      simpl in H. apply andb_true_iff in H.
      apply match_banner_blank. tauto. }
    rewrite Hb.
    rewrite (replace_all_no_match m_generic_warning erase s
               (test_blank m_generic_warning s m_generic_warning_on_text H)).
    apply trim_blank. exact H.
  - unfold cleanErrors. cbv zeta.
    rewrite (blank_lines_filtered _ (split_forallb is_space LF s H)).
    reflexivity.
Qed.

Lemma cleaners_empty_on_blank_witness :
  cleanOutput (js " " ++ [LF] ++ js "  ") = []
  /\ cleanErrors (js " " ++ [LF] ++ js "  ") = [].
Proof.
  apply (cleaners_empty_on_blank (js " " ++ [LF] ++ js "  ")).
  reflexivity.
Defined.

(** X20: a noise line is dropped.  A first line that contains
    [Command failed:] or [Aborting due to], and no path, temporary
    file name or [line N:], leaves no trace: the text is cleaned as
    the lines after it alone. *)
Theorem cleanErrors_drops_noise_line (noise rest : str) :
  no_LF noise = true ->
  test m_path noise = false ->
  test m_temp noise = false ->
  test m_line noise = false ->
  includes noise (js "Command failed:")
  || includes noise (js "Aborting due to") = true ->
  cleanErrors (noise ++ [LF] ++ rest) = cleanErrors rest.
Proof.
  intros Hno Hp Ht Hl Hn. unfold cleanErrors. cbv zeta.
  change (noise ++ [LF] ++ rest) with (noise ++ LF :: rest).
  rewrite split_app_sep, (split_no_sep LF noise Hno).
  cbn [app map].
  assert (Hc : clean_line noise = []).
  { unfold clean_line.
    rewrite (replace_all_no_match m_path erase noise Hp).
    rewrite (replace_all_no_match m_temp placeholder noise Ht).
    rewrite (errorMatch_None noise Hl), Hn. reflexivity. }
  rewrite Hc. reflexivity.
Qed.

Lemma cleanErrors_drops_noise_line_witness :
  cleanErrors (js "Aborting due to parser errors." ++ [LF]
               ++ js "/tmp/dlv-temp-1.asp: line 3: syntax error.")
  = js "Errore:" ++ [LF] ++ js "line 3 syntax error".
Proof.
  rewrite (cleanErrors_drops_noise_line
             (js "Aborting due to parser errors.")
             (js "/tmp/dlv-temp-1.asp: line 3: syntax error.")
             eq_refl eq_refl eq_refl eq_refl eq_refl).
  reflexivity.
Defined.

(** ** Saving the settings *)

(** X21: a change made in the settings tab is saved only when the
    executable that [executeDlv] would run can be accessed.  The
    handler always changes the settings in memory; when the path from
    [getDlvPath] is accessible the saved data become the settings in
    memory and no notice is shown, otherwise the saved data stay as
    they were and one notice is added. *)
Theorem settings_saved_only_with_executable host assign plugin :
  let after := on_change host assign plugin in
  let dlvPath := getDlvPath (assign (current plugin)) host in
  current after = assign (current plugin)
  /\ (accessible host dlvPath = true ->
      saved after = Some (assign (current plugin))
      /\ notices after = notices plugin)
  /\ (accessible host dlvPath = false ->
      saved after = saved plugin
      /\ List.length (notices after) = S (List.length (notices plugin))).
Proof.
  cbv zeta. unfold on_change, saveSettings, getDlvPath. cbn [current saved notices].
  destruct (dlvLocationType (assign (current plugin)));
    match goal with
    | |- context [accessible host ?p] => destruct (accessible host p)
    end; cbn [current saved notices];
    (split; [reflexivity|]); split; intros H; try discriminate H;
    split; try reflexivity; rewrite length_app; simpl; lia.
Qed.

Lemma settings_saved_only_with_executable_witness :
  let host := host_without_solver 1730000000000 quick_solver in
  let plugin := {| current := DEFAULT_SETTINGS;
                   saved := Some DEFAULT_SETTINGS; notices := [] |} in
  let after := on_change host (set_showErrors true) plugin in
  showErrors (current after) = true
  /\ saved after = Some DEFAULT_SETTINGS
  /\ notices after = [RelativeExecutableNotFound].
Proof.
  cbv zeta.
  destruct (settings_saved_only_with_executable
              (host_without_solver 1730000000000 quick_solver)
              (set_showErrors true)
              {| current := DEFAULT_SETTINGS;
                 saved := Some DEFAULT_SETTINGS; notices := [] |})
    as (Hcur & _ & Hmiss).
  cbv zeta in Hcur, Hmiss.
  destruct (Hmiss eq_refl) as [Hsaved _].
  split; [rewrite Hcur; reflexivity|].
  split; [rewrite Hsaved; reflexivity|reflexivity].
Defined.

(** ** Paths and the first error line *)

Lemma nonspace_run_head (k : nat) (r : str) :
  match nonspace_run k r with
  | Some n => head_non_space r = true /\ k < n
  | None => head_non_space r = false
  end.
Proof.
  unfold nonspace_run. destruct r as [|c r]; simpl; [reflexivity|].
  destruct (non_space c); simpl; [split; [reflexivity|lia]|reflexivity].
Qed.

Lemma m_path_head (s : str) :
  match m_path s with
  | Some n => path_head s = true /\ 0 < n
  | None => path_head s = false
  end.
Proof.
  unfold m_path, m_drive_path, m_rooted_path, lit, strip_prefix.
  destruct s as [|a r]; [reflexivity|].
  cbn [path_head js list_ascii_of_string strip_prefix_by].
  destruct (is_alpha a) eqn:Ea; cbn [andb orb].
  - destruct r as [|c1 [|c2 r]]; cbn [drive_tail].
    + destruct (Ascii.eqb "/" a); reflexivity.
    + destruct (Ascii.eqb ":" c1); cbn [andb];
        destruct (Ascii.eqb "/" a); cbn [andb];
        try reflexivity;
        pose proof (nonspace_run_head 1 [c1]) as H;
        destruct (nonspace_run 1 [c1]);
        [destruct H as [H1 H2]; split; [exact H1|lia]|exact H
        |destruct H as [H1 H2]; split; [exact H1|lia]|exact H].
    + destruct (Ascii.eqb ":" c1); cbn [andb orb].
      * destruct (Ascii.eqb "\" c2); cbn [andb orb].
        -- pose proof (nonspace_run_head 3 r) as H.
           destruct (nonspace_run 3 r).
           ++ destruct H as [H1 H2]. rewrite H1. split; [reflexivity|lia].
           ++ rewrite H. cbn [orb].
              destruct (Ascii.eqb "/" a); cbn [andb]; [|reflexivity].
              pose proof (nonspace_run_head 1 (c1 :: c2 :: r)) as H'.
              destruct (nonspace_run 1 (c1 :: c2 :: r));
                [destruct H' as [H1 H2]; split; [exact H1|lia]|exact H'].
        -- destruct (Ascii.eqb "/" a); cbn [andb]; [|reflexivity].
           pose proof (nonspace_run_head 1 (c1 :: c2 :: r)) as H'.
           destruct (nonspace_run 1 (c1 :: c2 :: r));
             [destruct H' as [H1 H2]; split; [exact H1|lia]|exact H'].
      * destruct (Ascii.eqb "/" a); cbn [andb]; [|reflexivity].
        pose proof (nonspace_run_head 1 (c1 :: c2 :: r)) as H'.
        destruct (nonspace_run 1 (c1 :: c2 :: r));
          [destruct H' as [H1 H2]; split; [exact H1|lia]|exact H'].
  - destruct (Ascii.eqb "/" a); cbn [andb]; [|reflexivity].
    pose proof (nonspace_run_head 1 r) as H'.
    destruct (nonspace_run 1 r);
      [destruct H' as [H1 H2]; split; [exact H1|lia]|exact H'].
Qed.

Lemma test_m_path_cons (c : ascii) (t : str) :
  test m_path (c :: t) = path_head (c :: t) || test m_path t.
Proof.
  cbn [test]. pose proof (m_path_head (c :: t)) as H.
  destruct (m_path (c :: t)).
  - destruct H as [-> _]. reflexivity.
  - rewrite H. reflexivity.
Qed.

Lemma space_facts (w : ascii) :
  is_space w = true ->
  non_space w = false /\ is_alpha w = false /\ Ascii.eqb "/" w = false
  /\ Ascii.eqb ":" w = false /\ Ascii.eqb "\" w = false.
Proof.
  intros H.
  destruct (space_cases _ H) as [->|[->|[->|[->|[->|[->| ->]]]]]];
    repeat split; reflexivity.
Qed.

Lemma head_non_space_ws (u : str) (w : ascii) (b : str) :
  is_space w = true ->
  head_non_space (u ++ w :: b) = head_non_space u.
Proof.
  intros H. destruct u as [|c u]; simpl; [|reflexivity].
  apply (space_facts w H).
Qed.

Lemma drive_tail_ws (u : str) (w : ascii) (b : str) :
  is_space w = true ->
  drive_tail (u ++ w :: b) = drive_tail u.
Proof.
  intros H. destruct (space_facts w H) as (Hn & _ & _ & Hc & Hb).
  destruct u as [|c1 [|c2 u]]; cbn [app drive_tail].
  - destruct b; [reflexivity|]. rewrite Hc. reflexivity.
  - rewrite Hb, andb_false_r. reflexivity.
  - change (u ++ w :: b) with (u ++ w :: b).
    rewrite (head_non_space_ws u w b H). reflexivity.
Qed.

Lemma path_head_ws (u : str) (w : ascii) (b : str) :
  is_space w = true ->
  path_head (u ++ w :: b) = path_head u.
Proof.
  intros H. destruct (space_facts w H) as (Hn & Ha & Hs & _ & _).
  destruct u as [|a u]; cbn [app path_head].
  - rewrite Ha, Hs. reflexivity.
  - rewrite (drive_tail_ws u w b H), (head_non_space_ws u w b H).
    reflexivity.
Qed.

(** No path lies across a whitespace character. *)
Lemma test_m_path_ws (u : str) (w : ascii) (b : str) :
  is_space w = true ->
  test m_path (u ++ w :: b) = test m_path u || test m_path b.
Proof.
  intros H. induction u as [|c u IH].
  - cbn [app]. rewrite test_m_path_cons.
    rewrite (path_head_ws [] w b H : path_head (w :: b) = _). reflexivity.
  - change ((c :: u) ++ w :: b) with (c :: (u ++ w :: b)).
    rewrite !test_m_path_cons, IH.
    rewrite (path_head_ws (c :: u) w b H : path_head (c :: (u ++ w :: b)) = _).
    rewrite orb_assoc. reflexivity.
Qed.

Lemma test_prefix (m : str -> option nat) (a b : str) :
  extends m -> test m (a ++ b) = false -> test m a = false.
Proof.
  intros Hm H. apply (test_inside m [] a b Hm). exact H.
Qed.

Lemma test_after (m : str -> option nat) (a b : str) :
  test m (a ++ b) = false -> test m b = false.
Proof.
  intros H. destruct (test m b) eqn:E; [|reflexivity].
  rewrite (test_suffix m a b E) in H. discriminate H.
Qed.

(** ** How replacements change the head of a text *)

Section HeadFacts.
Variable R : str -> str.
Hypothesis Hhead : forall t y o,
  R t = y :: o -> non_space y = true ->
  (exists t', t = y :: t' /\ o = R t')
  \/ (is_alpha y = true /\ head_non_space t = true).

Lemma head_non_space_back (t : str) :
  head_non_space (R t) = true -> head_non_space t = true.
Proof.
  destruct (R t) as [|y o] eqn:E; [discriminate|]. cbn [head_non_space].
  intros Hy. destruct (Hhead t y o E Hy) as [(t' & -> & _)|[_ H]];
    [exact Hy|exact H].
Qed.

Lemma drive_tail_back (t : str) :
  drive_tail (R t) = true -> drive_tail t = true.
Proof.
  destruct (R t) as [|c1 [|c2 r]] eqn:E; try discriminate.
  cbn [drive_tail]. rewrite !andb_true_iff. intros [[H1 H2] H3].
  apply Ascii.eqb_eq in H1, H2. subst c1 c2.
  destruct (Hhead t _ _ E eq_refl) as [(t1 & -> & E1)|[Ha _]];
    [|discriminate Ha].
  symmetry in E1.
  destruct (Hhead t1 _ _ E1 eq_refl) as [(t2 & -> & E2)|[Ha _]];
    [|discriminate Ha].
  cbn [drive_tail]. rewrite !Ascii.eqb_refl. cbn [andb].
  apply head_non_space_back. rewrite <- E2. exact H3.
Qed.

Lemma path_head_back (c : ascii) (t : str) :
  path_head (c :: R t) = true -> path_head (c :: t) = true.
Proof.
  cbn [path_head]. rewrite !orb_true_iff, !andb_true_iff.
  intros [[Ha Hd]|[Hs Hn]].
  - left. split; [exact Ha|apply drive_tail_back; exact Hd].
  - right. split; [exact Hs|apply head_non_space_back; exact Hn].
Qed.
End HeadFacts.

Section ScanFacts.
Variable m : str -> option nat.
Variable rep : str -> str.

Lemma replace_from_skipn (k : nat) (t : str) :
  replace_from m rep k t = replace_all m rep (skipn k t).
Proof.
  revert k; induction t as [|c t IH]; intros k.
  - destruct k; reflexivity.
  - destruct k as [|k]; [reflexivity|]. cbn [replace_from skipn]. apply IH.
Qed.

Lemma replace_all_cons (c : ascii) (t : str) :
  replace_all m rep (c :: t) =
  match m (c :: t) with
  | Some (S k) => rep (firstn (S k) (c :: t))
                  ++ replace_all m rep (skipn (S k) (c :: t))
  | _ => c :: replace_all m rep t
  end.
Proof.
  unfold replace_all at 1. cbn [replace_from].
  destruct (m (c :: t)) as [[|k]|]; try reflexivity.
  rewrite replace_from_skipn. reflexivity.
Qed.
End ScanFacts.

Lemma skipn_takeWhile (p : ascii -> bool) (r : str) :
  skipn (List.length (takeWhile p r)) r = dropWhile p r.
Proof.
  induction r as [|c r IH]; simpl; [reflexivity|].
  destruct (p c); simpl; [exact IH|reflexivity].
Qed.

Lemma head_non_space_dropWhile (r : str) :
  head_non_space (dropWhile non_space r) = false.
Proof.
  pose proof (dropWhile_head non_space r) as H.
  destruct (dropWhile non_space r); [reflexivity|exact H].
Qed.

Lemma nonspace_run_skip (k : nat) (r : str) (n : nat) :
  nonspace_run k r = Some n ->
  exists j, n = k + j /\ head_non_space (skipn j r) = false.
Proof.
  unfold nonspace_run.
  destruct (List.length (takeWhile non_space r)) as [|j] eqn:E;
    [discriminate|].
  intros H. inversion H; subst n. exists (S j). split; [reflexivity|].
  rewrite <- E, skipn_takeWhile. apply head_non_space_dropWhile.
Qed.

(** A path match ends where the text ends or goes on with a whitespace
    character. *)
Lemma after_path_match (s : str) (n : nat) :
  m_path s = Some n -> head_non_space (skipn n s) = false.
Proof.
  unfold m_path, m_drive_path, m_rooted_path, lit, strip_prefix.
  destruct s as [|a r]; [discriminate|].
  assert (Hrooted :
    match strip_prefix_by Ascii.eqb (js "/") (a :: r) with
    | Some r0 => nonspace_run 1 r0
    | None => None
    end = Some n -> head_non_space (skipn n (a :: r)) = false).
  { cbn [js list_ascii_of_string strip_prefix_by].
    destruct (Ascii.eqb "/" a); [|discriminate].
    intros H. destruct (nonspace_run_skip _ _ _ H) as (j & -> & Hj).
    exact Hj. }
  destruct (is_alpha a); [|exact Hrooted].
  cbn [js list_ascii_of_string strip_prefix_by] in *.
  destruct r as [|c1 [|c2 r]]; try exact Hrooted.
  - destruct (Ascii.eqb ":" c1); exact Hrooted.
  - destruct (Ascii.eqb ":" c1); [|exact Hrooted].
    destruct (Ascii.eqb "\" c2); [|exact Hrooted].
    destruct (nonspace_run 3 r) as [n'|] eqn:E; [|exact Hrooted].
    intros H. inversion H; subst n'.
    destruct (nonspace_run_skip _ _ _ E) as (j & -> & Hj). exact Hj.
Qed.

Lemma erase_head_blank (s : str) :
  head_non_space s = false ->
  head_non_space (replace_all m_path erase s) = false.
Proof.
  destruct s as [|w s]; [reflexivity|]. cbn [head_non_space].
  intros H. assert (Hw : is_space w = true).
  { unfold non_space in H. destruct (is_space w); [reflexivity|discriminate]. }
  rewrite replace_all_cons.
  rewrite (proj2 m_path_on_text w s Hw). exact H.
Qed.

Lemma erase_head (t : str) (y : ascii) (o : str) :
  replace_all m_path erase t = y :: o -> non_space y = true ->
  (exists t', t = y :: t' /\ o = replace_all m_path erase t')
  \/ (is_alpha y = true /\ head_non_space t = true).
Proof.
  destruct t as [|x t]; [discriminate|].
  rewrite replace_all_cons.
  pose proof (m_path_head (x :: t)) as Hh.
  pose proof (after_path_match (x :: t)) as Ha.
  destruct (m_path (x :: t)) as [[|k]|].
  - destruct Hh as [_ Hh]. lia.
  - intros E Hy. exfalso.
    specialize (Ha _ eq_refl). apply erase_head_blank in Ha.
    change (erase (firstn (S k) (x :: t))) with (@nil ascii) in E.
    cbn [app] in E. rewrite E in Ha.
    cbn [head_non_space] in Ha. congruence.
  - intros E Hy. inversion E; subst. left. eauto.
Qed.

(** Once the paths are erased, none is left. *)
Lemma erase_path_free (l : str) :
  test m_path (replace_all m_path erase l) = false.
Proof.
  remember (List.length l) as n eqn:Hn.
  assert (Hle : List.length l <= n) by lia. clear Hn.
  revert l Hle. induction n as [|n IH]; intros l Hle.
  - destruct l; [reflexivity|simpl in Hle; lia].
  - destruct l as [|c t]; [reflexivity|].
    rewrite replace_all_cons.
    pose proof (m_path_head (c :: t)) as Hh.
    destruct (m_path (c :: t)) as [[|k]|].
    + destruct Hh as [_ Hh]. lia.
    + change (erase (firstn (S k) (c :: t))) with (@nil ascii).
      cbn [app]. apply IH.
      cbn [skipn]. pose proof (length_skipn k t). simpl in Hle. lia.
    + rewrite test_m_path_cons. rewrite IH by (simpl in Hle; lia).
      rewrite orb_false_r.
      destruct (path_head (c :: replace_all m_path erase t)) eqn:E;
        [|reflexivity].
      apply (path_head_back _ erase_head) in E. congruence.
Qed.

(** ** Replacements that start with a letter *)

Section LetterReplace.
Variable m : str -> option nat.
Variable rep : str -> str.
Hypothesis Hrep : forall s k,
  m s = Some (S k) ->
  head_non_space s = true
  /\ exists y r, rep (firstn (S k) s) = y :: r /\ is_alpha y = true.
Hypothesis Hmatch : forall s k,
  m s = Some (S k) ->
  test m_path s = false ->
  test m_path (replace_all m rep (skipn (S k) s)) = false ->
  test m_path (rep (firstn (S k) s) ++ replace_all m rep (skipn (S k) s))
  = false.

Lemma letter_head (t : str) (y : ascii) (o : str) :
  replace_all m rep t = y :: o -> non_space y = true ->
  (exists t', t = y :: t' /\ o = replace_all m rep t')
  \/ (is_alpha y = true /\ head_non_space t = true).
Proof.
  destruct t as [|x t]; [discriminate|].
  rewrite replace_all_cons.
  destruct (m (x :: t)) as [[|k]|] eqn:Em.
  - intros E _. inversion E; subst. left. eauto.
  - destruct (Hrep _ _ Em) as (Hs & y' & r & Hr & Hy').
    rewrite Hr. intros E _. inversion E; subst. right. auto.
  - intros E _. inversion E; subst. left. eauto.
Qed.

Lemma letter_path_free (l : str) :
  test m_path l = false -> test m_path (replace_all m rep l) = false.
Proof.
  remember (List.length l) as n eqn:Hn.
  assert (Hle : List.length l <= n) by lia. clear Hn.
  revert l Hle. induction n as [|n IH]; intros l Hle Hl.
  - destruct l; [reflexivity|simpl in Hle; lia].
  - destruct l as [|c t]; [reflexivity|].
    assert (Hstep : test m_path (c :: replace_all m rep t) = false).
    { rewrite test_m_path_cons in *. apply orb_false_iff in Hl.
      destruct Hl as [Hc Ht].
      rewrite (IH t) by (simpl in Hle; lia || exact Ht).
      rewrite orb_false_r.
      destruct (path_head (c :: replace_all m rep t)) eqn:E; [|reflexivity].
      apply (path_head_back _ letter_head) in E. congruence. }
    rewrite replace_all_cons.
    destruct (m (c :: t)) as [[|k]|] eqn:Em; try exact Hstep.
    apply (Hmatch _ _ Em Hl). apply IH.
    + cbn [skipn]. pose proof (length_skipn k t). simpl in Hle. lia.
    + apply (test_after m_path (firstn (S k) (c :: t))).
      rewrite firstn_skipn. exact Hl.
Qed.
End LetterReplace.

(** ** The shape of the matches *)

Lemma strip_prefix_by_split (eq : ascii -> ascii -> bool) (p s r : str) :
  strip_prefix_by eq p s = Some r ->
  exists q, s = q ++ r /\ List.length q = List.length p.
Proof.
  revert s; induction p as [|x p IH]; intros s; simpl.
  - intros H; inversion H. exists []. auto.
  - destruct s as [|c s]; [discriminate|].
    destruct (eq x c); [|discriminate].
    intros H. destruct (IH _ H) as (q & -> & Hq).
    exists (c :: q). simpl. auto.
Qed.

Lemma digits1_split (s ds r : str) :
  digits1 s = Some (ds, r) ->
  s = ds ++ r /\ forallb is_digit ds = true.
Proof.
  unfold digits1.
  destruct (takeWhile is_digit s) as [|d ds'] eqn:E; [discriminate|].
  intros H. inversion H; subst. rewrite <- E. split.
  - symmetry. apply span_eq.
  - clear. induction s as [|c s IH]; simpl; [reflexivity|].
    destruct (is_digit c) eqn:Ec; simpl; [rewrite Ec; exact IH|reflexivity].
Qed.

Lemma eqb_ci_p (c : ascii) : eqb_ci "p" c = true -> is_alpha c = true.
Proof.
  destruct c as [[] [] [] [] [] [] [] []]; intros H;
    try discriminate H; reflexivity.
Qed.

Lemma eqb_ci_d (c : ascii) : eqb_ci "d" c = true -> non_space c = true.
Proof.
  destruct c as [[] [] [] [] [] [] [] []]; intros H;
    try discriminate H; reflexivity.
Qed.

Lemma eqb_ci_l (c : ascii) : eqb_ci "l" c = true -> non_space c = true.
Proof.
  destruct c as [[] [] [] [] [] [] [] []]; intros H;
    try discriminate H; reflexivity.
Qed.

Lemma eqb_ci_space (c : ascii) :
  eqb_ci " " c = true -> is_space c = true.
Proof.
  destruct c as [[] [] [] [] [] [] [] []]; intros H;
    try discriminate H; reflexivity.
Qed.

Lemma alpha_facts (a : ascii) :
  is_alpha a = true ->
  non_space a = true /\ Ascii.eqb "/" a = false
  /\ Ascii.eqb ":" a = false /\ Ascii.eqb "\" a = false.
Proof.
  destruct a as [[] [] [] [] [] [] [] []]; intros H;
    try discriminate H; repeat split; reflexivity.
Qed.

Lemma digit_facts (d : ascii) :
  is_digit d = true -> is_alpha d = false /\ Ascii.eqb "/" d = false.
Proof.
  destruct d as [[] [] [] [] [] [] [] []]; intros H;
    try discriminate H; split; reflexivity.
Qed.

(** A temporary-file match is made of characters that are not
    whitespace and ends with the letter of [.asp]. *)
Lemma m_temp_shape (s : str) (n : nat) :
  m_temp s = Some n ->
  head_non_space s = true
  /\ exists pre p, s = pre ++ p :: skipn n s /\ is_alpha p = true.
Proof.
  unfold m_temp.
  destruct (lit_ci "dlv-temp-" s) as [s1|] eqn:E1; [|discriminate].
  destruct (digits1 s1) as [[ds s2]|] eqn:E2; [|discriminate].
  destruct (lit_ci ".asp" s2) as [s3|] eqn:E3; [|discriminate].
  intros H. inversion H; subst n. clear H. split.
  - destruct (lit_ci_head _ _ _ _ E1) as (c & s' & -> & Hc).
    exact (eqb_ci_d c Hc).
  - destruct (strip_prefix_by_split _ _ _ _ E1) as (q & -> & Hq).
    destruct (digits1_split _ _ _ E2) as (-> & _).
    unfold lit_ci, strip_prefix_ci in E3.
    cbn [js list_ascii_of_string strip_prefix_by] in E3.
    destruct s2 as [|c1 [|c2 [|c3 [|c4 s2]]]];
      try discriminate E3;
      try (destruct (eqb_ci "." c1); discriminate E3);
      try (destruct (eqb_ci "." c1); [|discriminate E3];
           destruct (eqb_ci "a" c2); discriminate E3);
      try (destruct (eqb_ci "." c1); [|discriminate E3];
           destruct (eqb_ci "a" c2); [|discriminate E3];
           destruct (eqb_ci "s" c3); discriminate E3).
    destruct (eqb_ci "." c1); [|discriminate E3].
    destruct (eqb_ci "a" c2); [|discriminate E3].
    destruct (eqb_ci "s" c3); [|discriminate E3].
    destruct (eqb_ci "p" c4) eqn:Ep; [|discriminate E3].
    inversion E3; subst s3.
    exists (q ++ ds ++ [c1; c2; c3]), c4. split; [|exact (eqb_ci_p c4 Ep)].
    assert (Hlen : 9 + List.length ds + 4
                   = List.length (q ++ ds ++ [c1; c2; c3; c4])).
    { rewrite !length_app, Hq. simpl. lia. }
    change (S (S (S (S (S (S (S (S (S (List.length ds + 4))))))))))
      with (9 + List.length ds + 4).
    rewrite Hlen.
    replace (q ++ ds ++ c1 :: c2 :: c3 :: c4 :: s2)
      with ((q ++ ds ++ [c1; c2; c3; c4]) ++ s2)
      by (rewrite <- !app_assoc; reflexivity).
    rewrite skipn_length_app. rewrite <- !app_assoc. reflexivity.
Qed.

Lemma path_head_letter (a : ascii) (r : str) :
  is_alpha a = true -> path_head (a :: r) = drive_tail r.
Proof.
  intros H. destruct (alpha_facts a H) as (_ & Hs & _).
  cbn [path_head]. rewrite H, Hs. cbn [andb]. apply orb_false_r.
Qed.

Lemma drive_tail_other (c : ascii) (r : str) :
  Ascii.eqb ":" c = false -> drive_tail (c :: r) = false.
Proof. intros H. destruct r; cbn [drive_tail]; [|rewrite H]; reflexivity. Qed.

Lemma temp_rep (s : str) (k : nat) :
  m_temp s = Some (S k) ->
  head_non_space s = true
  /\ exists y r, placeholder (firstn (S k) s) = y :: r /\ is_alpha y = true.
Proof.
  intros H. split; [exact (proj1 (m_temp_shape _ _ H))|].
  exists "I"%char, (js "nput"). split; reflexivity.
Qed.

Lemma temp_match (s : str) (k : nat) :
  m_temp s = Some (S k) ->
  test m_path s = false ->
  test m_path (replace_all m_temp placeholder (skipn (S k) s)) = false ->
  test m_path (placeholder (firstn (S k) s)
               ++ replace_all m_temp placeholder (skipn (S k) s)) = false.
Proof.
  intros Hm Hs Ho.
  destruct (m_temp_shape _ _ Hm) as (_ & pre & p & Hsplit & Hp).
  set (o := replace_all m_temp placeholder (skipn (S k) s)) in *.
  change (placeholder (firstn (S k) s) ++ o)
    with ("I"%char :: "n"%char :: "p"%char :: "u"%char :: "t"%char :: o).
  rewrite !test_m_path_cons, Ho, orb_false_r.
  rewrite !path_head_letter by reflexivity.
  rewrite !drive_tail_other by reflexivity. cbn [orb].
  destruct (drive_tail o) eqn:Ed; [|reflexivity].
  apply (drive_tail_back _ (letter_head m_temp placeholder temp_rep)) in Ed.
  rewrite Hsplit in Hs. apply test_after in Hs.
  rewrite test_m_path_cons, (path_head_letter p _ Hp), Ed in Hs.
  discriminate Hs.
Qed.

Lemma temp_path_free (l : str) :
  test m_path l = false ->
  test m_path (replace_all m_temp placeholder l) = false.
Proof. exact (letter_path_free m_temp placeholder temp_rep temp_match l). Qed.

(** A [line N:] match: four letters, a space, digits and the colon. *)
Lemma m_line_shape (s : str) (k : nat) :
  m_line s = Some k ->
  head_non_space s = true
  /\ exists l4 e ds,
       s = l4 ++ e :: ds ++ ":"%char :: skipn (S k) s
       /\ firstn k s = l4 ++ e :: ds
       /\ removelast (firstn (S k) s) = l4 ++ e :: ds
       /\ is_space e = true
       /\ forallb is_digit ds = true.
Proof.
  unfold m_line.
  destruct (lit_ci "line " s) as [s1|] eqn:E1; [|discriminate].
  destruct (digits1 s1) as [[ds s2]|] eqn:E2; [|discriminate].
  destruct (lit ":" s2) as [s3|] eqn:E3; [|discriminate].
  intros H. inversion H; subst k. clear H. split.
  - destruct (lit_ci_head _ _ _ _ E1) as (c & s' & -> & Hc).
    exact (eqb_ci_l c Hc).
  - destruct (digits1_split _ _ _ E2) as (-> & Hds).
    unfold lit, strip_prefix in E3.
    cbn [js list_ascii_of_string strip_prefix_by] in E3.
    destruct s2 as [|c s2]; [discriminate E3|].
    destruct (Ascii.eqb ":" c) eqn:Ec; [|discriminate E3].
    apply Ascii.eqb_eq in Ec. subst c. inversion E3; subst s3.
    unfold lit_ci, strip_prefix_ci in E1.
    cbn [js list_ascii_of_string strip_prefix_by] in E1.
    destruct s as [|a1 [|a2 [|a3 [|a4 [|a5 s]]]]];
      try discriminate E1;
      repeat match type of E1 with
             | (if ?b then _ else _) = _ =>
                 destruct b eqn:?; [|discriminate E1]
             end;
      try discriminate E1.
    inversion E1; subst s.
    exists [a1; a2; a3; a4], a5, ds.
    split; [|split; [|split; [|split]]].
    + assert (Hs : skipn (S (List.length ds)) (ds ++ ":"%char :: s2) = s2).
      { clear. induction ds as [|d ds IH]; [reflexivity|exact IH]. }
      exact (f_equal
               (fun x => a1 :: a2 :: a3 :: a4 :: a5 :: ds ++ ":"%char :: x)
               (eq_sym Hs)).
    + exact (f_equal (fun x => a1 :: a2 :: a3 :: a4 :: a5 :: x)
               (firstn_length_app ds (":"%char :: s2))).
    + assert (Hf : firstn (S (List.length ds)) (ds ++ ":"%char :: s2)
                   = ds ++ [":"%char]).
      { clear. induction ds as [|d ds IH]; [reflexivity|].
        change (firstn (S (List.length (d :: ds)))
                  ((d :: ds) ++ ":"%char :: s2))
          with (d :: firstn (S (List.length ds)) (ds ++ ":"%char :: s2)).
        rewrite IH. reflexivity. }
      transitivity
        (removelast ((a1 :: a2 :: a3 :: a4 :: a5 :: ds) ++ [":"%char])).
      { exact (f_equal
                 (fun x => removelast (a1 :: a2 :: a3 :: a4 :: a5 :: x)) Hf). }
      apply removelast_last.
    + apply eqb_ci_space. assumption.
    + exact Hds.
Qed.

Lemma m_line_colon_Some (s : str) (k : nat) :
  m_line_colon s = Some (S k) -> m_line s = Some k.
Proof.
  unfold m_line_colon. destruct (m_line s); [|discriminate].
  intros H. inversion H. reflexivity.
Qed.

Lemma line_rep (s : str) (k : nat) :
  m_line_colon s = Some (S k) ->
  head_non_space s = true
  /\ exists y r, errore (firstn (S k) s) = y :: r /\ is_alpha y = true.
Proof.
  intros H. apply m_line_colon_Some in H.
  split; [exact (proj1 (m_line_shape _ _ H))|].
  eexists. eexists. split; reflexivity.
Qed.

Lemma test_m_path_digits (ds o : str) :
  forallb is_digit ds = true ->
  test m_path (ds ++ o) = test m_path o.
Proof.
  induction ds as [|d ds IH]; [reflexivity|]. cbn [forallb app].
  rewrite andb_true_iff. intros [Hd Hds].
  rewrite test_m_path_cons, (IH Hds).
  destruct (digit_facts d Hd) as [Ha Hs].
  cbn [path_head]. rewrite Ha, Hs. reflexivity.
Qed.

Lemma line_match (s : str) (k : nat) :
  m_line_colon s = Some (S k) ->
  test m_path s = false ->
  test m_path (replace_all m_line_colon errore (skipn (S k) s)) = false ->
  test m_path (errore (firstn (S k) s)
               ++ replace_all m_line_colon errore (skipn (S k) s)) = false.
Proof.
  intros Hm Hs Ho. apply m_line_colon_Some in Hm.
  destruct (m_line_shape _ _ Hm)
    as (_ & l4 & e & ds & Hsplit & _ & Hlast & He & Hds).
  set (o := replace_all m_line_colon errore (skipn (S k) s)) in *.
  unfold errore. rewrite Hlast.
  replace ((js "Errore:" ++ [LF] ++ l4 ++ e :: ds) ++ o)
    with (js "Errore:" ++ LF :: (l4 ++ e :: (ds ++ o)))
    by (rewrite <- ?app_assoc; cbn [app]; rewrite <- ?app_assoc; reflexivity).
  rewrite (test_m_path_ws (js "Errore:") LF _ eq_refl).
  rewrite (test_m_path_ws l4 e _ He).
  rewrite (test_m_path_digits ds o Hds), Ho.
  rewrite Hsplit in Hs.
  rewrite (test_prefix m_path l4 _ m_path_extends Hs). reflexivity.
Qed.

Lemma errore_path_free (l : str) :
  test m_path l = false ->
  test m_path (replace_all m_line_colon errore l) = false.
Proof. exact (letter_path_free m_line_colon errore line_rep line_match l). Qed.


(** ** No path survives [cleanErrors] *)

Lemma errorMatch_Some (l g1 g2 : str) :
  errorMatch l = Some (g1, g2) ->
  exists pre suf n,
    l = pre ++ suf /\ m_line suf = Some n
    /\ g1 = firstn n suf
    /\ g2 = takeWhile dot (dropWhile is_space (skipn (S n) suf)).
Proof.
  induction l as [|c l IH]; cbn [errorMatch].
  - destruct (m_line []) as [n|] eqn:E; [|discriminate].
    intros H. inversion H; subst. exists [], [], n. auto.
  - destruct (m_line (c :: l)) as [n|] eqn:E.
    + intros H. inversion H; subst. exists [], (c :: l), n. auto.
    + intros H. destruct (IH H) as (pre & suf & n & -> & Hm & Hg1 & Hg2).
      exists (c :: pre), suf, n. auto.
Qed.

Lemma after_first_colon_suffix (s t : str) :
  after_first_colon s = Some t -> exists a, s = a ++ t.
Proof.
  induction s as [|c s IH]; cbn [after_first_colon]; [discriminate|].
  destruct (Ascii.eqb c ":").
  - intros H. inversion H; subst. exists [c]. reflexivity.
  - destruct (is_line_term c); [discriminate|].
    intros H. destruct (IH H) as (a & ->). exists (c :: a). reflexivity.
Qed.

Lemma drop_label_path_free (g : str) :
  test m_path g = false -> test m_path (drop_label g) = false.
Proof.
  intros H. unfold drop_label.
  destruct (after_first_colon g) as [t|] eqn:E; [|exact H].
  destruct (after_first_colon_suffix _ _ E) as (a & ->).
  apply test_after in H.
  rewrite <- (span_eq is_space t) in H.
  exact (test_after _ _ _ H).
Qed.

Lemma clean_line_path_free (line : str) :
  test m_path (clean_line line) = false.
Proof.
  unfold clean_line.
  pose proof (temp_path_free _ (erase_path_free line)) as H.
  set (l := replace_all m_temp placeholder (replace_all m_path erase line))
    in *.
  destruct (errorMatch l) as [[g1 g2]|] eqn:E.
  - destruct (errorMatch_Some _ _ _ E) as (pre & suf & n & Hl & Hm & -> & ->).
    destruct (m_line_shape _ _ Hm)
      as (_ & l4 & e & ds & Hsplit & Hfirst & _ & He & Hds).
    rewrite Hl in H. apply test_after in H.
    change (js ": ") with (":"%char :: " "%char :: []).
    set (d := drop_label _).
    assert (Heq : firstn n suf ++ [":"%char; " "%char] ++ d
                  = (firstn n suf ++ [":"%char]) ++ " "%char :: d)
      by (rewrite <- app_assoc; reflexivity).
    rewrite Heq. subst d.
    rewrite (test_m_path_ws _ " " _ eq_refl).
    apply orb_false_iff. split.
    + rewrite Hfirst. rewrite Hsplit in H.
      apply (test_prefix m_path _ (skipn (S n) suf) m_path_extends).
      rewrite <- ?app_assoc. cbn [app]. rewrite <- ?app_assoc. exact H.
    + apply drop_label_path_free.
      rewrite <- (firstn_skipn (S n) suf) in H. apply test_after in H.
      rewrite <- (span_eq is_space (skipn (S n) suf)) in H.
      apply test_after in H.
      rewrite <- (span_eq dot (dropWhile is_space (skipn (S n) suf))) in H.
      exact (test_prefix m_path _ _ m_path_extends H).
  - destruct (includes l (js "Command failed:")
              || includes l (js "Aborting due to")); [reflexivity|exact H].
Qed.

Lemma join_path_free (lines : list str) :
  Forall (fun l => test m_path l = false) lines ->
  test m_path (join [LF] lines) = false.
Proof.
  induction lines as [|x r IH]; [reflexivity|].
  intros H. inversion H as [|? ? Hx Hr]; subst.
  destruct r as [|y r]; [exact Hx|].
  change (join [LF] (x :: y :: r)) with (x ++ LF :: join [LF] (y :: r)).
  rewrite (test_m_path_ws x LF _ eq_refl), Hx, (IH Hr). reflexivity.
Qed.

Lemma strip_final_punct_prefix (s : str) :
  exists w, s = strip_final_punct s ++ w.
Proof.
  unfold strip_final_punct.
  exists (rev (takeWhile is_dot_or_colon (rev s))).
  rewrite <- rev_app_distr, span_eq, rev_involutive. reflexivity.
Qed.

Lemma trim_path_free (s : str) :
  test m_path s = false -> test m_path (trim s) = false.
Proof.
  intros H. unfold trim, trimStart.
  rewrite <- (span_eq is_space s) in H. apply test_after in H.
  destruct (trimEnd_prefix (dropWhile is_space s)) as [w Hw].
  rewrite Hw in H. exact (test_prefix m_path _ _ m_path_extends H).
Qed.

Lemma cleanErrors_path_free (s : str) :
  test m_path (cleanErrors s) = false.
Proof.
  unfold cleanErrors. cbv zeta. apply trim_path_free.
  set (t := replace_all m_line_colon errore _).
  assert (Ht : test m_path t = false).
  { apply errore_path_free, join_path_free.
    apply Forall_forall. intros l Hl. apply filter_In in Hl.
    destruct Hl as [Hl _]. apply in_map_iff in Hl.
    destruct Hl as (x & <- & _). apply clean_line_path_free. }
  destruct (strip_final_punct_prefix t) as [w Hw].
  rewrite Hw in Ht. exact (test_prefix m_path _ _ m_path_extends Ht).
Qed.

(** ** The first line that survives *)

Lemma split_line (l x : str) :
  no_LF l = true -> split LF (l ++ LF :: x) = l :: split LF x.
Proof.
  unfold no_LF. induction l as [|c l IH]; cbn [app split forallb].
  - intros _. reflexivity.
  - rewrite andb_true_iff, negb_true_iff. intros [Hc Hl].
    rewrite Hc, (IH Hl). reflexivity.
Qed.

Lemma split_lines_before (before : list str) (x : str) :
  Forall (fun l => no_LF l = true /\ nonblank (clean_line l) = false)
    before ->
  split LF (flat_map (fun l => l ++ [LF]) before ++ x)
  = before ++ split LF x.
Proof.
  induction before as [|l before IH]; [reflexivity|].
  intros H. inversion H as [|? ? [Hl _] Hr]; subst.
  cbn [flat_map]. rewrite <- !app_assoc. cbn [app].
  rewrite (split_line l _ Hl), (IH Hr). reflexivity.
Qed.

Lemma filter_dropped (before : list str) (rest : list str) :
  Forall (fun l => no_LF l = true /\ nonblank (clean_line l) = false)
    before ->
  filter nonblank (map clean_line (before ++ rest))
  = filter nonblank (map clean_line rest).
Proof.
  induction before as [|l before IH]; [reflexivity|].
  intros H. inversion H as [|? ? [_ Hl] Hr]; subst.
  cbn [app map filter]. rewrite Hl. exact (IH Hr).
Qed.

(** A text that starts with the letter l after a text without the
    pattern does not complete a match that starts in that text. *)
Lemma m_line_before_l (u x : str) :
  u <> [] -> m_line u = None -> m_line (u ++ "l"%char :: x) = None.
Proof.
  intros Hu. unfold m_line.
  destruct (lit_ci "line " u) as [s1|] eqn:E1.
  - rewrite (lit_ci_app _ _ _ ("l"%char :: x) E1).
    unfold digits1. rewrite takeWhile_app, dropWhile_app.
    destruct (forallb is_digit s1) eqn:Ed.
    + cbn [takeWhile dropWhile]. rewrite app_nil_r.
      destruct s1 as [|d s1]; reflexivity.
    + destruct (takeWhile is_digit s1) as [|d ds]; [reflexivity|].
      pose proof (dropWhile_head is_digit s1) as Hh.
      destruct (dropWhile is_digit s1) as [|c r] eqn:Er.
      * exfalso. clear - Ed Er.
        induction s1 as [|a s1 IH]; [discriminate Ed|].
        simpl in Ed, Er. destruct (is_digit a); [auto|discriminate Er].
      * unfold lit, strip_prefix.
        cbn [js list_ascii_of_string strip_prefix_by app].
        destruct (Ascii.eqb ":" c); [discriminate|reflexivity].
  - intros _.
    assert (H : lit_ci "line " (u ++ "l"%char :: x) = None);
      [|rewrite H; reflexivity].
    unfold lit_ci, strip_prefix_ci in *.
    cbn [js list_ascii_of_string strip_prefix_by] in *.
    destruct u as [|a1 [|a2 [|a3 [|a4 [|a5 u]]]]]; [congruence| | | | |];
      cbn [app];
      repeat match goal with
             | |- context [eqb_ci ?p "l"%char] =>
                 let v := eval vm_compute in (eqb_ci p "l"%char) in
                 change (eqb_ci p "l"%char) with v; cbv iota
             | |- (if ?b then _ else _) = None =>
                 destruct b; [|reflexivity]
             | H : (if ?b then _ else _) = None |- _ =>
                 destruct b; [|reflexivity]
             end;
      try reflexivity; try discriminate E1.
Qed.

Lemma errorMatch_skip (P x : str) :
  test m_line P = false ->
  errorMatch (P ++ "l"%char :: x) = errorMatch ("l"%char :: x).
Proof.
  induction P as [|c P IH]; [reflexivity|].
  cbn [test]. destruct (m_line (c :: P)) eqn:E; [discriminate|].
  intros H. change ((c :: P) ++ "l"%char :: x) with (c :: (P ++ "l"%char :: x)).
  cbn [errorMatch].
  rewrite (m_line_before_l (c :: P) x ltac:(discriminate) E
           : m_line (c :: (P ++ "l"%char :: x)) = None).
  exact (IH H).
Qed.

Lemma after_first_colon_none (s : str) :
  forallb (fun c => negb (Ascii.eqb c ":")) s = true ->
  after_first_colon s = None.
Proof.
  induction s as [|c s IH]; [reflexivity|]. cbn [forallb after_first_colon].
  rewrite andb_true_iff, negb_true_iff. intros [Hc Hs].
  rewrite Hc, (IH Hs). destruct (is_line_term c); reflexivity.
Qed.

Lemma nonblank_head (c : ascii) (s : str) :
  non_space c = true -> nonblank (c :: s) = true.
Proof.
  intros H. unfold nonblank, trim, trimStart. cbn [dropWhile].
  assert (Hc : is_space c = false)
    by (unfold non_space in H; destruct (is_space c); [discriminate|reflexivity]).
  rewrite Hc. destruct (trimEnd_head c s Hc) as [r ->]. reflexivity.
Qed.

Lemma strip_final_punct_keeps (a : str) (c : ascii) (b : str) :
  is_dot_or_colon c = false ->
  exists b', strip_final_punct (a ++ [c] ++ b) = a ++ [c] ++ b'.
Proof.
  intros Hc. unfold strip_final_punct.
  rewrite !rev_app_distr. simpl rev. rewrite <- app_assoc, dropWhile_app.
  destruct (forallb is_dot_or_colon (rev b)).
  - exists []. simpl. rewrite Hc. simpl.
    rewrite rev_involutive. reflexivity.
  - exists (rev (dropWhile is_dot_or_colon (rev b))).
    rewrite !rev_app_distr. simpl.
    rewrite rev_involutive, <- app_assoc. reflexivity.
Qed.

(** The line with the message, once the path and temp-name rules have
    been applied to it. *)
Lemma clean_line_line3 (L P R : str) :
  replace_all m_temp placeholder (replace_all m_path erase L)
  = P ++ js "line 3: syntax error" ++ R ->
  test m_line P = false ->
  forallb (fun c => negb (Ascii.eqb c ":")) R = true ->
  clean_line L = js "line 3: syntax error" ++ takeWhile dot R.
Proof.
  intros HL HP HR. unfold clean_line. rewrite HL.
  change (js "line 3: syntax error" ++ R)
    with ("l"%char :: js "ine 3: syntax error" ++ R).
  rewrite (errorMatch_skip P _ HP).
  change (errorMatch ("l"%char :: js "ine 3: syntax error" ++ R))
    with (Some (js "line 3", js "syntax error" ++ takeWhile dot R)).
  cbv iota beta. unfold drop_label.
  rewrite after_first_colon_none; [reflexivity|].
  rewrite forallb_app. apply andb_true_iff. split; [reflexivity|].
  apply forallb_takeWhile. exact HR.
Qed.

Lemma replace_line3 (y : str) :
  replace_all m_line_colon errore (js "line 3: syntax error" ++ y)
  = js "Errore:" ++ [LF] ++ js "line 3 syntax error"
    ++ replace_all m_line_colon errore y.
Proof. reflexivity. Qed.

Lemma final_keeps (y : str) :
  exists more,
    trim (strip_final_punct
            (js "Errore:" ++ [LF] ++ js "line 3 syntax error" ++ y))
    = js "Errore:" ++ [LF] ++ js "line 3 syntax error" ++ more.
Proof.
  destruct (strip_final_punct_keeps
              (js "Errore:" ++ [LF] ++ js "line 3 syntax erro") "r" y eq_refl)
    as [b' Hb'].
  replace (js "Errore:" ++ [LF] ++ js "line 3 syntax error" ++ y)
    with ((js "Errore:" ++ [LF] ++ js "line 3 syntax erro") ++ ["r"%char] ++ y)
    by reflexivity.
  rewrite Hb'. unfold trim, trimStart.
  change (dropWhile is_space
            ((js "Errore:" ++ [LF] ++ js "line 3 syntax erro")
             ++ ["r"%char] ++ b'))
    with ((js "Errore:" ++ [LF] ++ js "line 3 syntax erro")
          ++ ["r"%char] ++ b').
  destruct (trimEnd_keeps
              (js "Errore:" ++ [LF] ++ js "line 3 syntax erro") "r" b' eq_refl)
    as [b'' Hb''].
  rewrite Hb''. exists b''. reflexivity.
Qed.

Lemma cleanErrors_first_line (before : list str) (L after P R : str) :
  Forall (fun l => no_LF l = true /\ nonblank (clean_line l) = false)
    before ->
  no_LF L = true ->
  replace_all m_temp placeholder (replace_all m_path erase L)
  = P ++ js "line 3: syntax error" ++ R ->
  test m_line P = false ->
  forallb (fun c => negb (Ascii.eqb c ":")) R = true ->
  (after = [] \/ exists more, after = LF :: more) ->
  exists more,
    cleanErrors (flat_map (fun l => l ++ [LF]) before ++ L ++ after)
    = js "Errore:" ++ [LF] ++ js "line 3 syntax error" ++ more.
Proof.
  intros Hb HL Hclean HP HR Hafter. unfold cleanErrors. cbv zeta.
  rewrite (split_lines_before before _ Hb), (filter_dropped before _ Hb).
  assert (Hlines : exists rest, split LF (L ++ after) = L :: rest).
  { destruct Hafter as [->|[more ->]].
    - rewrite app_nil_r. exists []. apply split_no_sep. exact HL.
    - eexists. apply split_line. exact HL. }
  destruct Hlines as [rest ->]. cbn [map filter].
  rewrite (clean_line_line3 L P R Hclean HP HR).
  rewrite (nonblank_head "l" _ eq_refl
           : nonblank (js "line 3: syntax error" ++ takeWhile dot R) = true).
  cbv iota.
  set (others := filter nonblank (map clean_line rest)).
  match goal with
  | |- context [join ?sep ?lines] =>
      assert (Hjoin : exists y,
                join sep lines = js "line 3: syntax error" ++ y)
  end.
  { destruct others as [|o others'].
    - eexists. reflexivity.
    - rewrite join_cons by discriminate. rewrite <- app_assoc.
      eexists. reflexivity. }
  destruct Hjoin as [y ->]. rewrite replace_line3. apply final_keeps.
Qed.

(** C7, as the code has it.  The text [cleanErrors] returns contains
    no path token, whatever the input: the path pattern (a drive
    letter with [:\], or a slash, followed by characters that are not
    whitespace) matches nowhere in it.  When the first line that
    survives the cleaning reads, once its paths are removed and the
    temporary file's name is replaced, as a text without a [line N:]
    pattern, then [line 3: syntax error], then a rest without colon,
    the cleaned text begins with the label [Errore:], a line feed, and
    [line 3 syntax error], the colon after the line number gone.  So
    it does when that line is a rooted path token, such as the path of
    the temporary file with any extension and the colon after it, in
    front of [ line 3: syntax error]: the cleaned text is then exactly
    that rendering. *)
Theorem cleanErrors_line3 :
  (forall s, test m_path (cleanErrors s) = false)
  /\ (forall (before : list str) (L after P R : str),
        Forall (fun l => no_LF l = true /\ nonblank (clean_line l) = false)
          before ->
        no_LF L = true ->
        replace_all m_temp placeholder (replace_all m_path erase L)
        = P ++ js "line 3: syntax error" ++ R ->
        test m_line P = false ->
        forallb (fun c => negb (Ascii.eqb c ":")) R = true ->
        (after = [] \/ exists more, after = LF :: more) ->
        exists more,
          cleanErrors (flat_map (fun l => l ++ [LF]) before ++ L ++ after)
          = js "Errore:" ++ [LF] ++ js "line 3 syntax error" ++ more)
  /\ (forall tok : str,
        tok <> [] ->
        forallb non_space tok = true ->
        cleanErrors (js "/" ++ tok ++ js " line 3: syntax error")
        = js "Errore:" ++ [LF] ++ js "line 3 syntax error"
        /\ forall d, is_alpha d = true ->
             cleanErrors (d :: js ":\" ++ tok ++ js " line 3: syntax error")
             = js "Errore:" ++ [LF] ++ js "line 3 syntax error").
Proof.
  split; [exact cleanErrors_path_free|].
  split; [exact cleanErrors_first_line|exact cleanErrors_path_token_line3].
Qed.

Lemma cleanErrors_line3_witness :
  let report :=
    js "Command failed: dlv /tmp/dlv-temp-1730000000000.asp" ++ [LF]
    ++ js "/tmp/dlv-temp-1730000000000.asp: line 3: syntax error." ++ [LF]
    ++ js "Aborting due to parser errors." in
  test m_path (cleanErrors report) = false
  /\ test m_path (cleanErrors (js "cannot open /tmp/dlv-temp-1.asp")) = false
  /\ cleanErrors (js "cannot open /tmp/dlv-temp-1.asp") = js "cannot open"
  /\ (exists more,
        cleanErrors report
        = js "Errore:" ++ [LF] ++ js "line 3 syntax error" ++ more)
  /\ cleanErrors (js "/tmp/dlv-temp-1730000000000.lp: line 3: syntax error")
     = js "Errore:" ++ [LF] ++ js "line 3 syntax error".
Proof.
  cbv zeta. destruct cleanErrors_line3 as (Hpaths & Hfirst & Htoken).
  split; [apply Hpaths|]. split; [apply Hpaths|]. split; [reflexivity|].
  split.
  - apply (Hfirst [js "Command failed: dlv /tmp/dlv-temp-1730000000000.asp"]
             (js "/tmp/dlv-temp-1730000000000.asp: line 3: syntax error.")
             ([LF] ++ js "Aborting due to parser errors.")
             (js " ") (js ".")).
    + repeat constructor.
    + reflexivity.
    + reflexivity.
    + reflexivity.
    + reflexivity.
    + right. eexists. reflexivity.
  - exact (proj1 (Htoken (js "tmp/dlv-temp-1730000000000.lp:")
                    ltac:(discriminate) eq_refl)).
Defined.

(** C7, as stated, fails.  The cleaned text of a rooted
    temporary-file path followed by [line 3: syntax error] is
    [Errore:], a line feed and [line 3 syntax error]: it does not
    begin with [Error:], a line feed and [line 3: syntax error].  Nor
    does the rendering come first on every input with such a path and
    such a message: a line that survives before it stays in front, a
    later colon on the line takes the message away, and a path glued
    to the word [line] takes the word with it.  The name of a
    temporary file with a tag other than [asp] is not replaced. *)
Lemma cleanErrors_label_is_Errore :
  cleanErrors (js "/tmp/dlv-temp-1730000000000.asp: line 3: syntax error")
  = js "Errore:" ++ [LF] ++ js "line 3 syntax error"
  /\ startsWith
       (cleanErrors
          (js "/tmp/dlv-temp-1730000000000.asp: line 3: syntax error"))
       (js "Error:" ++ [LF] ++ js "line 3: syntax error")
     = false
  /\ cleanErrors (js "warning: unsafe rule" ++ [LF]
                  ++ js "/tmp/dlv-temp-1.asp: line 3: syntax error")
     = js "warning: unsafe rule" ++ [LF] ++ js "Errore:" ++ [LF]
       ++ js "line 3 syntax error"
  /\ cleanErrors (js "/tmp/dlv-temp-1.asp: line 3: syntax error: near b")
     = js "Errore:" ++ [LF] ++ js "line 3 near b"
  /\ cleanErrors (js "/tmp/dlv-temp-1.asp:line 3: syntax error")
     = js "3: syntax error"
  /\ cleanErrors (js "cannot read dlv-temp-1.lp")
     = js "cannot read dlv-temp-1.lp".
Proof. repeat split; reflexivity. Qed.
